(** * tuya-mqtt: the extended TuyAPI device client (src/tuyaapi-extended.js)

    A shallow embedding of the methods that the file adds to
    [TuyaDevice.prototype]: [get], [set], [_send] and [_sendUnwrapped].

    JavaScript values are an inductive type, objects are association lists
    in insertion order, a thrown exception is the [Throw] case of a
    completion, a promise is a cell that is settled at most once, and the
    socket and timer callbacks are handlers over an explicit world that a
    scheduler drives in time order. *)

From Stdlib Require Import ZArith QArith Qround DecimalString.
From stdpp Require Import base option list strings sorting.

Local Open Scope Z_scope.
Local Open Scope string_scope.
Local Open Scope list_scope.

(** ** JavaScript values *)

(** The values that travel through the client: JSON scalars, [undefined],
    and plain objects. A number is an integer here; the properties of an
    object are kept in insertion order and a read finds the first entry of
    a key. Functions and prototype members are outside the type. *)
#[warnings="-register-all"]
Inductive value : Type :=
| VUndefined
| VNull
| VBool (b : bool)
| VNum (n : Z)
| VStr (s : string)
| VObj (props : list (string * value)).

(** An [Error] object: the constructor's name, the [message] property and
    the [code] property that socket errors carry (empty when absent). *)
Record js_error : Type := mkError {
  e_name : string;
  e_message : string;
  e_code : string
}.

(** A call either returns or throws. *)
Inductive completion (A : Type) : Type :=
| Return (a : A)
| Throw (e : js_error).
Arguments Return {A} a.
Arguments Throw {A} e.

#[global] Instance completion_ret : MRet completion := fun A a => Return a.

#[global] Instance completion_bind : MBind completion := fun A B k c =>
  match c with
  | Return a => k a
  | Throw e => Throw e
  end.

Definition Error (message : string) : js_error := mkError "Error" message EmptyString.
Definition TypeError (message : string) : js_error :=
  mkError "TypeError" message EmptyString.

Definition Z_toString (n : Z) : string :=
  NilZero.string_of_int (Z.to_int n).

Definition nat_toString (n : nat) : string := Z_toString (Z.of_nat n).

Definition string_get (i : nat) (s : string) : option Ascii.ascii :=
  String.get i s.

(** [typeof v] *)
Definition typeof (v : value) : string :=
  match v with
  | VUndefined => "undefined"
  | VNull => "object"
  | VBool _ => "boolean"
  | VNum _ => "number"
  | VStr _ => "string"
  | VObj _ => "object"
  end.

(** ToBoolean, as [if (v)] and [v ? a : b] apply it. *)
Definition truthy (v : value) : bool :=
  match v with
  | VUndefined | VNull => false
  | VBool b => b
  | VNum n => negb (Z.eqb n 0)
  | VStr s => negb (String.eqb s EmptyString)
  | VObj _ => true
  end.

(** [v != undefined]: loose inequality, false exactly at [undefined] and
    [null]. *)
Definition ne_undefined (v : value) : bool :=
  match v with
  | VUndefined | VNull => false
  | _ => true
  end.

(** [v === undefined] *)
Definition is_undefined (v : value) : bool :=
  match v with
  | VUndefined => true
  | _ => false
  end.

(** [v === true] *)
Definition is_true (v : value) : bool :=
  match v with
  | VBool true => true
  | _ => false
  end.

(** ToString of a value, as a computed property key applies it. *)
Definition ToString (v : value) : string :=
  match v with
  | VUndefined => "undefined"
  | VNull => "null"
  | VBool true => "true"
  | VBool false => "false"
  | VNum n => Z_toString n
  | VStr s => s
  | VObj _ => "[object Object]"
  end.

Fixpoint lookup_prop (k : string) (props : list (string * value))
  : option value :=
  match props with
  | [] => None
  | (k', v) :: rest => if String.eqb k' k then Some v else lookup_prop k rest
  end.

(** The own properties of a string: its length and its characters. *)
Definition string_prop (s : string) (k : string) : value :=
  if String.eqb k "length" then VNum (Z.of_nat (String.length s))
  else
    match find (fun i => String.eqb (nat_toString i) k)
               (seq 0 (String.length s)) with
    | Some i =>
        match string_get i s with
        | Some c => VStr (String c EmptyString)
        | None => VUndefined
        end
    | None => VUndefined
    end.

(** [v[k]] and [v.k]: a read on [undefined] or [null] throws a TypeError
    (whose text depends on the engine), a missing property reads as
    [undefined]. *)
Definition get_prop (v : value) (k : string) : completion value :=
  match v with
  | VUndefined =>
      Throw (TypeError ("Cannot read property '" +:+ k +:+ "' of undefined"))
  | VNull =>
      Throw (TypeError ("Cannot read property '" +:+ k +:+ "' of null"))
  | VBool _ | VNum _ => Return VUndefined
  | VStr s => Return (string_prop s k)
  | VObj props => Return (default VUndefined (lookup_prop k props))
  end.

(** [v.toString()] *)
Definition call_toString (v : value) : completion string :=
  match v with
  | VUndefined =>
      Throw (TypeError "Cannot read property 'toString' of undefined")
  | VNull => Throw (TypeError "Cannot read property 'toString' of null")
  | VObj props =>
      match lookup_prop "toString" props with
      | Some _ => Throw (TypeError "options.dps.toString is not a function")
      | None => Return (ToString v)
      end
  | _ => Return (ToString v)
  end.

(** [Object.keys(v)] *)
Definition Object_keys (v : value) : completion (list string) :=
  match v with
  | VUndefined | VNull =>
      Throw (TypeError "Cannot convert undefined or null to object")
  | VBool _ | VNum _ => Return []
  | VStr s => Return (map nat_toString (seq 0 (String.length s)))
  | VObj props => Return (map fst props)
  end.

(** ToPrimitive of a value: an object is converted through [toString] and
    [valueOf]. A plain object inherits both, and [toString] gives
    "[object Object]"; with a property [toString] of its own, which is not
    callable since no value here is, no method gives a primitive and the
    conversion throws a TypeError. *)
Definition ToPrimitive (v : value) : completion value :=
  match v with
  | VObj props =>
      match lookup_prop "toString" props with
      | Some _ => Throw (TypeError "Cannot convert object to primitive value")
      | None => Return (VStr "[object Object]")
      end
  | _ => Return v
  end.

(** ToPropertyKey, which a computed read [o[v]] applies to [v]. *)
Definition ToPropertyKey (v : value) : completion string :=
  p ← ToPrimitive v; Return (ToString p).

(** ['text' + v] *)
Definition concat (text : string) (v : value) : completion string :=
  p ← ToPrimitive v; Return (text +:+ ToString p).

(** The property of its own that a value has under a name, if it has
    one: the properties of a map, the length and the characters of a
    string. *)
Definition own_property (v : value) (k : string) : option value :=
  match v with
  | VObj props => lookup_prop k props
  | VStr s =>
      if String.eqb k "length" then Some (VNum (Z.of_nat (String.length s)))
      else
        match find (fun i => String.eqb (nat_toString i) k)
                   (seq 0 (String.length s)) with
        | Some i =>
            match string_get i s with
            | Some c => Some (VStr (String c EmptyString))
            | None => None
            end
        | None => None
        end
  | _ => None
  end.

(** [options = options ? options : {}] *)
Definition default_options (options : value) : value :=
  if truthy options then options else VObj [].

(** ** The property map of [set] (lines 57-72) *)

Definition set_dps (options : value) : completion value :=
  count ← Object_keys options;
  d ← get_prop options "dps";
  s ← get_prop options "set";
  if ne_undefined d || ne_undefined s then
    if is_undefined d then Return (VObj [("1", s)])
    else
      k ← call_toString d;
      Return (VObj [(k, s)])
  else Return options.

(** ** The libraries the file requires *)

Definition Buffer : Type := list Byte.byte.

(** [Buffer.from(s)]: the bytes of the string. *)
Definition Buffer_from (s : string) : Buffer := String.list_byte_of_string s.

(** The argument of [Parser.encode]: [data] is a plain object in [get] and
    a Buffer in [set]. *)
Inductive encode_data : Type :=
| DataObject (v : value)
| DataBuffer (b : Buffer).

Record encode_options : Type := {
  data : encode_data;
  commandByte : string
}.

(** [tuyapi/lib/message-parser], the built-in [JSON.stringify] and the
    built-in prototypes are not part of the file: they are an interface
    here. [Parser_parse] may throw, and returns an object, [undefined] or
    a string. [inherits v k] tells whether the prototypes of the runtime
    give the value [v] a member under the name [k], as [Object.prototype]
    gives every map "constructor", "toString" or "hasOwnProperty". *)
Class Libraries : Type := {
  Parser_encode : encode_options -> Buffer;
  Parser_parse : Buffer -> completion value;
  JSON_stringify : value -> string;
  inherits : value -> string -> bool
}.

(** ** Response shaping of [get] (lines 37-49) *)

(** What a query resolves with: a value of the reply, or a member that a
    value of the reply inherits from a prototype of the runtime.
    [Inherited base k] is [base[k]] for a name [k] that is no property of
    [base] itself: a built-in function or object, which is no value of the
    data that the file handles. *)
Inductive answer : Type :=
| Value (v : value)
| Inherited (base : value) (k : string).

(** [base[key]] (line 42): the base is checked first, then the key is
    converted; a property of the base itself is found before a member of
    its prototypes, and a name that neither has reads as [undefined]. *)
Definition read_key `{L : Libraries} (base key : value) : completion answer :=
  match base with
  | VUndefined | VNull => x ← get_prop base (ToString key); Return (Value x)
  | _ =>
      k ← ToPropertyKey key;
      match own_property base k with
      | Some v => Return (Value v)
      | None =>
          if inherits base k then Return (Inherited base k)
          else Return (Value VUndefined)
      end
  end.

(** The body of the [then] callback of [get]: [Return a] is [resolve(a)];
    an exception thrown in the callback reaches the [catch] that follows it,
    which rejects with it. *)
Definition shape `{L : Libraries} (options data : value)
  : completion answer :=
  dps ← get_prop data "dps";
  schema ← get_prop options "schema";
  if is_true schema then Return (Value data)
  else
    wanted ← get_prop options "dps";
    if truthy wanted then read_key dps wanted
    else if ne_undefined dps then
      one ← get_prop dps "1";
      if ne_undefined one then Return (Value one) else Return (Value dps)
    else Return (Value dps).

(** [this.device.cipher], an instance of [tuyapi/lib/cipher]. *)
Record TuyaCipher : Type := {
  encrypt : string -> string;
  md5 : string -> string;
  decrypt : value -> completion value
}.

(** [this.device]. An absent [ip] ([undefined]) is [None]. *)
Record Device : Type := {
  device_id : value;
  device_key : string;
  device_ip : option string;
  device_version : string;
  device_cipher : TuyaCipher
}.

(** The fields of [this] that the methods read and write; the response
    timeout is in seconds. *)
Record TuyaDevice : Type := {
  device : Device;
  _responseTimeout : Q;
  _sendTimeout : option nat
}.

(** ** The package [retry] *)

(** Insertion sort by an integer key, stable. *)
Fixpoint insert_by {A : Type} (key : A -> Z) (x : A) (l : list A) : list A :=
  match l with
  | [] => [x]
  | y :: rest =>
      if (key x <=? key y)%Z then x :: y :: rest
      else y :: insert_by key x rest
  end.

Definition sort_by {A : Type} (key : A -> Z) (l : list A) : list A :=
  foldr (insert_by key) [] l.

(** Modelled from the spec: the package [retry] (required at line 8) is a
    dependency that is not under src/. Section 4.3 of the spec gives the
    policy [_send] asks of it (4 retries after the first attempt, factor
    1.5, a minimum wait of 10 seconds, the error surfaced when the attempts
    are exhausted); the definitions follow the package's documented
    [timeouts], [retry] and [mainError]: the waits are
    [round(minTimeout * factor ^ i)] in ascending order, every failure
    takes the next wait until none is left, and [mainError] is the error
    whose message occurred most often, the latest one on a tie. *)
Module retry.

Record options : Type := {
  retries : nat;
  factor : Q;
  minTimeout : Z;
  maxTimeout : option Z      (* [None] is [Infinity] *)
}.

(** [Math.round] *)
Definition round (x : Q) : Z := Qfloor (x + (1 # 2)).

Definition createTimeout (attempt : nat) (opts : options) : Z :=
  let timeout :=
    round (inject_Z (minTimeout opts) * factor opts ^ Z.of_nat attempt) in
  match maxTimeout opts with
  | Some m => Z.min timeout m
  | None => timeout
  end.

Definition timeouts (opts : options) : list Z :=
  sort_by (fun t => t)
          (map (fun i => createTimeout i opts) (seq 0 (retries opts))).

(** The loop of [mainError]: the counts per message, the current main
    error and its count. *)
Fixpoint count_of (message : string) (counts : list (string * nat)) : nat :=
  match counts with
  | [] => 0%nat
  | (m, n) :: rest => if String.eqb m message then n else count_of message rest
  end.

Fixpoint mainError_loop (errors : list js_error)
    (counts : list (string * nat))
    (main : option js_error) (mainCount : nat) : option js_error :=
  match errors with
  | [] => main
  | error :: rest =>
      let count := S (count_of (e_message error) counts) in
      let counts' := (e_message error, count) :: counts in
      if (mainCount <=? count)%nat
      then mainError_loop rest counts' (Some error) count
      else mainError_loop rest counts' main mainCount
  end.

Definition mainError (errors : list js_error) : option js_error :=
  mainError_loop errors [] None 0%nat.

End retry.

(** The options of line 119: [{retries: 4, factor: 1.5, minTimeout: 10000}]. *)
Definition send_retry_options : retry.options := {|
  retry.retries := 4;
  retry.factor := 3 # 2;
  retry.minTimeout := 10000;
  retry.maxTimeout := None
|}.

(** ** Sockets, timers and promises *)

(** A promise is settled once; the reason of a rejection is an error, or
    [null] ([None]). *)
Inductive promise : Type :=
| Pending
| Resolved (v : value)
| Rejected (reason : option js_error).

(** The promise of a query is a promise, or it is resolved with an
    inherited member ([ResolvedInherited base k]: resolved with
    [Inherited base k]). *)
Inductive query_promise : Type :=
| Settles (p : promise)
| ResolvedInherited (base : value) (k : string).

Coercion Settles : promise >-> query_promise.

(** One [net.Socket] of [_sendUnwrapped] with the promise of that call. *)
Record client : Type := {
  c_host : option string;
  c_port : Z;
  c_buffer : Buffer;          (* the frame the connect handler writes *)
  c_connected : bool;
  c_destroyed : bool;
  c_idle : option Z;          (* deadline of [client.setTimeout] *)
  c_written : list Buffer;
  c_promise : promise
}.

(** An armed [setTimeout] of the connect handler (line 170). *)
Record timer : Type := {
  tm_id : nat;
  tm_deadline : Z;
  tm_client : nat
}.

Record world : Type := {
  this : TuyaDevice;
  now : Z;                     (* the clock, in milliseconds *)
  timers : list timer;
  next_timer : nat;
  clients : list client;
  uncaught : list js_error     (* exceptions that left an event handler *)
}.

Definition set_now (t : Z) (w : world) : world :=
  {| this := this w; now := t; timers := timers w;
     next_timer := next_timer w; clients := clients w;
     uncaught := uncaught w |}.

Definition set_timers (ts : list timer) (w : world) : world :=
  {| this := this w; now := now w; timers := ts;
     next_timer := next_timer w; clients := clients w;
     uncaught := uncaught w |}.

Definition set_clients (cs : list client) (w : world) : world :=
  {| this := this w; now := now w; timers := timers w;
     next_timer := next_timer w; clients := cs;
     uncaught := uncaught w |}.

Definition throw_uncaught (e : js_error) (w : world) : world :=
  {| this := this w; now := now w; timers := timers w;
     next_timer := next_timer w; clients := clients w;
     uncaught := uncaught w ++ [e] |}.

Definition on_client (c : nat) (f : client -> client) (w : world) : world :=
  set_clients (alter f c (clients w)) w.

Definition settle (p : promise) (cl : client) : client :=
  {| c_host := c_host cl; c_port := c_port cl; c_buffer := c_buffer cl;
     c_connected := c_connected cl; c_destroyed := c_destroyed cl;
     c_idle := c_idle cl; c_written := c_written cl;
     c_promise := match c_promise cl with Pending => p | q => q end |}.

Definition resolve (v : value) : client -> client := settle (Resolved v).
Definition reject (e : js_error) : client -> client :=
  settle (Rejected (Some e)).

(** [client.destroy()]: no further event of the socket, its idle timer is
    gone. *)
Definition destroy (cl : client) : client :=
  {| c_host := c_host cl; c_port := c_port cl; c_buffer := c_buffer cl;
     c_connected := c_connected cl; c_destroyed := true;
     c_idle := None; c_written := c_written cl;
     c_promise := c_promise cl |}.

(** [client.setTimeout(ms)]; [0] removes the idle timer. *)
Definition client_setTimeout (deadline : option Z) (cl : client) : client :=
  {| c_host := c_host cl; c_port := c_port cl; c_buffer := c_buffer cl;
     c_connected := c_connected cl; c_destroyed := c_destroyed cl;
     c_idle := deadline; c_written := c_written cl;
     c_promise := c_promise cl |}.

Definition client_write (cl : client) : client :=
  {| c_host := c_host cl; c_port := c_port cl; c_buffer := c_buffer cl;
     c_connected := c_connected cl; c_destroyed := c_destroyed cl;
     c_idle := c_idle cl; c_written := c_written cl ++ [c_buffer cl];
     c_promise := c_promise cl |}.

Definition mark_connected (cl : client) : client :=
  {| c_host := c_host cl; c_port := c_port cl; c_buffer := c_buffer cl;
     c_connected := true; c_destroyed := c_destroyed cl;
     c_idle := c_idle cl; c_written := c_written cl;
     c_promise := c_promise cl |}.

(** The delay of a [setTimeout]: a delay below 1 or above 2147483647
    milliseconds is 1, and a fraction of a millisecond is dropped. *)
Definition timer_delay (ms : Q) : Z :=
  if Qle_bool 1 ms && Qle_bool ms 2147483647 then Qfloor ms else 1.

Definition COMMUNICATION_MESSAGE : string :=
  "Error communicating with device. Make sure nothing else is trying to control it or connected to it.".

Definition with_message (message : string) (e : js_error) : js_error :=
  {| e_name := e_name e; e_message := message; e_code := e_code e |}.

(** ** [_sendUnwrapped] (lines 142-206) *)

Section Transport.
Context `{L : Libraries}.

(** What the network does to a socket. *)
Inductive net_event : Type :=
| NetConnect
| NetData (b : Buffer)
| NetError (e : js_error).

(** The body of [_sendUnwrapped]: a new socket, [connect(6668, ip)] and
    the one-second idle timer; the result is the socket's index, which
    also names the promise that is returned. *)
Definition _sendUnwrapped (ip : option string) (buffer : Buffer) (w : world)
  : world * nat :=
  let cl := {| c_host := ip; c_port := 6668; c_buffer := buffer;
               c_connected := false; c_destroyed := false;
               c_idle := Some (now w + 1000); c_written := [];
               c_promise := Pending |} in
  (set_clients (clients w ++ [cl]) w, length (clients w)).

(** [client.on('error', ...)] (lines 194-200) *)
Definition on_error (c : nat) (err : js_error) (w : world) : world :=
  on_client c (reject (with_message COMMUNICATION_MESSAGE err)) w.

(** The callback of [client.setTimeout(1000, ...)] (lines 154-158) *)
Definition on_timeout (c : nat) (w : world) : world :=
  let w := on_error c (Error "connection timed out") w in
  on_client c destroy w.

(** The callback of the response timer (lines 170-173) *)
Definition on_sendTimeout (c : nat) (w : world) : world :=
  let w := on_client c destroy w in
  on_client c (reject (Error "Timeout waiting for response")) w.

(** [client.on('connect', ...)] (lines 161-174) *)
Definition on_connect (c : nat) (w : world) : world :=
  let w := on_client c (client_setTimeout None) w in
  let w := on_client c client_write w in
  let tm := {| tm_id := next_timer w;
               tm_deadline :=
                 now w + timer_delay (_responseTimeout (this w) * 1000)%Q;
               tm_client := c |} in
  {| this := {| device := device (this w);
                _responseTimeout := _responseTimeout (this w);
                _sendTimeout := Some (tm_id tm) |};
     now := now w;
     timers := timers w ++ [tm];
     next_timer := S (next_timer w);
     clients := clients w;
     uncaught := uncaught w |}.

(** [clearTimeout(handle)] *)
Definition clearTimeout (handle : option nat) (w : world) : world :=
  match handle with
  | Some h =>
      set_timers (filter (fun tm => tm_id tm ≠ h) (timers w)) w
  | None => w
  end.

(** [client.on('data', ...)] (lines 177-191); an exception of
    [Parser.parse] or of [decrypt] leaves the handler. *)
Definition on_data (c : nat) (bytes : Buffer) (w : world) : world :=
  let w := clearTimeout (_sendTimeout (this w)) w in
  let w := on_client c destroy w in
  match Parser_parse bytes with
  | Throw e => throw_uncaught e w
  | Return data =>
      if String.eqb (typeof data) "object"
         || String.eqb (typeof data) "undefined"
      then on_client c (resolve data) w
      else
        match decrypt (device_cipher (device (this w))) data with
        | Throw e => throw_uncaught e w
        | Return plain => on_client c (resolve plain) w
        end
  end.

(** A socket emits events while it is not destroyed, [connect] once and
    [data] after it; Node destroys a socket that reports an error. *)
Definition dispatch (c : nat) (ev : net_event) (w : world) : world :=
  match clients w !! c with
  | None => w
  | Some cl =>
      if c_destroyed cl then w
      else
        match ev with
        | NetConnect =>
            if c_connected cl then w
            else on_connect c (on_client c mark_connected w)
        | NetData bytes =>
            if c_connected cl then on_data c bytes w else w
        | NetError e =>
            on_client c destroy (on_error c e w)
        end
  end.

(** ** The event loop *)

Inductive firing : Type :=
| FireIdle (c : nat)
| FireSend (id : nat).

Definition idle_timers (w : world) : list (Z * firing) :=
  omap (fun '(c, cl) => (fun d => (d, FireIdle c)) <$> c_idle cl)
       (imap (fun c cl => (c, cl)) (clients w)).

Definition send_timers (w : world) : list (Z * firing) :=
  (fun tm => (tm_deadline tm, FireSend (tm_id tm))) <$> timers w.

(** The armed timers, earliest deadline first. *)
Definition armed (w : world) : list (Z * firing) :=
  sort_by fst (idle_timers w ++ send_timers w).

Definition advance (t : Z) (w : world) : world := set_now (Z.max (now w) t) w.

(** A timer fires if it is still armed when its turn comes, and is gone
    afterwards. [stop] ends the loop. *)
Definition fire (stop : world -> bool) (w : world) (df : Z * firing)
  : world :=
  if stop w then w
  else
    match df.2 with
    | FireIdle c =>
        match clients w !! c with
        | Some cl =>
            match c_idle cl with
            | Some _ =>
                on_timeout c
                  (on_client c (client_setTimeout None) (advance df.1 w))
            | None => w
            end
        | None => w
        end
    | FireSend id =>
        match find (fun tm => bool_decide (tm_id tm = id)) (timers w) with
        | Some tm =>
            on_sendTimeout (tm_client tm)
              (clearTimeout (Some id) (advance df.1 w))
        | None => w
        end
    end.

Definition fire_due (stop : world -> bool) (t : Z) (w : world) : world :=
  foldl (fire stop) w (filter (fun df => (df.1 <= t)%Z) (armed w)).

Definition fire_all (stop : world -> bool) (w : world) : world :=
  foldl (fire stop) w (armed w).

(** What happens to the session: a call of [_sendUnwrapped], or an event
    of a socket. *)
Inductive event : Type :=
| Call (ip : option string) (buffer : Buffer)
| Net (c : nat) (ev : net_event).

Definition handle (ev : event) (w : world) : world :=
  match ev with
  | Call ip buffer => (_sendUnwrapped ip buffer w).1
  | Net c e => dispatch c e w
  end.

(** The loop takes the events in order; before an event at time [t] the
    timers due by [t] fire, and when nothing more arrives the remaining
    timers fire. *)
Fixpoint drive (stop : world -> bool) (w : world) (evs : list (Z * event))
  : world :=
  match evs with
  | [] => fire_all stop w
  | (t, ev) :: rest =>
      let w1 := fire_due stop t w in
      if stop w1 then w1
      else drive stop (handle ev (advance t w1)) rest
  end.

Definition nostop : world -> bool := fun _ => false.

Definition run : world -> list (Z * event) -> world := drive nostop.

Definition promise_of (c : nat) (w : world) : promise :=
  match clients w !! c with
  | Some cl => c_promise cl
  | None => Pending
  end.

Definition settled (c : nat) (w : world) : bool :=
  match promise_of c w with
  | Pending => false
  | _ => true
  end.

End Transport.

#[global] Instance firing_eq_dec : EqDecision firing.
Proof. solve_decision. Defined.

(** ** [_send], [get] and [set] *)

Section Session.
Context `{L : Libraries}.

(** What the network does to the socket of one attempt, with times in
    milliseconds after the attempt starts. *)
Definition scenario : Type := list (Z * net_event).

Definition attempt_events (c : nat) (start : Z) (sc : scenario)
  : list (Z * event) :=
  map (fun '(dt, e) => (start + dt, Net c e)) sc.

Record attempt : Type := {
  a_number : nat;            (* [currentAttempt] *)
  a_start : Z;
  a_client : nat;
  a_result : promise;        (* the promise of [_sendUnwrapped] *)
  a_end : Z
}.

(** A call of [_send]: what it throws or the promise it returns, the
    attempts it made, the waits between them and the world it leaves. *)
Record send_run : Type := {
  s_outcome : completion promise;
  s_attempts : list attempt;
  s_waits : list Z;
  s_world : world
}.

Definition and_then (a : attempt) (wait : list Z) (r : send_run) : send_run :=
  {| s_outcome := s_outcome r;
     s_attempts := a :: s_attempts r;
     s_waits := wait ++ s_waits r;
     s_world := s_world r |}.

(** One call of the function given to [operation.attempt], at time
    [start]: the timers due by then have fired, [_sendUnwrapped] opens a
    socket, and the loop runs until the promise of that call settles. *)
Definition start_attempt (ip : option string) (buffer : Buffer) (start : Z)
    (w : world) : world * nat :=
  _sendUnwrapped ip buffer (advance start (fire_due nostop start w)).

Definition run_attempt (ip : option string) (buffer : Buffer) (start : Z)
    (sc : scenario) (w : world) : world * nat :=
  let '(w1, c) := start_attempt ip buffer start w in
  (drive (settled c) w1 (attempt_events c (now w1) sc), c).

(** The function given to [operation.attempt] (lines 126-138), called at
    time [start], with the calls that follow it. [timeouts] and [errors]
    are the operation's [_timeouts] and [_errors]: [operation.retry(error)]
    answers [false] for [null]; otherwise it records the error and takes
    the next wait, after which the function is called again, or answers
    [false] when no wait is left. On [false] the promise of [_send] is
    rejected with [operation.mainError()]. *)
Fixpoint attempt_loop (ip : option string) (buffer : Buffer)
    (timeouts : list Z) (errors : list js_error) (currentAttempt : nat)
    (start : Z) (scs : list scenario) (w : world) : send_run :=
  let '(w2, c) := run_attempt ip buffer start (hd [] scs) w in
  let a := {| a_number := currentAttempt;
              a_start := now (start_attempt ip buffer start w).1;
              a_client := c;
              a_result := promise_of c w2; a_end := now w2 |} in
  let done (p : promise) :=
    {| s_outcome := Return p; s_attempts := [a]; s_waits := [];
       s_world := w2 |} in
  match promise_of c w2 with
  | Pending => done Pending
  | Resolved result => done (Resolved result)
  | Rejected None => done (Rejected (retry.mainError errors))
  | Rejected (Some error) =>
      match timeouts with
      | [] => done (Rejected (retry.mainError (errors ++ [error])))
      | timeout :: rest =>
          and_then a [timeout]
            (attempt_loop ip buffer rest (errors ++ [error])
               (S currentAttempt) (now w2 + timer_delay (inject_Z timeout))
               (tl scs) w2)
      end
  end.

(** [_send(ip, buffer)] (lines 114-140) *)
Definition _send (ip : option string) (buffer : Buffer)
    (scs : list scenario) (w : world) : send_run :=
  match ip with
  | None =>
      {| s_outcome := Throw (TypeError "Device missing IP address.");
         s_attempts := []; s_waits := []; s_world := w |}
  | Some _ =>
      attempt_loop ip buffer (retry.timeouts send_retry_options) [] 1
        (now w) scs w
  end.

(** The promise that [get] and [set] build around [_send]: an exception
    in the executor rejects it, as does one in the [then] callback. *)
Definition wrap (r : send_run) (shape : value -> completion value)
  : promise :=
  match s_outcome r with
  | Throw e => Rejected (Some e)
  | Return Pending => Pending
  | Return (Rejected err) => Rejected err
  | Return (Resolved data) =>
      match shape data with
      | Return v => Resolved v
      | Throw e => Rejected (Some e)
      end
  end.

(** The request of [get] (lines 23-34): the payload goes to
    [Parser.encode] as an object. *)
Definition get_payload (dev : TuyaDevice) : value :=
  VObj [("gwId", device_id (device dev)); ("devId", device_id (device dev))].

Definition get_buffer (dev : TuyaDevice) : Buffer :=
  Parser_encode {| data := DataObject (get_payload dev);
                   commandByte := "0a" |}.

(** [get(options)] (lines 19-54) *)
(** The promise that [get] builds around [_send] (lines 36-53). *)
Definition wrap_query (r : send_run) (options : value) : query_promise :=
  match s_outcome r with
  | Throw e => Rejected (Some e)
  | Return Pending => Pending
  | Return (Rejected err) => Rejected err
  | Return (Resolved data) =>
      match shape options data with
      | Return (Value v) => Resolved v
      | Return (Inherited base k) => ResolvedInherited base k
      | Throw e => Rejected (Some e)
      end
  end.

Definition get (options : value) (scs : list scenario) (w : world)
  : query_promise * send_run :=
  let options := default_options options in
  let buffer := get_buffer (this w) in
  let r := _send (device_ip (device (this w))) buffer scs w in
  (wrap_query r options, r).

(** [parseInt(now.getTime() / 1000, 10).toString()]: [parseInt] keeps
    the digits before the decimal point, which truncates the quotient. *)
Definition timeStamp (ms : Z) : string := Z_toString (Z.quot ms 1000).

Definition set_payload (dev : TuyaDevice) (ms : Z) (dps : value) : value :=
  VObj [("devId", device_id (device dev)); ("uid", VStr EmptyString);
        ("t", VStr (timeStamp ms)); ("dps", dps)].

(** Lines 74-102 of [set]. *)
Definition set_buffer (dev : TuyaDevice) (ms : Z) (dps : value) : Buffer :=
  let cipher := device_cipher (device dev) in
  let data := encrypt cipher (JSON_stringify (set_payload dev ms dps)) in
  let md5 := md5 cipher
    ("data=" +:+ data +:+ "||lpv=" +:+ device_version (device dev)
     +:+ "||" +:+ device_key (device dev)) in
  let thisData := Buffer_from (device_version (device dev) +:+ md5 +:+ data) in
  Parser_encode {| data := DataBuffer thisData; commandByte := "07" |}.

(** [set(options)] (lines 56-112): the exceptions of the first lines are
    thrown to the caller, the rest is a promise. *)
Definition set_request (options : value) (w : world) : completion Buffer :=
  dps ← set_dps options;
  Return (set_buffer (this w) (now w) dps).

Definition set (options : value) (scs : list scenario) (w : world)
  : completion (promise * send_run) :=
  buffer ← set_request options w;
  let r := _send (device_ip (device (this w))) buffer scs w in
  Return (wrap r (fun _ => Return (VBool true)), r).

End Session.

(** ** A device to run the definitions on *)

Definition quote : string := String (Ascii.ascii_of_nat 34) EmptyString.

(** A printer for the values of the examples: no escapes in strings, and
    a property whose value is undefined is left out. *)
Fixpoint demo_stringify (v : value) : string :=
  match v with
  | VUndefined => "undefined"
  | VNull => "null"
  | VBool b => ToString (VBool b)
  | VNum n => Z_toString n
  | VStr s => quote +:+ s +:+ quote
  | VObj props =>
      let fix members (sep : string) (ps : list (string * value)) : string :=
        match ps with
        | [] => EmptyString
        | (_, VUndefined) :: rest => members sep rest
        | (k, x) :: rest =>
            sep +:+ quote +:+ k +:+ quote +:+ ":" +:+ demo_stringify x
            +:+ members "," rest
        end in
      "{" +:+ members EmptyString props +:+ "}"
  end.

(** The names of the members of [Object.prototype], which every value
    but [undefined] and [null] inherits. *)
Definition Object_prototype : list string :=
  ["constructor"; "hasOwnProperty"; "isPrototypeOf"; "propertyIsEnumerable";
   "toLocaleString"; "toString"; "valueOf"; "__defineGetter__";
   "__defineSetter__"; "__lookupGetter__"; "__lookupSetter__"; "__proto__"].

Definition demo_libraries : Libraries := {|
  Parser_encode := fun o =>
    (Buffer_from (commandByte o) ++
     match data o with
     | DataObject v => Buffer_from (demo_stringify v)
     | DataBuffer b => b
     end)%list;
  Parser_parse := fun b =>
    match b with
    | [] => Throw (Error "Packet too small. Length: 0")
    | Byte.x31 :: _ => Return (VObj [("dps", VObj [("1", VBool true)])])
    | Byte.x32 :: _ =>
        Return (VObj [("dps", VObj [("1", VBool true); ("2", VNum 5)])])
    | Byte.x33 :: _ => Return (VObj [("dps", VObj [("2", VNum 5)])])
    | _ => Return (VStr "3.1a1b2c3d4e5f6a7b8cQ2lwaGVydGV4dA==")
    end;
  JSON_stringify := demo_stringify;
  inherits := fun _ k => existsb (String.eqb k) Object_prototype
|}.

Definition demo_cipher : TuyaCipher := {|
  encrypt := fun s => "enc(" +:+ s +:+ ")";
  md5 := fun s => "md5(" +:+ s +:+ ")";
  decrypt := fun _ => Throw (Error "Decrypt failed")
|}.

Definition demo_device (ip : option string) (responseTimeout : Q)
  : TuyaDevice := {|
  device := {| device_id := VStr "01200885"; device_key := "0123456789abcdef";
               device_ip := ip; device_version := "3.1";
               device_cipher := demo_cipher |};
  _responseTimeout := responseTimeout;
  _sendTimeout := None
|}.

(** A session at rest: no socket yet, no timer armed. *)
Definition idle_world (dev : TuyaDevice) (t : Z) : world := {|
  this := dev; now := t; timers := []; next_timer := 0;
  clients := []; uncaught := []
|}.

Definition ECONNREFUSED : js_error :=
  mkError "Error" "connect ECONNREFUSED 192.168.1.20:6668" "ECONNREFUSED".


(** A reply whose first byte tells [demo_libraries] what it decodes to, and
    an attempt that connects after 5 ms and receives it 4 ms later. *)
Definition reply (b : Byte.byte) : Buffer := [b; Byte.x7d].

Definition replied (bytes : Buffer) : scenario :=
  [(5, NetConnect); (9, NetData bytes)].

Definition demo_world : world :=
  idle_world (demo_device (Some "192.168.1.20") 5) 1700000000000.


(** What the options of [get] ask for, once defaulted. *)
Definition requests_schema (options : value) : bool :=
  match get_prop (default_options options) "schema" with
  | Return v => is_true v
  | Throw _ => false
  end.

Definition requested_key (options : value) : option string :=
  match get_prop (default_options options) "dps" with
  | Return v => if truthy v then Some (ToString v) else None
  | Throw _ => None
  end.

(** ** Notions the properties are stated with *)

(** The handles of the armed timers are below the next handle and their
    sockets exist. *)
Definition well_formed (w : world) : Prop :=
  Forall (fun tm => (tm_id tm < next_timer w)%nat
                    /\ (tm_client tm < length (clients w))%nat) (timers w).

(** The state of socket [c] and of its promise. *)
Definition client_state (c : nat) (w : world) (connected destroyed : bool)
    (idle : option Z) (p : promise) : Prop :=
  exists cl, clients w !! c = Some cl /\ c_connected cl = connected
             /\ c_destroyed cl = destroyed /\ c_idle cl = idle
             /\ c_promise cl = p.

(** Socket [c] is connecting: its idle timer is armed for [D], no response
    timer is its own yet. *)
Definition connecting (c : nat) (D : Z) (w : world) : Prop :=
  client_state c w false false (Some D) Pending
  /\ forall tm, tm ∈ timers w ->
       tm_client tm <> c /\ (tm_id tm < next_timer w)%nat.

(** Socket [c] has connected and awaits the reply: its response timer has
    handle [k] and deadline [D], and [_sendTimeout] holds that handle. *)
Definition awaiting (c k : nat) (D : Z) (w : world) : Prop :=
  client_state c w true false None Pending
  /\ _sendTimeout (this w) = Some k
  /\ (exists tm, tm ∈ timers w /\ tm_id tm = k)
  /\ forall tm, tm ∈ timers w ->
       if decide (tm_id tm = k)
       then tm_deadline tm = D /\ tm_client tm = c
       else tm_client tm <> c.

(** Socket [c] is destroyed, its promise is pending and no timer is left
    that would settle it. *)
Definition abandoned (c : nat) (w : world) : Prop :=
  client_state c w true true None Pending
  /\ forall tm, tm ∈ timers w -> tm_client tm <> c.

(** Socket [c] was opened to [ip], port 6668, for the frame [buffer], and
    nothing but that frame was written to it. *)
Definition carries (c : nat) (ip : option string) (buffer : Buffer)
    (w : world) : Prop :=
  exists cl, clients w !! c = Some cl /\ c_host cl = ip /\ c_port cl = 6668%Z
             /\ c_buffer cl = buffer /\ Forall (eq buffer) (c_written cl).

(** A step of a socket that keeps its address and its frame. *)
Definition static (f : client -> client) : Prop :=
  forall cl, c_host (f cl) = c_host cl /\ c_port (f cl) = c_port cl
             /\ c_buffer (f cl) = c_buffer cl
             /\ (Forall (eq (c_buffer cl)) (c_written cl) ->
                 Forall (eq (c_buffer cl)) (c_written (f cl))).

(** What of the session is the same in [w'] as in [w]: the device and the
    response timeout; and a handle in [_sendTimeout] is not removed. *)
Definition same_session (w w' : world) : Prop :=
  device (this w') = device (this w)
  /\ _responseTimeout (this w') = _responseTimeout (this w)
  /\ (_sendTimeout (this w) <> None -> _sendTimeout (this w') <> None).

(** What the data handler does when decoding fails: an exception of
    [Parser.parse], or of [decrypt] on a reply that is neither an object
    nor undefined. *)
Definition decode_fails `{L : Libraries} (dev : TuyaDevice) (bytes : Buffer)
    (e : js_error) : Prop :=
  Parser_parse bytes = Throw e
  \/ exists data, Parser_parse bytes = Return data
       /\ typeof data <> "object" /\ typeof data <> "undefined"
       /\ decrypt (device_cipher (device dev)) data = Throw e.

(** A session whose response timeout, half a second, is shorter than the
    connect timeout. *)
Definition hasty_world : world :=
  idle_world (demo_device (Some "192.168.1.20") (1 # 2)) 1700000000000.

(** The rejection of the [error] handler: what a socket error and a
    connect timeout end in. *)
Definition is_connection_failure (p : promise) : bool :=
  match p with
  | Rejected (Some e) => String.eqb (e_message e) COMMUNICATION_MESSAGE
  | _ => false
  end.

(** The time from the end of each attempt to the start of the next. *)
Fixpoint waits_between (l : list attempt) : list Z :=
  match l with
  | a :: rest =>
      match rest with
      | a' :: _ => (a_start a' - a_end a)%Z :: waits_between rest
      | [] => []
      end
  | [] => []
  end.

(** ** The compound verbs (lines 208-286) *)

(** [s.toLowerCase()] on the letters A to Z; the other characters are kept
    (no character outside these has a lower case among the letters of
    "on" and "off", which is all that [onoff] compares with). *)
Definition ascii_toLowerCase (a : Ascii.ascii) : Ascii.ascii :=
  let n := Ascii.nat_of_ascii a in
  if ((65 <=? n) && (n <=? 90))%nat then Ascii.ascii_of_nat (n + 32) else a.

Fixpoint toLowerCase (s : string) : string :=
  match s with
  | EmptyString => EmptyString
  | String a rest => String (ascii_toLowerCase a) (toLowerCase rest)
  end.

(** [v.toLowerCase()] *)
Definition call_toLowerCase (v : value) : completion string :=
  match v with
  | VUndefined =>
      Throw (TypeError "Cannot read property 'toLowerCase' of undefined")
  | VNull => Throw (TypeError "Cannot read property 'toLowerCase' of null")
  | VStr s => Return (toLowerCase s)
  | _ => Throw (TypeError "newStatus.toLowerCase is not a function")
  end.

(** [resolveId] of tuyapi and the converter of [./tuya-color] are not
    part of the file: they are an interface here. [resolveId] answers what
    becomes of its promise: it is never settled ([None]), or it is
    resolved or rejected after some milliseconds, the device being
    updated when it resolves. [TuyaColor_setColor] is
    [new TuyaColor(tuya).setColor(hexColor)]. *)
Class Collaborators : Type := {
  resolveId : TuyaDevice -> option (Z * completion Device);
  TuyaColor_setColor : TuyaDevice -> value -> completion value
}.

(** What a verb has done when all is quiet: the arguments of the calls of
    the callback, the reasons of the rejections that nothing handles, the
    calls of [_send] with their frames, and the world. *)
Record verb_run : Type := {
  v_calls : list value;
  v_unhandled : list (option js_error);
  v_sends : list (Buffer * send_run);
  v_world : world
}.

Definition quiet (w : world) : verb_run :=
  {| v_calls := []; v_unhandled := []; v_sends := []; v_world := w |}.

Definition unhandled (reason : option js_error) (w : world) : verb_run :=
  {| v_calls := []; v_unhandled := [reason]; v_sends := []; v_world := w |}.

Definition called (status : value) (w : world) : verb_run :=
  {| v_calls := [status]; v_unhandled := []; v_sends := []; v_world := w |}.

Definition after_send (frame : Buffer) (r : send_run) (v : verb_run)
  : verb_run :=
  {| v_calls := v_calls v; v_unhandled := v_unhandled v;
     v_sends := (frame, r) :: v_sends v; v_world := v_world v |}.

(** An exception in a [then] callback rejects the promise of the [then],
    which nothing handles. *)
Definition in_then (w : world) (c : completion verb_run) : verb_run :=
  match c with
  | Return v => v
  | Throw e => unhandled (Some e) w
  end.

Definition set_device (dev : Device) (w : world) : world :=
  {| this := {| device := dev;
                _responseTimeout := _responseTimeout (this w);
                _sendTimeout := _sendTimeout (this w) |};
     now := now w; timers := timers w; next_timer := next_timer w;
     clients := clients w; uncaught := uncaught w |}.

Section Verbs.
Context `{L : Libraries} `{C : Collaborators}.

(** [tuya.get().then(k)], with no [catch]. A query without options reads
    no key (line 41), so it is never resolved with an inherited member:
    the last case does not arise. *)
Definition then_get (scs : list scenario) (w : world)
    (k : value -> world -> verb_run) : verb_run :=
  let q := get VUndefined scs w in
  after_send (get_buffer (this w)) q.2
    match q.1 with
    | Settles (Resolved status) => k status (s_world q.2)
    | Settles (Rejected reason) => unhandled reason (s_world q.2)
    | Settles Pending => quiet (s_world q.2)
    | ResolvedInherited _ _ => quiet (s_world q.2)
    end.

(** [tuya.resolveId().then(k)], with no [catch]. *)
Definition then_resolveId (w : world) (k : world -> verb_run) : verb_run :=
  match resolveId (this w) with
  | None => quiet w
  | Some (dt, Return dev) => k (set_device dev (advance (now w + dt) w))
  | Some (dt, Throw e) => unhandled (Some e) (advance (now w + dt) w)
  end.

(** [callback.call(this, status)] *)
Definition call_callback (callback : bool) (status : value) (w : world)
  : verb_run :=
  if callback then called status w
  else unhandled (Some (TypeError "Cannot read property 'call' of undefined")) w.

(** [getDevice()] (lines 15-17) *)
Definition getDevice (w : world) : Device := device (this w).

(** [getStatus(callback)] (lines 208-214); [callback] tells whether a
    function was given. The argument of [debug] is built before the
    callback is called, and building it can throw. *)
Definition getStatus (callback : bool) (scs : list scenario) (w : world)
  : verb_run :=
  then_get scs w (fun status w' =>
    in_then w'
      (_ ← concat "Current Status: " status;
       Return (call_callback callback status w'))).

(** [setStatus(options, callback)] (lines 216-229): the exceptions of
    [set] are thrown to the caller. *)
Definition setStatus (options : value) (callback : bool)
    (scs_set scs_get : list scenario) (w : world) : completion verb_run :=
  frame ← set_request options w;
  q ← set options scs_set w;
  Return
    (after_send frame q.2
       match q.1 with
       | Resolved result =>
           then_get scs_get (s_world q.2) (fun status w' =>
             in_then w'
               (_ ← concat "New status: " status;
                Return (if callback then called status w' else quiet w')))
       | Rejected reason => unhandled reason (s_world q.2)
       | Pending => quiet (s_world q.2)
       end).

(** [toggle(callback)] (lines 231-240); [!status] is the negation of the
    truth of [status]. *)
Definition toggle (callback : bool) (scs1 scs2 scs3 : list scenario)
    (w : world) : verb_run :=
  then_resolveId w (fun w1 =>
    then_get scs1 w1 (fun status w2 =>
      in_then w2
        (setStatus (VObj [("set", VBool (negb (truthy status)))]) callback
           scs2 scs3 w2))).

(** [on(callback)] (lines 265-274) *)
Definition on (callback : bool) (scs1 scs2 scs3 : list scenario) (w : world)
  : verb_run :=
  then_resolveId w (fun w1 =>
    then_get scs1 w1 (fun status w2 =>
      in_then w2
        (setStatus (VObj [("set", VBool true)]) callback scs2 scs3 w2))).

(** [off(callback)] (lines 276-286) *)
Definition off (callback : bool) (scs1 scs2 scs3 : list scenario) (w : world)
  : verb_run :=
  then_resolveId w (fun w1 =>
    then_get scs1 w1 (fun status w2 =>
      in_then w2
        (setStatus (VObj [("set", VBool false)]) callback scs2 scs3 w2))).

(** [onoff(newStatus, callback)] (lines 242-251) *)
Definition onoff (newStatus : value) (callback : bool)
    (scs1 scs2 scs3 : list scenario) (w : world) : completion verb_run :=
  newStatus ← call_toLowerCase newStatus;
  if String.eqb newStatus "on" then Return (on callback scs1 scs2 scs3 w)
  else if String.eqb newStatus "off"
  then Return (off callback scs1 scs2 scs3 w)
  else Return (quiet w).

(** [setColor(hexColor, callback)] (lines 253-263): the converter runs
    first, and its exceptions are thrown to the caller. *)
Definition setColor (hexColor : value) (callback : bool)
    (scs1 scs2 scs3 : list scenario) (w : world) : completion verb_run :=
  dps ← TuyaColor_setColor (this w) hexColor;
  Return
    (then_resolveId w (fun w1 =>
       then_get scs1 w1 (fun status w2 =>
         in_then w2 (setStatus dps callback scs2 scs3 w2)))).

End Verbs.

(** Collaborators for the examples: the device is known already, and the
    converter answers the colour data point. *)
Definition demo_collaborators : Collaborators := {|
  resolveId := fun dev => Some (0%Z, Return (device dev));
  TuyaColor_setColor := fun _ hex => Return (VObj [("5", hex)])
|}.

(** ** The order that the handlers keep *)

(** A socket whose promise is settled is destroyed; the frame is written
    once, when the socket connects; the idle timer is armed only while the
    socket connects; the port is 6668. *)
Definition client_ok (cl : client) : Prop :=
  (c_promise cl <> Pending -> c_destroyed cl = true)
  /\ c_written cl = (if c_connected cl then [c_buffer cl] else [])
  /\ (c_connected cl = true -> c_idle cl = None)
  /\ (c_destroyed cl = true -> c_idle cl = None)
  /\ c_port cl = 6668%Z.

(** Every socket is in order, a response timer belongs to a socket that
    has connected, and no socket has two. *)
Definition orderly (w : world) : Prop :=
  Forall client_ok (clients w)
  /\ Forall (fun tm => exists cl, clients w !! tm_client tm = Some cl
                                  /\ c_connected cl = true)
            (timers w)
  /\ NoDup (tm_client <$> timers w).

(** Socket [c] has connected. *)
Definition connected (c : nat) (w : world) : Prop :=
  exists cl, clients w !! c = Some cl /\ c_connected cl = true.

(** A step of a socket that keeps it connected once it is. *)
Definition keeps_connected (f : client -> client) : Prop :=
  forall cl, c_connected cl = true -> c_connected (f cl) = true.

(** What the data handler resolves with: the object (or [undefined])
    that [Parser.parse] returns, or what [decrypt] makes of anything
    else. *)
Definition decodes `{L : Libraries} (dev : TuyaDevice) (bytes : Buffer)
    (data : value) : Prop :=
  (Parser_parse bytes = Return data
   /\ (typeof data = "object" \/ typeof data = "undefined"))
  \/ exists raw, Parser_parse bytes = Return raw
       /\ typeof raw <> "object" /\ typeof raw <> "undefined"
       /\ decrypt (device_cipher (device dev)) raw = Return data.

(** Libraries whose parser makes [data] of every reply. *)
Definition reply_libraries (data : value) : Libraries := {|
  Parser_encode := @Parser_encode demo_libraries;
  Parser_parse := fun _ => Return data;
  JSON_stringify := demo_stringify;
  inherits := @inherits demo_libraries
|}.

(** ** What the compound verbs do *)


(** The second send of a verb, if there is one, follows a query that
    resolved, and is the update of data point 1 to [b status], stamped
    with the time at which the query ended. *)
Definition switches `{L : Libraries} (b : value -> bool) (v : verb_run)
  : Prop :=
  forall f1 r1 f2 r2,
  v_sends v !! 0%nat = Some (f1, r1) ->
  v_sends v !! 1%nat = Some (f2, r2) ->
  exists status,
    wrap_query r1 (VObj []) = Resolved status
    /\ f2 = set_buffer (this (s_world r1)) (now (s_world r1))
              (VObj [("1", VBool (b status))]).

(** The attempts of all the sends of a verb. *)
Definition attempts_of (v : verb_run) : nat :=
  sum_list (map (fun fr => length (s_attempts fr.2)) (v_sends v)).

(** A verb that starts in [w] opens one socket for each attempt, and makes
    at most five attempts for each of its [n] sends. *)
Definition frugal (n : nat) (w : world) (v : verb_run) : Prop :=
  length (clients (v_world v)) = (length (clients w) + attempts_of v)%nat
  /\ (attempts_of v <= 5 * n)%nat.

(** The words that [onoff] takes for "on" and for "off". *)
Definition spellings_on : list string := ["on"; "On"; "oN"; "ON"].

Definition spellings_off : list string :=
  ["off"; "Off"; "oFf"; "ofF"; "OFf"; "OfF"; "oFF"; "OFF"].

Definition spelt (s : string) (l : list string) : bool :=
  existsb (String.eqb s) l.

(** * Properties *)

(** ** Shaping the reply of a query *)

Lemma default_options_defined (options : value) :
  ne_undefined (default_options options) = true.
Proof.
  unfold default_options. destruct (truthy options) eqn:E; [|done].
  by destruct options.
Qed.

Lemma get_prop_defined (v : value) (k : string) :
  ne_undefined v = true -> exists x, get_prop v k = Return x.
Proof. destruct v; simpl; intros; try discriminate; eauto. Qed.

Lemma get_resolved `{L : Libraries} (options : value) (scs : list scenario)
    (w : world) (data : value) :
  s_outcome (get options scs w).2 = Return (Resolved data) ->
  (get options scs w).1 =
    match shape (default_options options) data with
    | Return (Value v) => Resolved v
    | Return (Inherited base k) => ResolvedInherited base k
    | Throw e => Rejected (Some e)
    end.
Proof. unfold get, wrap_query; simpl. by intros ->. Qed.

Lemma shape_object `{L : Libraries} (opts data : value)
    (props : list (string * value)) :
  ne_undefined opts = true ->
  get_prop data "dps" = Return (VObj props) ->
  shape opts data =
    match get_prop opts "schema", get_prop opts "dps" with
    | Return schema, Return wanted =>
        if is_true schema then Return (Value data)
        else if truthy wanted
        then read_key (VObj props) wanted
        else
          match lookup_prop "1" props with
          | Some one => if ne_undefined one then Return (Value one)
                        else Return (Value (VObj props))
          | None => Return (Value (VObj props))
          end
    | _, _ => Return (Value data)
    end.
Proof.
  intros Hd Hdps. unfold shape. rewrite Hdps. simpl.
  destruct (get_prop_defined opts "schema" Hd) as [schema ->].
  destruct (get_prop_defined opts "dps" Hd) as [wanted ->]. simpl.
  destruct (is_true schema); [done|].
  destruct (truthy wanted); [done|].
  by destruct (lookup_prop "1" props) as [one|]; simpl;
    [destruct (ne_undefined one)|].
Qed.

(** C1, as the code has it: when the reply decodes to an object whose
    [dps] is a map and the schema is not asked for, a query without a
    [dps] option resolves to the value at key "1" whenever that value is
    neither undefined nor null, whatever other keys the map has, and to the
    whole map when there is no such value; a query with a truthy option
    [dps = k] is rejected with the TypeError of the conversion when [k]
    does not convert to a property key; otherwise it resolves to the
    property that the map itself has under the key, if it has one, else to
    the member that the map inherits under the key, if the prototypes have
    one, else to [undefined]. *)
Theorem query_shaping `{L : Libraries} (options : value)
    (scs : list scenario) (w : world) (data : value)
    (props : list (string * value)) :
  s_outcome (get options scs w).2 = Return (Resolved data) ->
  get_prop data "dps" = Return (VObj props) ->
  requests_schema options = false ->
  (forall one, requested_key options = None ->
     lookup_prop "1" props = Some one -> ne_undefined one = true ->
     (get options scs w).1 = Resolved one)
  /\ (requested_key options = None ->
      (forall one, lookup_prop "1" props = Some one ->
                   ne_undefined one = false) ->
      (get options scs w).1 = Resolved (VObj props))
  /\ (forall wanted,
      get_prop (default_options options) "dps" = Return wanted ->
      truthy wanted = true ->
      match ToPropertyKey wanted with
      | Throw e => (get options scs w).1 = Rejected (Some e)
      | Return k =>
          match lookup_prop k props with
          | Some v => (get options scs w).1 = Resolved v
          | None =>
              (get options scs w).1
              = if inherits (VObj props) k
                then ResolvedInherited (VObj props) k
                else Resolved VUndefined
          end
      end).
Proof.
  intros Hsend Hdps Hschema.
  rewrite (get_resolved _ _ _ _ Hsend).
  rewrite (shape_object _ _ _ (default_options_defined options) Hdps).
  unfold requests_schema, requested_key in *.
  destruct (get_prop_defined (default_options options) "schema"
              (default_options_defined options)) as [schema Es].
  destruct (get_prop_defined (default_options options) "dps"
              (default_options_defined options)) as [wanted Ew].
  rewrite Es in *. rewrite Ew in *. rewrite Hschema.
  repeat split.
  - intros one Hk H1 Hone. destruct (truthy wanted); [done|].
    by rewrite H1, Hone.
  - intros Hk Hnone. destruct (truthy wanted); [done|].
    destruct (lookup_prop "1" props) as [one|] eqn:E; [|done].
    by rewrite (Hnone one eq_refl).
  - intros wanted' [= <-] Ht. rewrite Ht. unfold read_key.
    destruct (ToPropertyKey wanted) as [k|e]; simpl; [|done].
    destruct (lookup_prop k props) as [v|]; [done|].
    by destruct (inherits (VObj props) k).
Qed.

Lemma query_shaping_witness :
  (@get demo_libraries VUndefined [replied (reply Byte.x31)] demo_world).1
  = Resolved (VBool true)
  /\ (@get demo_libraries VUndefined [replied (reply Byte.x33)] demo_world).1
     = Resolved (VObj [("2", VNum 5)])
  /\ (@get demo_libraries (VObj [("dps", VStr "2")])
        [replied (reply Byte.x32)] demo_world).1
     = Resolved (VNum 5)
  /\ (@get demo_libraries (VObj [("dps", VStr "constructor")])
        [replied (reply Byte.x32)] demo_world).1
     = ResolvedInherited (VObj [("1", VBool true); ("2", VNum 5)])
         "constructor"
  /\ (@get demo_libraries (VObj [("dps", VObj [("toString", VNum 1)])])
        [replied (reply Byte.x32)] demo_world).1
     = Rejected (Some (TypeError "Cannot convert object to primitive value")).
Proof.
  split; [|split; [|split; [|split]]].
  - refine (proj1 (query_shaping (L := demo_libraries) VUndefined _ _
              (VObj [("dps", VObj [("1", VBool true)])])
              [("1", VBool true)] _ _ _) (VBool true) _ _ _);
      vm_compute; reflexivity.
  - refine (proj1 (proj2 (query_shaping (L := demo_libraries) VUndefined _ _
              (VObj [("dps", VObj [("2", VNum 5)])])
              [("2", VNum 5)] _ _ _)) _ _);
      [vm_compute; reflexivity ..|].
    intros one H. vm_compute in H. discriminate H.
  - refine (proj2 (proj2 (query_shaping (L := demo_libraries)
              (VObj [("dps", VStr "2")]) _ _
              (VObj [("dps", VObj [("1", VBool true); ("2", VNum 5)])])
              [("1", VBool true); ("2", VNum 5)] _ _ _)) (VStr "2") _ _);
      vm_compute; reflexivity.
  - refine (proj2 (proj2 (query_shaping (L := demo_libraries)
              (VObj [("dps", VStr "constructor")]) _ _
              (VObj [("dps", VObj [("1", VBool true); ("2", VNum 5)])])
              [("1", VBool true); ("2", VNum 5)] _ _ _))
              (VStr "constructor") _ _);
      vm_compute; reflexivity.
  - refine (proj2 (proj2 (query_shaping (L := demo_libraries)
              (VObj [("dps", VObj [("toString", VNum 1)])]) _ _
              (VObj [("dps", VObj [("1", VBool true); ("2", VNum 5)])])
              [("1", VBool true); ("2", VNum 5)] _ _ _))
              (VObj [("toString", VNum 1)]) _ _);
      vm_compute; reflexivity.
Defined.

(** C1, as stated, fails: the reply [{"1": true, "2": 5}] has more than one
    key, and the query without options resolves to [true], not to the
    map. *)
Lemma query_two_keys_resolves_to_value :
  let dps := VObj [("1", VBool true); ("2", VNum 5)] in
  let q := @get demo_libraries VUndefined [replied (reply Byte.x32)]
             demo_world in
  s_outcome q.2 = Return (Resolved (VObj [("dps", dps)]))
  /\ q.1 = Resolved (VBool true)
  /\ q.1 <> Resolved dps.
Proof. vm_compute. repeat split; discriminate. Qed.

(** ** The requests of [get] and [set] *)

Lemma Object_keys_defined (v : value) :
  ne_undefined v = true -> exists ks, Object_keys v = Return ks.
Proof. destruct v; simpl; intros; try discriminate; eauto. Qed.

Lemma set_dps_defined (options d s : value) :
  ne_undefined options = true ->
  get_prop options "dps" = Return d ->
  get_prop options "set" = Return s ->
  set_dps options =
    if ne_undefined d || ne_undefined s
    then if is_undefined d then Return (VObj [("1", s)])
         else k ← call_toString d; Return (VObj [(k, s)])
    else Return options.
Proof.
  intros Ho Hd Hs. unfold set_dps.
  destruct (Object_keys_defined options Ho) as [ks ->].
  by rewrite Hd, Hs.
Qed.

Lemma set_request_dps `{L : Libraries} (options dps : value) (w : world) :
  set_dps options = Return dps ->
  set_request options w = Return (set_buffer (this w) (now w) dps).
Proof. unfold set_request. by intros ->. Qed.

(** C9, as the code has it: an options object whose [dps] is defined
    ([k], neither undefined nor null) yields the property map
    [{k.toString(): set}]; one without [dps] and with a defined [set = v]
    yields [{"1": v}]; and an options object in which neither [dps] nor
    [set] is defined is used as it is, as the property map of the control
    payload. *)
Theorem update_property_map `{L : Libraries} (options : value) (w : world) :
  ne_undefined options = true ->
  (forall k v key,
     get_prop options "dps" = Return k ->
     get_prop options "set" = Return v ->
     ne_undefined k = true -> call_toString k = Return key ->
     set_dps options = Return (VObj [(key, v)])
     /\ set_request options w
        = Return (set_buffer (this w) (now w) (VObj [(key, v)])))
  /\ (forall v,
      get_prop options "dps" = Return VUndefined ->
      get_prop options "set" = Return v ->
      ne_undefined v = true ->
      set_dps options = Return (VObj [("1", v)])
      /\ set_request options w
         = Return (set_buffer (this w) (now w) (VObj [("1", v)])))
  /\ (forall d s,
      get_prop options "dps" = Return d ->
      get_prop options "set" = Return s ->
      ne_undefined d = false -> ne_undefined s = false ->
      set_dps options = Return options
      /\ set_request options w
         = Return (set_buffer (this w) (now w) options)).
Proof.
  intros Ho. repeat split.
  - rewrite (set_dps_defined _ _ _ Ho H H0), H1; simpl.
    destruct k; try discriminate; by rewrite H2.
  - apply set_request_dps.
    rewrite (set_dps_defined _ _ _ Ho H H0), H1; simpl.
    destruct k; try discriminate; by rewrite H2.
  - by rewrite (set_dps_defined _ _ _ Ho H H0), H1.
  - apply set_request_dps. by rewrite (set_dps_defined _ _ _ Ho H H0), H1.
  - by rewrite (set_dps_defined _ _ _ Ho H H0), H1, H2.
  - apply set_request_dps.
    by rewrite (set_dps_defined _ _ _ Ho H H0), H1, H2.
Qed.

Lemma update_property_map_witness :
  set_dps (VObj [("dps", VStr "2"); ("set", VNum 5)])
  = Return (VObj [("2", VNum 5)])
  /\ set_dps (VObj [("set", VBool true)]) = Return (VObj [("1", VBool true)])
  /\ set_dps (VObj [("1", VBool false); ("2", VNum 7)])
     = Return (VObj [("1", VBool false); ("2", VNum 7)]).
Proof.
  split; [|split].
  - refine (proj1 (proj1 (update_property_map (L := demo_libraries)
              (VObj [("dps", VStr "2"); ("set", VNum 5)]) demo_world _)
              (VStr "2") (VNum 5) "2" _ _ _ _)); reflexivity.
  - refine (proj1 (proj1 (proj2 (update_property_map (L := demo_libraries)
              (VObj [("set", VBool true)]) demo_world _))
              (VBool true) _ _ _)); reflexivity.
  - refine (proj1 (proj2 (proj2 (update_property_map (L := demo_libraries)
              (VObj [("1", VBool false); ("2", VNum 7)]) demo_world _))
              VUndefined VUndefined _ _ _ _)); reflexivity.
Defined.

(** C9, as stated, fails: [{dps: "3"}] is neither [{dps: k, set: v}] nor
    [{set: v}], and it is not used as it is; and [{set: null}], of the
    shape [{set: v}], does not yield [{"1": null}]. *)
Lemma update_dps_only_not_verbatim :
  let options := VObj [("dps", VStr "3")] in
  set_dps options = Return (VObj [("3", VUndefined)])
  /\ set_dps options <> Return options
  /\ @set_request demo_libraries options demo_world
     <> Return (@set_buffer demo_libraries (this demo_world)
                  (now demo_world) options)
  /\ set_dps (VObj [("set", VNull)]) = Return (VObj [("set", VNull)])
  /\ set_dps (VObj [("set", VNull)]) <> Return (VObj [("1", VNull)]).
Proof. vm_compute. repeat split; discriminate. Qed.





Lemma Buffer_from_app (a b : string) :
  Buffer_from (a +:+ b) = (Buffer_from a ++ Buffer_from b)%list.
Proof.
  unfold Buffer_from, String.list_byte_of_string.
  induction a as [|c a IH]; simpl; [done|]. by rewrite IH.
Qed.

(** ** The event loop: what the handlers leave alone *)

Lemma elem_of_insert_by {A : Type} (key : A -> Z) (x y : A) (l : list A) :
  y ∈ insert_by key x l <-> y = x \/ y ∈ l.
Proof.
  induction l as [|z l IH]; simpl.
  - rewrite list_elem_of_singleton, elem_of_nil. tauto.
  - destruct (key x <=? key z)%Z.
    + rewrite !elem_of_cons. tauto.
    + rewrite !elem_of_cons, IH. tauto.
Qed.

Lemma elem_of_sort_by {A : Type} (key : A -> Z) (y : A) (l : list A) :
  y ∈ sort_by key l <-> y ∈ l.
Proof.
  unfold sort_by. induction l as [|x l IH]; simpl; [done|].
  rewrite elem_of_insert_by, elem_of_cons, IH. tauto.
Qed.

Section Loop.
Context `{L : Libraries}.
Implicit Types (w : world) (c : nat) (stop : world -> bool).

Lemma elem_of_idle_timers w d f :
  (d, f) ∈ idle_timers w <->
  exists c cl, f = FireIdle c /\ clients w !! c = Some cl
               /\ c_idle cl = Some d.
Proof.
  unfold idle_timers. rewrite list_elem_of_omap. split.
  - intros ([c cl] & Hin & Hf).
    apply elem_of_lookup_imap in Hin as (i & x & [= -> ->] & Hl).
    destruct (c_idle x) as [d'|] eqn:E; simpl in Hf; [|done].
    injection Hf as <- <-. eauto.
  - intros (c & cl & -> & Hl & Hi). exists (c, cl). split.
    + apply elem_of_lookup_imap. eauto.
    + by rewrite Hi.
Qed.

Lemma elem_of_send_timers w d f :
  (d, f) ∈ send_timers w <->
  exists tm, tm ∈ timers w /\ f = FireSend (tm_id tm)
             /\ d = tm_deadline tm.
Proof.
  unfold send_timers. rewrite list_elem_of_fmap. split.
  - intros (tm & [= -> ->] & Hin). eauto.
  - intros (tm & Hin & -> & ->). eauto.
Qed.

Lemma elem_of_armed w df :
  df ∈ armed w <-> df ∈ idle_timers w \/ df ∈ send_timers w.
Proof. unfold armed. by rewrite elem_of_sort_by, elem_of_app. Qed.

Lemma fire_stopped stop w df : stop w = true -> fire stop w df = w.
Proof. unfold fire. by intros ->. Qed.

Lemma foldl_fire_stopped stop w l :
  stop w = true -> foldl (fire stop) w l = w.
Proof.
  intros Hs. induction l as [|df l IH]; simpl; [done|].
  by rewrite (fire_stopped _ _ _ Hs).
Qed.

Lemma drive_stopped stop w evs : stop w = true -> drive stop w evs = w.
Proof.
  intros Hs. destruct evs as [|[t ev] rest]; simpl.
  - by apply foldl_fire_stopped.
  - unfold fire_due. by rewrite (foldl_fire_stopped _ _ _ Hs), Hs.
Qed.

(** An invariant of the firings of a list is one of the fold. *)
Lemma foldl_fire_ind (P : world -> Prop) (Q : Z * firing -> Prop) stop l w :
  (forall w df, Q df -> P w -> P (fire stop w df)) ->
  Forall Q l -> P w -> P (foldl (fire stop) w l).
Proof.
  intros Hstep Hl. revert w.
  induction Hl as [|df l Hdf Hl IH]; simpl; [done|].
  intros w Hw. apply IH. by apply Hstep.
Qed.

(** An invariant of every timer and of the events of a list is one of
    the loop. *)
Lemma drive_ind (P : world -> Prop) (Q : event -> Prop) stop evs w :
  (forall w df, P w -> P (fire stop w df)) ->
  (forall w t ev, Q ev -> P w -> P (handle ev (advance t w))) ->
  Forall (fun tev => Q tev.2) evs -> P w -> P (drive stop w evs).
Proof.
  intros Hfire Hev Hl. revert w.
  assert (Hfold : forall l w, P w -> P (foldl (fire stop) w l)).
  { intros l w. apply (foldl_fire_ind P (fun _ => True)); [auto|].
    by apply Forall_forall. }
  induction Hl as [|[t ev] rest Hq Hl IH]; simpl; intros w Hw.
  - by apply Hfold.
  - destruct (stop (fire_due stop t w)); [by apply Hfold|].
    apply IH, Hev; [done|]. by apply Hfold.
Qed.

End Loop.

Section Frames.
Context `{L : Libraries}.
Implicit Types (w : world) (c : nat) (stop : world -> bool).

Lemma fire_elim (P : world -> Prop) stop w d f :
  P w ->
  (forall c cl, f = FireIdle c -> stop w = false ->
     clients w !! c = Some cl -> is_Some (c_idle cl) ->
     P (on_timeout c (on_client c (client_setTimeout None) (advance d w)))) ->
  (forall tm, f = FireSend (tm_id tm) -> stop w = false -> tm ∈ timers w ->
     find (fun x => bool_decide (tm_id x = tm_id tm)) (timers w) = Some tm ->
     P (on_sendTimeout (tm_client tm)
          (clearTimeout (Some (tm_id tm)) (advance d w)))) ->
  P (fire stop w (d, f)).
Proof.
  intros H0 Hi Hs. unfold fire. destruct (stop w) eqn:Hstop; [done|]. simpl.
  destruct f as [c|id].
  - destruct (clients w !! c) as [cl|] eqn:Hc; [|done].
    destruct (c_idle cl) eqn:Hidle; [|done].
    eapply Hi; eauto.
  - destruct (find _ (timers w)) as [tm|] eqn:Hf; [|done].
    pose proof (find_some _ _ Hf) as [Hin Hid].
    apply bool_decide_eq_true in Hid. subst id.
    apply Hs; auto. by apply list_elem_of_In.
Qed.

(** A timer never writes a field of the session, throws nothing, opens
    no socket and arms no timer. *)
Lemma this_fire stop w df : this (fire stop w df) = this w.
Proof. destruct df as [d f]. by apply fire_elim. Qed.

Lemma uncaught_fire stop w df : uncaught (fire stop w df) = uncaught w.
Proof. destruct df as [d f]. by apply fire_elim. Qed.

Lemma next_timer_fire stop w df : next_timer (fire stop w df) = next_timer w.
Proof. destruct df as [d f]. by apply fire_elim. Qed.

Lemma length_clients_fire stop w df :
  length (clients (fire stop w df)) = length (clients w).
Proof.
  destruct df as [d f]. apply fire_elim; [done|..]; intros;
    unfold on_timeout, on_sendTimeout, on_error, on_client; simpl;
    by rewrite !length_alter.
Qed.

Lemma timers_fire stop w df tm :
  tm ∈ timers (fire stop w df) -> tm ∈ timers w.
Proof.
  destruct df as [d f]. apply fire_elim; [done|done|].
  intros tm' _ _ _ _. simpl. rewrite list_elem_of_filter. tauto.
Qed.

Lemma now_fire stop w d f :
  (now w <= now (fire stop w (d, f)) <= Z.max (now w) d)%Z.
Proof. apply fire_elim; simpl; intros; lia. Qed.

Lemma this_foldl_fire stop l w : this (foldl (fire stop) w l) = this w.
Proof.
  apply (foldl_fire_ind (fun w' => this w' = this w) (fun _ => True));
    [|by apply Forall_forall|done].
  intros w' df _. by rewrite this_fire.
Qed.

Lemma uncaught_foldl_fire stop l w :
  uncaught (foldl (fire stop) w l) = uncaught w.
Proof.
  apply (foldl_fire_ind (fun w' => uncaught w' = uncaught w)
           (fun _ => True)); [|by apply Forall_forall|done].
  intros w' df _. by rewrite uncaught_fire.
Qed.

Lemma next_timer_foldl_fire stop l w :
  next_timer (foldl (fire stop) w l) = next_timer w.
Proof.
  apply (foldl_fire_ind (fun w' => next_timer w' = next_timer w)
           (fun _ => True)); [|by apply Forall_forall|done].
  intros w' df _. by rewrite next_timer_fire.
Qed.

Lemma length_clients_foldl_fire stop l w :
  length (clients (foldl (fire stop) w l)) = length (clients w).
Proof.
  apply (foldl_fire_ind
           (fun w' => length (clients w') = length (clients w))
           (fun _ => True)); [|by apply Forall_forall|done].
  intros w' df _. by rewrite length_clients_fire.
Qed.

Lemma timers_foldl_fire stop l w tm :
  tm ∈ timers (foldl (fire stop) w l) -> tm ∈ timers w.
Proof.
  apply (foldl_fire_ind (fun w' => tm ∈ timers w' -> tm ∈ timers w)
           (fun _ => True)); [|by apply Forall_forall|done].
  intros w' df _ IH H. by apply IH, (timers_fire stop w' df).
Qed.

Lemma due_by (t : Z) w :
  Forall (fun df : Z * firing => (df.1 <= t)%Z)
         (filter (fun df : Z * firing => (df.1 <= t)%Z) (armed w)).
Proof. apply Forall_forall. intros df. rewrite list_elem_of_filter. tauto. Qed.

(** The clock at the end of [fire_due t]: the later of the clock at the
    beginning and [t] bounds it. *)
Lemma now_fire_due stop t w :
  (now w <= now (fire_due stop t w) <= Z.max (now w) t)%Z.
Proof.
  unfold fire_due.
  apply (foldl_fire_ind
           (fun w' => (now w <= now w' <= Z.max (now w) t)%Z)
           (fun df => (df.1 <= t)%Z)); [|apply due_by|lia].
  intros w' [d f] Hd Hw'. simpl in Hd.
  pose proof (now_fire stop w' d f). lia.
Qed.

Lemma this_on_data c bytes w : this (on_data c bytes w) = this w.
Proof. unfold on_data, clearTimeout. by repeat case_match. Qed.

Lemma this_handle (ev : event) t w :
  device (this (handle ev (advance t w))) = device (this w)
  /\ _responseTimeout (this (handle ev (advance t w)))
     = _responseTimeout (this w)
  /\ (_sendTimeout (this w) <> None ->
      _sendTimeout (this (handle ev (advance t w))) <> None).
Proof.
  destruct ev as [ip buffer|c e]; simpl; [done|].
  unfold dispatch. simpl.
  destruct (clients w !! c) as [cl|]; [|done].
  destruct (c_destroyed cl); [done|].
  destruct e as [|bytes|e]; simpl.
  - by destruct (c_connected cl).
  - destruct (c_connected cl); [|done]. by rewrite this_on_data.
  - done.
Qed.

End Frames.

(** ** One attempt, socket by socket *)

Section Attempt.
Context `{L : Libraries}.
Implicit Types (w : world) (c k : nat) (stop : world -> bool).

Lemma lookup_on_client c' f w c :
  c' <> c -> clients (on_client c' f w) !! c = clients w !! c.
Proof. intros. simpl. by apply list_lookup_alter_ne. Qed.

Lemma lookup_on_client_eq c f w :
  clients (on_client c f w) !! c = f <$> clients w !! c.
Proof. simpl. by apply list_lookup_alter_eq. Qed.

Lemma settled_rejected c w r :
  promise_of c w = Rejected r -> settled c w = true.
Proof. unfold settled. by intros ->. Qed.

Lemma find_timer (ts : list timer) k :
  (exists tm, tm ∈ ts /\ tm_id tm = k) ->
  exists tm, find (fun x => bool_decide (tm_id x = k)) ts = Some tm.
Proof.
  intros (tm & Hin & Hk).
  destruct (find _ ts) as [tm'|] eqn:E; [eauto|].
  apply list_elem_of_In in Hin.
  pose proof (find_none _ _ E _ Hin) as Hn. simpl in Hn.
  apply bool_decide_eq_false in Hn. done.
Qed.

(** A timer of another socket leaves socket [c] as it is. *)
Lemma fire_other stop w d f c :
  f <> FireIdle c ->
  (forall tm, tm ∈ timers w -> f = FireSend (tm_id tm) ->
              tm_client tm <> c) ->
  clients (fire stop w (d, f)) !! c = clients w !! c.
Proof.
  intros Hf Hs. apply fire_elim; [done|..].
  - intros c' cl -> _ _ _. assert (c' <> c) by congruence.
    unfold on_timeout, on_error. by rewrite !lookup_on_client.
  - intros tm -> _ Hin _. specialize (Hs tm Hin eq_refl).
    unfold on_sendTimeout. by rewrite !lookup_on_client.
Qed.

Lemma timers_fire_keep stop w d f tm :
  tm ∈ timers w -> f <> FireSend (tm_id tm) ->
  tm ∈ timers (fire stop w (d, f)).
Proof.
  intros Hin Hf. apply fire_elim; [done|done|].
  intros tm' -> _ _ _. simpl. apply list_elem_of_filter.
  split; [congruence|done].
Qed.

Lemma well_formed_fire stop w df :
  well_formed w -> well_formed (fire stop w df).
Proof.
  unfold well_formed. rewrite !Forall_forall. intros Hw tm Hin.
  rewrite next_timer_fire, length_clients_fire.
  by apply Hw, (timers_fire stop w df).
Qed.

Lemma well_formed_start start w :
  well_formed w -> well_formed (advance start (fire_due nostop start w)).
Proof.
  intros Hw. change (well_formed (fire_due nostop start w)). unfold fire_due.
  apply (foldl_fire_ind well_formed (fun _ => True));
    [|by apply Forall_forall|done].
  intros w' df _. apply well_formed_fire.
Qed.

(** [_sendUnwrapped] leaves a connecting socket. *)
Lemma connecting_sendUnwrapped ip buffer w :
  well_formed w ->
  connecting (_sendUnwrapped ip buffer w).2 (now w + 1000)
    (_sendUnwrapped ip buffer w).1.
Proof.
  intros Hw. split; simpl.
  - eexists. split; [by apply list_lookup_middle|done].
  - intros tm Hin. unfold well_formed in Hw.
    rewrite Forall_forall in Hw. destruct (Hw tm Hin). lia.
Qed.

Lemma connecting_fire stop w c D d f :
  f <> FireIdle c -> connecting c D w -> connecting c D (fire stop w (d, f)).
Proof.
  intros Hf [(cl & Hcl) Htm]. split.
  - exists cl. rewrite fire_other; [done..|].
    intros tm Hin _. by apply Htm.
  - intros tm Hin. rewrite next_timer_fire.
    by apply Htm, (timers_fire stop w (d, f)).
Qed.

Lemma connecting_idle w c D d :
  connecting c D w -> (d, FireIdle c) ∈ armed w <-> d = D.
Proof.
  intros [(cl & Hcl & _ & _ & Hidle & _) Htm].
  rewrite elem_of_armed, elem_of_idle_timers, elem_of_send_timers. split.
  - intros [(c' & cl' & [= <-] & Hcl' & Hi)|(tm & _ & [=] & _)]. congruence.
  - intros ->. left. eauto 6.
Qed.

Lemma connecting_pending w c D : connecting c D w -> settled c w = false.
Proof.
  intros [(cl & Hcl & _ & _ & _ & Hp) _].
  unfold settled, promise_of. by rewrite Hcl, Hp.
Qed.

(** While socket [c] connects, its idle timer settles the promise when
    its turn in a round of timers comes. *)
Lemma connecting_times_out c D l w :
  connecting c D w -> (exists d, (d, FireIdle c) ∈ l) ->
  promise_of c (foldl (fire (settled c)) w l)
  = Rejected (Some (with_message COMMUNICATION_MESSAGE
                      (Error "connection timed out"))).
Proof.
  revert w. induction l as [|[d f] l IH]; intros w Hc [d0 Hin].
  { by apply elem_of_nil in Hin. }
  simpl. destruct (decide (f = FireIdle c)) as [->|Hf].
  - assert (Hfire : promise_of c (fire (settled c) w (d, FireIdle c))
      = Rejected (Some (with_message COMMUNICATION_MESSAGE
                          (Error "connection timed out")))).
    { unfold fire. rewrite (connecting_pending _ _ _ Hc). simpl.
      destruct Hc as [(cl & Hcl & _ & _ & Hidle & Hp) _].
      rewrite Hcl, Hidle. unfold promise_of, on_timeout, on_error.
      rewrite !lookup_on_client_eq. simpl. rewrite Hcl. simpl.
      by rewrite Hp. }
    rewrite foldl_fire_stopped; [done|]. by apply (settled_rejected _ _ _ Hfire).
  - apply IH; [by apply connecting_fire|].
    apply elem_of_cons in Hin as [[= _ <-]|Hin]; [done|eauto].
Qed.

(** The connect handler arms the response timer and stores its handle. *)
Lemma awaiting_connect w c D t :
  connecting c D w ->
  awaiting c (next_timer w)
    (Z.max (now w) t + timer_delay (_responseTimeout (this w) * 1000)%Q)
    (handle (Net c NetConnect) (advance t w)).
Proof.
  intros [(cl & Hcl & Hconn & Hdes & Hidle & Hp) Htm].
  simpl. unfold dispatch. simpl. rewrite Hcl, Hdes, Hconn.
  split; [|split; [done|split]].
  - unfold on_connect. simpl. eexists. split.
    + simpl. rewrite !list_lookup_alter_eq, Hcl. simpl. done.
    + by simpl.
  - eexists. split; [apply elem_of_app; right; apply list_elem_of_singleton;
                     reflexivity|done].
  - simpl. intros tm [Hin| ->%list_elem_of_singleton]%elem_of_app.
    + destruct (Htm tm Hin). case_decide; [lia|done].
    + simpl. by case_decide.
Qed.

Lemma awaiting_pending w c k D : awaiting c k D w -> settled c w = false.
Proof.
  intros [(cl & Hcl & _ & _ & _ & Hp) _].
  unfold settled, promise_of. by rewrite Hcl, Hp.
Qed.

Lemma awaiting_fire stop w c k D d f :
  f <> FireSend k -> awaiting c k D w -> awaiting c k D (fire stop w (d, f)).
Proof.
  intros Hf [(cl & Hcl & Hrest) (Hthis & (tmk & Hink & Hk) & Htm)].
  destruct (decide (f = FireIdle c)) as [->|Hidle].
  { (* the idle timer of a connected socket is gone *)
    assert (fire stop w (d, FireIdle c) = w) as ->;
      [|split; [by exists cl|eauto]].
    unfold fire. destruct (stop w); [done|]. simpl. rewrite Hcl.
    by destruct Hrest as (_ & _ & -> & _). }
  split; [|split; [|split]].
  - exists cl. split; [|done]. rewrite <- Hcl. apply fire_other; [done|].
    intros tm Hin ->. specialize (Htm tm Hin).
    case_decide; [congruence|done].
  - by rewrite this_fire.
  - exists tmk. split; [|done]. apply timers_fire_keep; congruence.
  - intros tm Hin. by apply Htm, (timers_fire stop w (d, f)).
Qed.

End Attempt.

Section Phases.
Context `{L : Libraries}.
Implicit Types (w : world) (c k : nat) (stop : world -> bool).

Lemma connecting_fire_due stop w c D t :
  (t < D)%Z -> connecting c D w -> connecting c D (fire_due stop t w).
Proof.
  intros Ht Hc. unfold fire_due.
  apply (foldl_fire_ind (connecting c D) (fun df => df.2 <> FireIdle c));
    [| |done].
  - intros w' [d f] Hf. by apply connecting_fire.
  - apply Forall_forall. intros [d f] [Hd Hin]%list_elem_of_filter.
    simpl in *. intros ->. apply (connecting_idle _ _ _ _ Hc) in Hin. lia.
Qed.

Lemma awaiting_timer w c k D d :
  awaiting c k D w -> (d, FireSend k) ∈ armed w <-> d = D.
Proof.
  intros (_ & _ & (tmk & Hink & Hk) & Htm).
  rewrite elem_of_armed, elem_of_idle_timers, elem_of_send_timers. split.
  - intros [(c' & cl' & [=] & _)|(tm & Hin & [= Hid] & ->)].
    specialize (Htm tm Hin). rewrite decide_True in Htm by congruence.
    by destruct Htm.
  - intros ->. right. exists tmk. specialize (Htm tmk Hink).
    rewrite decide_True in Htm by done. destruct Htm as [<- _].
    by rewrite Hk.
Qed.

Lemma awaiting_fire_due stop w c k D t :
  (t < D)%Z -> awaiting c k D w -> awaiting c k D (fire_due stop t w).
Proof.
  intros Ht Ha. unfold fire_due.
  apply (foldl_fire_ind (awaiting c k D) (fun df => df.2 <> FireSend k));
    [| |done].
  - intros w' [d f] Hf. by apply awaiting_fire.
  - apply Forall_forall. intros [d f] [Hd Hin]%list_elem_of_filter.
    simpl in *. intros ->. apply (awaiting_timer _ _ _ _ _ Ha) in Hin. lia.
Qed.

(** While socket [c] awaits the reply, its response timer settles the
    promise when its turn in a round of timers comes. *)
Lemma awaiting_times_out c k D l w :
  awaiting c k D w -> (exists d, (d, FireSend k) ∈ l) ->
  promise_of c (foldl (fire (settled c)) w l)
  = Rejected (Some (Error "Timeout waiting for response")).
Proof.
  revert w. induction l as [|[d f] l IH]; intros w Ha [d0 Hin].
  { by apply elem_of_nil in Hin. }
  simpl. destruct (decide (f = FireSend k)) as [->|Hf].
  - assert (Hfire : promise_of c (fire (settled c) w (d, FireSend k))
      = Rejected (Some (Error "Timeout waiting for response"))).
    { unfold fire. rewrite (awaiting_pending _ _ _ _ Ha). simpl.
      destruct Ha as ((cl & Hcl & _ & _ & _ & Hp) & _ & Hk & Htm).
      destruct (find_timer _ _ Hk) as [tm Hfind]. rewrite Hfind.
      pose proof (find_some _ _ Hfind) as [Hin' Hid].
      apply bool_decide_eq_true in Hid. apply list_elem_of_In in Hin'.
      specialize (Htm tm Hin'). rewrite decide_True in Htm by done.
      destruct Htm as [_ ->]. unfold promise_of, on_sendTimeout.
      rewrite !lookup_on_client_eq. simpl. rewrite Hcl. simpl.
      by rewrite Hp. }
    rewrite foldl_fire_stopped; [done|]. by apply (settled_rejected _ _ _ Hfire).
  - apply IH; [by apply awaiting_fire|].
    apply elem_of_cons in Hin as [[= _ <-]|Hin]; [done|eauto].
Qed.

Lemma abandoned_fire stop w c df :
  abandoned c w -> abandoned c (fire stop w df).
Proof.
  intros [(cl & Hcl & Hrest) Htm]. destruct df as [d f].
  destruct (decide (f = FireIdle c)) as [->|Hidle].
  { assert (fire stop w (d, FireIdle c) = w) as ->;
      [|split; [by exists cl|eauto]].
    unfold fire. destruct (stop w); [done|]. simpl. rewrite Hcl.
    by destruct Hrest as (_ & _ & -> & _). }
  split.
  - exists cl. split; [|done]. rewrite <- Hcl. apply fire_other; [done|].
    intros tm Hin _. by apply Htm.
  - intros tm Hin. by apply Htm, (timers_fire stop w (d, f)).
Qed.

Lemma abandoned_handle w c t ev :
  abandoned c w ->
  handle (Net c ev) (advance t w) = advance t w
  /\ abandoned c (handle (Net c ev) (advance t w)).
Proof.
  intros [(cl & Hcl & Hconn & Hdes & Hrest) Htm].
  assert (handle (Net c ev) (advance t w) = advance t w) as ->.
  { simpl. unfold dispatch. simpl. by rewrite Hcl, Hdes. }
  split; [done|]. split; [by exists cl|done].
Qed.

Lemma abandoned_pending w c : abandoned c w -> promise_of c w = Pending.
Proof.
  intros [(cl & Hcl & _ & _ & _ & Hp) _]. unfold promise_of. by rewrite Hcl.
Qed.

(** An abandoned socket stays abandoned, and no exception is added. *)
Lemma abandoned_drive stop w c (sc : list (Z * net_event)) (start : Z) :
  abandoned c w ->
  abandoned c (drive stop w (attempt_events c start sc))
  /\ uncaught (drive stop w (attempt_events c start sc)) = uncaught w.
Proof.
  intros Ha.
  apply (drive_ind (fun w' => abandoned c w' /\ uncaught w' = uncaught w)
           (fun ev => exists e, ev = Net c e)); [| | |done].
  - intros w' df [Ha' Hu]. split; [by apply abandoned_fire|].
    by rewrite uncaught_fire.
  - intros w' t ev [e ->] [Ha' Hu].
    destruct (abandoned_handle w' c t e Ha') as [Heq Hab].
    split; [done|]. by rewrite Heq.
  - unfold attempt_events. apply Forall_forall.
    intros [t ev] Hin. apply list_elem_of_In, in_map_iff in Hin.
    destruct Hin as ([dt e] & [= _ <-] & _). simpl. eauto.
Qed.

Lemma abandoned_data w c k D t bytes e :
  awaiting c k D w -> decode_fails (this w) bytes e ->
  abandoned c (handle (Net c (NetData bytes)) (advance t w))
  /\ uncaught (handle (Net c (NetData bytes)) (advance t w))
     = uncaught w ++ [e].
Proof.
  intros ((cl & Hcl & Hconn & Hdes & Hidle & Hp) & Hthis & _ & Htm) Hfail.
  simpl. unfold dispatch. simpl. rewrite Hcl, Hdes, Hconn.
  assert (Hab : abandoned c
            (on_client c destroy
               (clearTimeout (_sendTimeout (this (advance t w)))
                  (advance t w)))).
  { simpl. rewrite Hthis. split.
    - exists (destroy cl). simpl. by rewrite list_lookup_alter_eq, Hcl.
    - simpl. intros tm [Hid Hin]%list_elem_of_filter.
      specialize (Htm tm Hin). by rewrite decide_False in Htm by done. }
  assert (Hun : uncaught (on_client c destroy
            (clearTimeout (_sendTimeout (this (advance t w))) (advance t w)))
          = uncaught w) by (simpl; by rewrite Hthis).
  assert (Hth : this (on_client c destroy
            (clearTimeout (_sendTimeout (this (advance t w))) (advance t w)))
          = this w) by (simpl; by rewrite Hthis).
  unfold on_data. revert Hab Hun Hth.
  generalize (on_client c destroy
    (clearTimeout (_sendTimeout (this (advance t w))) (advance t w))).
  intros w' [Hc' Ht'] Hun Hth.
  destruct Hfail as [->|(data & -> & Ho & Hu & Hd)].
  - split; [by split|]. simpl. by rewrite Hun.
  - apply String.eqb_neq in Ho, Hu. rewrite Ho, Hu, Hth, Hd. simpl.
    split; [by split|]. by rewrite Hun.
Qed.

End Phases.

Section Timeouts.
Context `{L : Libraries}.
Implicit Types (w : world) (c k : nat).

Lemma drive_awaiting_times_out w c k D (evs : list (Z * event)) :
  awaiting c k D w -> Forall (fun tev => (D <= tev.1)%Z) evs ->
  promise_of c (drive (settled c) w evs)
  = Rejected (Some (Error "Timeout waiting for response")).
Proof.
  intros Ha Hevs. destruct Hevs as [|[t ev] rest Ht _]; simpl.
  - apply (awaiting_times_out c k D); [done|].
    exists D. by apply (awaiting_timer _ _ _ _ _ Ha).
  - assert (Hp : promise_of c (fire_due (settled c) t w)
                 = Rejected (Some (Error "Timeout waiting for response"))).
    { apply (awaiting_times_out c k D); [done|]. exists D.
      apply list_elem_of_filter. split; [done|].
      by apply (awaiting_timer _ _ _ _ _ Ha). }
    by rewrite (settled_rejected _ _ _ Hp).
Qed.

Lemma drive_connecting_times_out w c D (evs : list (Z * event)) :
  connecting c D w -> Forall (fun tev => (D <= tev.1)%Z) evs ->
  promise_of c (drive (settled c) w evs)
  = Rejected (Some (with_message COMMUNICATION_MESSAGE
                      (Error "connection timed out"))).
Proof.
  intros Hc Hevs. destruct Hevs as [|[t ev] rest Ht _]; simpl.
  - apply (connecting_times_out c D); [done|].
    exists D. by apply (connecting_idle _ _ _ _ Hc).
  - assert (Hp : promise_of c (fire_due (settled c) t w)
                 = Rejected (Some (with_message COMMUNICATION_MESSAGE
                                     (Error "connection timed out")))).
    { apply (connecting_times_out c D); [done|]. exists D.
      apply list_elem_of_filter. split; [done|].
      by apply (connecting_idle _ _ _ _ Hc). }
    by rewrite (settled_rejected _ _ _ Hp).
Qed.

Lemma Forall_attempt_events (P : Z -> Prop) c (start : Z) (sc : scenario) :
  Forall (fun tev => P (start + tev.1)%Z) sc ->
  Forall (fun tev => P tev.1) (attempt_events c start sc).
Proof.
  unfold attempt_events. induction 1 as [|[dt e] sc H _ IH]; simpl;
    constructor; auto.
Qed.

Lemma run_attempt_eq ip buffer start (sc : scenario) w :
  run_attempt ip buffer start sc w
  = (drive (settled (start_attempt ip buffer start w).2)
       (start_attempt ip buffer start w).1
       (attempt_events (start_attempt ip buffer start w).2
          (now (start_attempt ip buffer start w).1) sc),
     (start_attempt ip buffer start w).2).
Proof. unfold run_attempt. by destruct (start_attempt ip buffer start w). Qed.

Lemma drive_cons stop w t ev (rest : list (Z * event)) :
  drive stop w ((t, ev) :: rest)
  = if stop (fire_due stop t w) then fire_due stop t w
    else drive stop (handle ev (advance t (fire_due stop t w))) rest.
Proof. done. Qed.

(** The world in which an attempt starts. *)
Lemma start_attempt_connecting ip buffer start w :
  well_formed w ->
  let w1 := (start_attempt ip buffer start w).1 in
  connecting (start_attempt ip buffer start w).2 (now w1 + 1000) w1
  /\ this w1 = this w /\ uncaught w1 = uncaught w.
Proof.
  intros Hw w1. subst w1. unfold start_attempt. split; [|split].
  - exact (connecting_sendUnwrapped ip buffer _ (well_formed_start start w Hw)).
  - simpl. unfold fire_due. apply this_foldl_fire.
  - simpl. unfold fire_due. apply uncaught_foldl_fire.
Qed.

(** The attempt after the socket has connected at [tc]. *)
Lemma run_attempt_connected ip buffer start w tc (rest : scenario) :
  well_formed w -> (0 <= tc < 1000)%Z ->
  let w1 := (start_attempt ip buffer start w).1 in
  let c := (start_attempt ip buffer start w).2 in
  exists k wB,
    awaiting c k
      (now w1 + tc + timer_delay (_responseTimeout (this w) * 1000)%Q) wB
    /\ uncaught wB = uncaught w /\ now wB = (now w1 + tc)%Z
    /\ device (this wB) = device (this w)
    /\ (run_attempt ip buffer start ((tc, NetConnect) :: rest) w).1
       = drive (settled c) wB (attempt_events c (now w1) rest)
    /\ (run_attempt ip buffer start ((tc, NetConnect) :: rest) w).2 = c.
Proof.
  intros Hw Htc w1 c.
  destruct (start_attempt_connecting ip buffer start w Hw)
    as (Hc & Hthis & Hun). fold w1 c in Hc, Hthis, Hun.
  assert (HA : connecting c (now w1 + 1000)
                 (fire_due (settled c) (now w1 + tc) w1))
    by (apply connecting_fire_due; [lia|done]).
  pose proof (now_fire_due (settled c) (now w1 + tc) w1) as Hnow.
  pose proof (awaiting_connect _ c _ (now w1 + tc) HA) as HB.
  set (wA := fire_due (settled c) (now w1 + tc) w1) in *.
  assert (HthisA : this wA = this w).
  { unfold wA, fire_due. by rewrite this_foldl_fire. }
  rewrite HthisA in HB.
  replace (Z.max (now wA) (now w1 + tc)) with (now w1 + tc)%Z in HB by lia.
  exists (next_timer wA), (handle (Net c NetConnect) (advance (now w1 + tc) wA)).
  split; [done|]. split; [|split; [|split; [|split]]].
  - destruct HA as [(cl & Hcl & Hconn & Hdes & _) _].
    simpl. unfold dispatch. simpl. rewrite Hcl, Hdes, Hconn. simpl.
    unfold wA, fire_due. by rewrite uncaught_foldl_fire.
  - clearbody w1 c. destruct HA as [(cl & Hcl & Hconn & Hdes & _) _].
    simpl. unfold dispatch. simpl. rewrite Hcl, Hdes, Hconn. simpl. lia.
  - destruct (this_handle (Net c NetConnect) (now w1 + tc) wA) as [-> _].
    by rewrite HthisA.
  - rewrite run_attempt_eq. fold w1 c.
    change (attempt_events c (now w1) ((tc, NetConnect) :: rest))
      with (((now w1 + tc)%Z, Net c NetConnect)
            :: attempt_events c (now w1) rest).
    cbn [fst]. rewrite drive_cons. fold wA.
    by rewrite (connecting_pending _ _ _ HA).
  - by rewrite run_attempt_eq.
Qed.

End Timeouts.

(** While the call is alone on the session (only the events of its own
    socket arrive): an attempt whose socket connects (before the one-second
    connect timeout) and on which nothing arrives before the response
    timeout has elapsed is rejected with the error of the response timer,
    "Timeout waiting for response", which is not the rejection of the
    error handler, whatever the response timeout is, shorter than the
    connect timeout or not; an attempt on which nothing happens during the
    first second is rejected by the error handler, with the message of
    every connection error. *)
Theorem timeout_isolation `{L : Libraries} (ip : option string)
    (buffer : Buffer) (start : Z) (w : world) (tc : Z) (rest sc : scenario) :
  well_formed w ->
  let delay := timer_delay (_responseTimeout (this w) * 1000)%Q in
  ((0 <= tc < 1000)%Z ->
   Forall (fun tev => (tc + delay <= tev.1)%Z) rest ->
   let r := run_attempt ip buffer start ((tc, NetConnect) :: rest) w in
   promise_of r.2 r.1
   = Rejected (Some (Error "Timeout waiting for response"))
   /\ is_connection_failure (promise_of r.2 r.1) = false)
  /\ (Forall (fun tev => (1000 <= tev.1)%Z) sc ->
      let r := run_attempt ip buffer start sc w in
      promise_of r.2 r.1
      = Rejected (Some (with_message COMMUNICATION_MESSAGE
                          (Error "connection timed out")))
      /\ is_connection_failure (promise_of r.2 r.1) = true).
Proof.
  intros Hw delay. split.
  - intros Htc Hrest r.
    destruct (run_attempt_connected ip buffer start w tc rest Hw Htc)
      as (k & wB & HB & _ & _ & _ & Hr1 & Hr2).
    assert (Hp : promise_of r.2 r.1
                 = Rejected (Some (Error "Timeout waiting for response"))).
    { unfold r. rewrite Hr1, Hr2.
      apply (drive_awaiting_times_out _ _ _ _ _ HB).
      apply (Forall_attempt_events (fun t => _ <= t)%Z).
      eapply Forall_impl; [exact Hrest|]. intros [t e]; simpl. fold delay. lia. }
    by rewrite Hp.
  - intros Hsc r.
    destruct (start_attempt_connecting ip buffer start w Hw) as (Hc & _ & _).
    assert (Hp : promise_of r.2 r.1
                 = Rejected (Some (with_message COMMUNICATION_MESSAGE
                                     (Error "connection timed out")))).
    { unfold r. rewrite run_attempt_eq. cbn [fst snd].
      apply (drive_connecting_times_out _ _ _ _ Hc).
      apply (Forall_attempt_events (fun t => _ <= t)%Z).
      eapply Forall_impl; [exact Hsc|]. intros [t e]; simpl. lia. }
    by rewrite Hp.
Qed.

Lemma timeout_isolation_witness :
  (let r := @run_attempt demo_libraries (Some "192.168.1.20") [] 1700000000000
              [(5, NetConnect); (900, NetData (reply Byte.x31))]%Z
              hasty_world in
   promise_of r.2 r.1
   = Rejected (Some (Error "Timeout waiting for response")))
  /\ (let r := @run_attempt demo_libraries (Some "192.168.1.20") []
                 1700000000000 [(1200, NetConnect)]%Z hasty_world in
      promise_of r.2 r.1
      = Rejected (Some (with_message COMMUNICATION_MESSAGE
                          (Error "connection timed out")))).
Proof.
  split.
  - refine (proj1 (proj1 (timeout_isolation (L := demo_libraries) _ _ _
              hasty_world 5 [(900, NetData (reply Byte.x31))]%Z [] _) _ _)).
    + constructor.
    + lia.
    + repeat constructor. vm_compute. discriminate.
  - refine (proj1 (proj2 (timeout_isolation (L := demo_libraries) _ _ _
              hasty_world 0 [] [(1200, NetConnect)]%Z _) _)).
    + constructor.
    + repeat constructor. vm_compute. discriminate.
Defined.

(** C4 fails on the code when two calls are in flight on the session.
    The handle of a response timer is kept in [this._sendTimeout] (line
    170), which every call writes, and the data handler clears the timer
    whose handle is there (line 181). Here two calls are made, socket 0
    connects, socket 1 connects, and the reply to socket 0 arrives: it
    clears the response timer of socket 1. Nothing ever arrives for socket
    1: its connect succeeded, no data came, and after every timer has had
    its turn its promise is still pending, the socket is open and neither
    of its timers is armed, so the attempt is never rejected with the
    error of the response timer, nor with any other. The same call alone
    on the session is rejected with "Timeout waiting for response". *)
Lemma silent_attempt_is_never_rejected :
  let ip := Some "192.168.1.20" in
  let t := 1700000000000%Z in
  let both := @run demo_libraries demo_world
                [(t, Call ip []); (t + 1, Call ip []);
                 (t + 5, Net 0 NetConnect); (t + 6, Net 1 NetConnect);
                 (t + 9, Net 0 (NetData (reply Byte.x31)))]%Z in
  let alone := @run demo_libraries demo_world
                 [(t + 1, Call ip []); (t + 6, Net 0 NetConnect)]%Z in
  (c_connected <$> clients both !! 1%nat) = Some true
  /\ (c_destroyed <$> clients both !! 1%nat) = Some false
  /\ promise_of 1 both = Pending
  /\ promise_of 1 both
     <> Rejected (Some (Error "Timeout waiting for response"))
  /\ @armed both = []
  /\ (5000 < now both - t)%Z
  /\ promise_of 0 alone
     = Rejected (Some (Error "Timeout waiting for response")).
Proof. vm_compute. repeat split; discriminate. Qed.

(** ** The retry loop *)

Section Retry.
Context `{L : Libraries}.
Implicit Types (w : world) (c k : nat).

Lemma attempt_loop_unfold ip buffer timeouts errors n start scs w :
  attempt_loop ip buffer timeouts errors n start scs w =
    let w2 := (run_attempt ip buffer start (hd [] scs) w).1 in
    let c := (run_attempt ip buffer start (hd [] scs) w).2 in
    let a := {| a_number := n;
                a_start := now (start_attempt ip buffer start w).1;
                a_client := c;
                a_result := promise_of c w2; a_end := now w2 |} in
    let done (p : promise) :=
      {| s_outcome := Return p; s_attempts := [a]; s_waits := [];
         s_world := w2 |} in
    match promise_of c w2 with
    | Pending => done Pending
    | Resolved result => done (Resolved result)
    | Rejected None => done (Rejected (retry.mainError errors))
    | Rejected (Some error) =>
        match timeouts with
        | [] => done (Rejected (retry.mainError (errors ++ [error])))
        | timeout :: rest =>
            and_then a [timeout]
              (attempt_loop ip buffer rest (errors ++ [error]) (S n)
                 (now w2 + timer_delay (inject_Z timeout)) (tl scs) w2)
        end
    end.
Proof.
  destruct timeouts; simpl;
    by destruct (run_attempt ip buffer start (hd [] scs) w).
Qed.

Lemma send_timeouts :
  retry.timeouts send_retry_options = [10000; 15000; 22500; 33750]%Z.
Proof. by vm_compute. Qed.

Lemma decode_fails_device (dev dev' : TuyaDevice) bytes e :
  device dev = device dev' -> decode_fails dev bytes e ->
  decode_fails dev' bytes e.
Proof. unfold decode_fails. by intros ->. Qed.

(** An attempt that connects and receives, before the response timer is
    due, bytes that fail to decode: the promise of the attempt is never
    settled. *)
Lemma run_attempt_decode_fails ip buffer start w tc td bytes e
    (rest : scenario) :
  well_formed w -> (0 <= tc < 1000)%Z ->
  (tc <= td < tc + timer_delay (_responseTimeout (this w) * 1000)%Q)%Z ->
  decode_fails (this w) bytes e ->
  let r := run_attempt ip buffer start
             ((tc, NetConnect) :: (td, NetData bytes) :: rest) w in
  abandoned r.2 r.1 /\ uncaught r.1 = uncaught w ++ [e].
Proof.
  intros Hw Htc Htd Hfail r.
  destruct (run_attempt_connected ip buffer start w tc
              ((td, NetData bytes) :: rest) Hw Htc)
    as (k & wB & HB & Hun & Hnow & Hdev & Hr1 & Hr2).
  unfold r. rewrite Hr1, Hr2. clear r Hr1 Hr2.
  set (c := (start_attempt ip buffer start w).2) in *.
  set (w1 := (start_attempt ip buffer start w).1) in *.
  change (attempt_events c (now w1) ((td, NetData bytes) :: rest))
    with (((now w1 + td)%Z, Net c (NetData bytes))
          :: attempt_events c (now w1) rest).
  rewrite drive_cons.
  assert (HB' : awaiting c k
            (now w1 + tc + timer_delay (_responseTimeout (this w) * 1000)%Q)
            (fire_due (settled c) (now w1 + td) wB))
    by (apply awaiting_fire_due; [lia|done]).
  rewrite (awaiting_pending _ _ _ _ HB').
  assert (Hdev' : device (this w)
                  = device (this (fire_due (settled c) (now w1 + td) wB))).
  { unfold fire_due. by rewrite this_foldl_fire. }
  destruct (abandoned_data _ c k _ (now w1 + td) bytes e HB'
              (decode_fails_device _ _ _ _ Hdev' Hfail)) as [Hab Hun'].
  destruct (abandoned_drive (settled c) _ c rest (now w1) Hab) as [Hab' ->].
  split; [done|]. rewrite Hun'. unfold fire_due.
  by rewrite uncaught_foldl_fire, Hun.
Qed.

End Retry.

(** While the call is alone on the session, on its first attempt: when
    the bytes that the attempt receives fail to decode or to decrypt, the
    exception leaves the data handler (the response timer is cleared and
    the socket destroyed by then); the attempt is not retried and no wait
    of the retry budget is taken, but the error is not handed to the
    caller either: the promise of [_send], and with it the promise of
    [get] or [set], is never settled. *)
Theorem decode_error_not_retried `{L : Libraries} (ip : string)
    (buffer : Buffer) (w : world) (tc td : Z) (bytes : Buffer) (e : js_error)
    (rest : scenario) (scs : list scenario) :
  well_formed w -> (0 <= tc < 1000)%Z ->
  (tc <= td < tc + timer_delay (_responseTimeout (this w) * 1000)%Q)%Z ->
  decode_fails (this w) bytes e ->
  let r := _send (Some ip) buffer
             (((tc, NetConnect) :: (td, NetData bytes) :: rest) :: scs) w in
  s_outcome r = Return Pending
  /\ length (s_attempts r) = 1%nat
  /\ s_waits r = []
  /\ uncaught (s_world r) = uncaught w ++ [e]
  /\ forall shape, wrap r shape = Pending.
Proof.
  intros Hw Htc Htd Hfail r.
  destruct (run_attempt_decode_fails (Some ip) buffer (now w) w tc td bytes e
              rest Hw Htc Htd Hfail) as [Hab Hun].
  assert (Hr : s_outcome r = Return Pending /\ length (s_attempts r) = 1%nat
               /\ s_waits r = [] /\ uncaught (s_world r) = uncaught w ++ [e]).
  { unfold r, _send. rewrite attempt_loop_unfold. cbn [hd].
    cbv zeta. by rewrite (abandoned_pending _ _ Hab). }
  destruct Hr as (Ho & Hl & Hw' & Hu). repeat split; try done.
  intros shape. unfold wrap. by rewrite Ho.
Qed.

Lemma decode_error_not_retried_witness :
  s_outcome (@_send demo_libraries (Some "192.168.1.20") []
               [replied []] demo_world)
  = Return Pending.
Proof.
  refine (proj1 (decode_error_not_retried (L := demo_libraries)
            "192.168.1.20" [] demo_world 5 9 []
            (Error "Packet too small. Length: 0") [] [] _ _ _ _)).
  - constructor.
  - lia.
  - vm_compute. split; [discriminate|reflexivity].
  - left. reflexivity.
Defined.

(** C7 fails on the code: [Parser.parse] and [decrypt] are called in the
    data handler (lines 184-189) outside any [try], after the response
    timer was cleared and the socket destroyed. When the reply does not
    decode, the exception leaves the handler as an uncaught exception and
    the promise is neither resolved nor rejected: the caller of [get] is
    never told, while every other failure of an attempt (lines 172 and
    199) rejects. The same happens when the reply does not decrypt. *)
Lemma decode_error_is_not_delivered :
  let q := @get demo_libraries VUndefined [replied []] demo_world in
  let q' := @get demo_libraries VUndefined [replied (reply Byte.x65)]
              demo_world in
  @Parser_parse demo_libraries [] = Throw (Error "Packet too small. Length: 0")
  /\ q.1 = Pending
  /\ q.1 <> Rejected (Some (Error "Packet too small. Length: 0"))
  /\ uncaught (s_world q.2) = [Error "Packet too small. Length: 0"]
  /\ q'.1 = Pending
  /\ uncaught (s_world q'.2) = [Error "Decrypt failed"].
Proof. vm_compute. repeat split; discriminate. Qed.

Section Exhaustion.
Context `{L : Libraries}.
Implicit Types (w : world) (c k : nat).

Lemma mainError_loop_same (m : string) errors counts main n :
  Forall (fun e => e_message e = m) errors ->
  retry.count_of m counts = n ->
  retry.mainError_loop errors counts main n
  = match last errors with Some e => Some e | None => main end.
Proof.
  intros Hm. revert counts main n.
  induction Hm as [|error errors Hmsg _ IH]; intros counts main n Hn;
    simpl; [done|].
  rewrite Hmsg, Hn. replace (n <=? S n)%nat with true
    by (symmetry; apply Nat.leb_le; lia).
  rewrite IH; [|simpl; by rewrite String.eqb_refl].
  rewrite last_cons. by destruct (last errors).
Qed.

(** When all the errors carry one message, the main error is the last. *)
Lemma mainError_same (m : string) errors e :
  Forall (fun e => e_message e = m) (errors ++ [e]) ->
  retry.mainError (errors ++ [e]) = Some e.
Proof.
  intros Hm. unfold retry.mainError.
  rewrite (mainError_loop_same m (errors ++ [e]) [] None 0%nat Hm eq_refl).
  by rewrite last_snoc.
Qed.

Lemma timer_delay_inject (d : Z) :
  (1 <= d <= 2147483647)%Z -> timer_delay (inject_Z d) = d.
Proof.
  intros Hd. unfold timer_delay.
  assert (Qle_bool 1 (inject_Z d) = true) as ->.
  { apply Qle_bool_iff. change 1%Q with (inject_Z 1).
    rewrite <- Zle_Qle. lia. }
  assert (Qle_bool (inject_Z d) 2147483647 = true) as ->.
  { apply Qle_bool_iff. change 2147483647%Q with (inject_Z 2147483647).
    rewrite <- Zle_Qle. lia. }
  simpl. apply Qfloor_Z.
Qed.

Lemma now_start_attempt ip buffer start w :
  (now w <= start)%Z -> now (start_attempt ip buffer start w).1 = start.
Proof.
  intros Hs. unfold start_attempt. simpl.
  pose proof (now_fire_due nostop start w). lia.
Qed.

(** The clock never runs backwards. *)
Lemma now_drive stop w (evs : list (Z * event)) :
  (now w <= now (drive stop w evs))%Z.
Proof.
  apply (drive_ind (fun w' => (now w <= now w')%Z) (fun _ => True));
    [| |by apply Forall_forall|lia].
  - intros w' [d f] Hw'. pose proof (now_fire stop w' d f). lia.
  - intros w' t ev _ Hw'.
    assert (now (advance t w') <= now (handle ev (advance t w')))%Z; [|simpl in *; lia].
    generalize (advance t w'). intros w0.
    destruct ev as [ip' b|c e]; simpl; [lia|].
    unfold dispatch. destruct (clients w0 !! c) as [cl|]; [|lia].
    destruct (c_destroyed cl); [lia|].
    destruct e as [|bytes|e]; simpl; [by destruct (c_connected cl)| |lia].
    destruct (c_connected cl); [|lia]. unfold on_data, clearTimeout.
    repeat case_match; simpl; lia.
Qed.

Lemma now_run_attempt ip buffer start (sc : scenario) w :
  (now w <= start)%Z ->
  (start <= now (run_attempt ip buffer start sc w).1)%Z.
Proof.
  intros Hs. rewrite run_attempt_eq. cbn [fst].
  pose proof (now_start_attempt ip buffer start w Hs).
  pose proof (now_drive (settled (start_attempt ip buffer start w).2)
                (start_attempt ip buffer start w).1
                (attempt_events (start_attempt ip buffer start w).2
                   (now (start_attempt ip buffer start w).1) sc)).
  lia.
Qed.

End Exhaustion.

Section AllFail.
Context `{L : Libraries}.

#[local] Opaque run_attempt start_attempt attempt_loop.

(** A loop in which every attempt ends in the rejection of the error
    handler uses every wait of the operation, in order, and rejects with
    the error of the last attempt. *)
Lemma attempt_loop_all_fail ip buffer timeouts :
  forall errors n start scs w,
  Forall (fun e => e_message e = COMMUNICATION_MESSAGE) errors ->
  Forall (fun d => (1 <= d <= 2147483647)%Z) timeouts ->
  (now w <= start)%Z ->
  let r := attempt_loop ip buffer timeouts errors n start scs w in
  forallb (fun a => is_connection_failure (a_result a)) (s_attempts r)
  = true ->
  map a_number (s_attempts r) = seq n (S (length timeouts))
  /\ s_waits r = timeouts
  /\ waits_between (s_attempts r) = timeouts
  /\ (exists a rest, s_attempts r = a :: rest /\ a_start a = start)
  /\ exists a, last (s_attempts r) = Some a
               /\ s_outcome r = Return (a_result a).
Proof.
  induction timeouts as [|d rest IH]; intros errors n start scs w He Hd Hs r;
    unfold r; rewrite attempt_loop_unfold; cbv zeta;
    pose proof (now_start_attempt ip buffer start w Hs) as Hstart;
    pose proof (now_run_attempt ip buffer start (hd [] scs) w Hs) as Hend;
    destruct (promise_of _ _) as [|v|[error|]] eqn:Hp; simpl;
    try discriminate.
  - rewrite andb_true_r. intros Hm%String.eqb_eq.
    rewrite mainError_same with (m := COMMUNICATION_MESSAGE)
      by (apply Forall_app; split; [done|by constructor]).
    repeat split; eauto.
  - intros [Hm%String.eqb_eq Hall]%andb_true_iff.
    apply Forall_cons in Hd as [Hd Hrest].
    rewrite (timer_delay_inject d Hd) in *.
    set (w2 := (run_attempt ip buffer start (hd [] scs) w).1) in *.
    destruct (IH (errors ++ [error]) (S n) (now w2 + d)%Z (tl scs) w2)
      as (Hnum & Hwaits & Hbetween & (a' & rest' & Hattempts & Ha')
          & (a & Hlast & Hout)); [|done|lia|done|].
    { apply Forall_app. split; [done|by constructor]. }
    rewrite Hnum, Hwaits. repeat split.
    + rewrite Hattempts in *. simpl. rewrite Ha'. f_equal; [lia|done].
    + eauto.
    + exists a. split; [|done]. rewrite Hattempts in *. by rewrite last_cons, Hlast.
Qed.

#[local] Transparent run_attempt start_attempt attempt_loop.

End AllFail.

(** C2: when every attempt of a call of [_send] ends in the rejection of
    the error handler (a connection error or a connect timeout), the call
    makes the attempts 1 to 5, each starting exactly one wait after the
    attempt before it failed; the waits are 10000, 15000, 22500 and 33750
    milliseconds, those of factor 1.5 from the minimum of ten seconds, so
    none is below the minimum and they never decrease; and the promise of
    [_send] is rejected with the error of the fifth attempt, the same
    object. *)
Theorem retry_exhaustion `{L : Libraries} (ip : string) (buffer : Buffer)
    (scs : list scenario) (w : world) :
  let r := _send (Some ip) buffer scs w in
  forallb (fun a => is_connection_failure (a_result a)) (s_attempts r)
  = true ->
  map a_number (s_attempts r) = [1; 2; 3; 4; 5]%nat
  /\ s_waits r = retry.timeouts send_retry_options
  /\ s_waits r = [10000; 15000; 22500; 33750]%Z
  /\ waits_between (s_attempts r) = s_waits r
  /\ Forall (fun d => (retry.minTimeout send_retry_options <= d)%Z) (s_waits r)
  /\ StronglySorted Z.le (s_waits r)
  /\ exists a, last (s_attempts r) = Some a
               /\ s_outcome r = Return (a_result a).
Proof.
  intros r Hall. unfold r, _send in *. rewrite send_timeouts in *.
  destruct (attempt_loop_all_fail (Some ip) buffer
              [10000; 15000; 22500; 33750]%Z [] 1 (now w) scs w)
    as (Hnum & Hwaits & Hbetween & _ & Hlast); [done| |lia|done|].
  { repeat constructor; lia. }
  rewrite Hnum, Hwaits, Hbetween. repeat split; try done.
  - repeat constructor; simpl; lia.
  - repeat constructor; lia.
Qed.

Lemma retry_exhaustion_witness :
  let r := @_send demo_libraries (Some "192.168.1.20") []
             [[(3, NetError ECONNREFUSED)]%Z; []; [(40, NetError ECONNREFUSED)]%Z]
             demo_world in
  map a_number (s_attempts r) = [1; 2; 3; 4; 5]%nat
  /\ s_waits r = [10000; 15000; 22500; 33750]%Z
  /\ s_outcome r
     = Return (Rejected (Some (with_message COMMUNICATION_MESSAGE
                                 (Error "connection timed out")))).
Proof.
  destruct (retry_exhaustion (L := demo_libraries) "192.168.1.20" []
              [[(3, NetError ECONNREFUSED)]%Z; [];
               [(40, NetError ECONNREFUSED)]%Z] demo_world)
    as (Hnum & _ & Hwaits & _ & _ & _ & (a & Hlast & Hout));
    [vm_compute; reflexivity|].
  split; [exact Hnum|]. split; [exact Hwaits|].
  rewrite Hout. vm_compute in Hlast. injection Hlast as <-. reflexivity.
Defined.

(** ** What a socket carries *)

Section Carries.
Context `{L : Libraries}.
Implicit Types (w : world) (c k : nat).

Lemma static_settle p : static (settle p).
Proof. by intros cl. Qed.

Lemma static_destroy : static destroy.
Proof. by intros cl. Qed.

Lemma static_setTimeout d : static (client_setTimeout d).
Proof. by intros cl. Qed.

Lemma static_connected : static mark_connected.
Proof. by intros cl. Qed.

Lemma static_write : static client_write.
Proof.
  intros cl. repeat split. simpl. intros H.
  apply Forall_app. split; [done|by constructor].
Qed.

Lemma carries_on_client c c' f ip buffer w :
  static f -> carries c ip buffer w -> carries c ip buffer (on_client c' f w).
Proof.
  intros Hf (cl & Hcl & Hh & Hp & Hb & Hw).
  destruct (decide (c' = c)) as [->|Hne].
  - exists (f cl). rewrite lookup_on_client_eq, Hcl.
    destruct (Hf cl) as (-> & -> & -> & Hw'). subst buffer ip.
    repeat split; auto.
  - exists cl. by rewrite lookup_on_client.
Qed.

Lemma carries_clients c ip buffer w w' :
  clients w' = clients w -> carries c ip buffer w -> carries c ip buffer w'.
Proof. unfold carries. by intros ->. Qed.

Lemma carries_fire stop c ip buffer w df :
  carries c ip buffer w -> carries c ip buffer (fire stop w df).
Proof.
  intros Hc. destruct df as [d f]. apply fire_elim; [done|..]; intros.
  - unfold on_timeout, on_error.
    repeat apply carries_on_client;
      auto using static_settle, static_destroy, static_setTimeout.
  - unfold on_sendTimeout.
    repeat apply carries_on_client;
      auto using static_settle, static_destroy, static_setTimeout.
Qed.

Lemma carries_handle c ip buffer w t ev :
  carries c ip buffer w -> carries c ip buffer (handle ev (advance t w)).
Proof.
  intros Hc. change (carries c ip buffer (advance t w)) in Hc.
  revert Hc. generalize (advance t w). clear w. intros w Hc.
  destruct ev as [ip' b|c' e]; simpl.
  - destruct Hc as (cl & Hcl & H). exists cl. split; [|done].
    simpl. by apply lookup_app_l_Some.
  - unfold dispatch. destruct (clients w !! c') as [cl'|]; [|done].
    destruct (c_destroyed cl'); [done|].
    destruct e as [|bytes|e].
    + destruct (c_connected cl'); [done|]. unfold on_connect.
      eapply carries_clients; [reflexivity|].
      repeat apply carries_on_client;
        auto using static_connected, static_write, static_setTimeout.
    + destruct (c_connected cl'); [|done]. unfold on_data, clearTimeout.
      repeat case_match;
        (eapply carries_clients; [reflexivity|]);
        repeat apply carries_on_client;
        auto using static_settle, static_destroy.
    + unfold on_error. repeat apply carries_on_client;
        auto using static_settle, static_destroy.
Qed.

Lemma carries_fire_due stop t c ip buffer w :
  carries c ip buffer w -> carries c ip buffer (fire_due stop t w).
Proof.
  intros Hc. unfold fire_due.
  apply (foldl_fire_ind (carries c ip buffer) (fun _ => True));
    [|by apply Forall_forall|done].
  intros w' df _. apply carries_fire.
Qed.

Lemma carries_drive stop c ip buffer w (evs : list (Z * event)) :
  carries c ip buffer w -> carries c ip buffer (drive stop w evs).
Proof.
  intros Hc.
  apply (drive_ind (carries c ip buffer) (fun _ => True));
    [| |by apply Forall_forall|done].
  - intros w' df. apply carries_fire.
  - intros w' t ev _. apply carries_handle.
Qed.

(** The socket of an attempt is opened to the address and for the frame
    of the call, and the sockets before it keep theirs. *)
Lemma carries_run_attempt ip buffer start (sc : scenario) w :
  let r := run_attempt ip buffer start sc w in
  r.2 = length (clients w)
  /\ carries r.2 ip buffer r.1
  /\ forall c ip' buffer',
       carries c ip' buffer' w -> carries c ip' buffer' r.1.
Proof.
  intros r. unfold r. rewrite run_attempt_eq. cbn [fst snd].
  unfold start_attempt. cbn [fst snd _sendUnwrapped].
  assert (Hlen : length (clients (advance start (fire_due nostop start w)))
                 = length (clients w)).
  { simpl. unfold fire_due. apply length_clients_foldl_fire. }
  split; [done|]. split.
  - apply carries_drive. eexists. split; [by apply list_lookup_middle|].
    by repeat split.
  - intros c ip' buffer' Hc. apply carries_drive.
    apply (carries_fire_due nostop start) in Hc.
    destruct Hc as (cl & Hcl & H). exists cl. split; [|done].
    simpl. by apply lookup_app_l_Some.
Qed.

#[local] Opaque run_attempt start_attempt.

Lemma carries_attempt_loop ip buffer timeouts :
  forall errors n start scs w,
  let r := attempt_loop ip buffer timeouts errors n start scs w in
  (exists a rest, s_attempts r = a :: rest
                  /\ a_client a = length (clients w))
  /\ Forall (fun a => carries (a_client a) ip buffer (s_world r))
            (s_attempts r)
  /\ forall c ip' buffer',
       carries c ip' buffer' w -> carries c ip' buffer' (s_world r).
Proof.
  induction timeouts as [|d rest IH]; intros errors n start scs w r;
    unfold r; rewrite attempt_loop_unfold; cbv zeta;
    destruct (carries_run_attempt ip buffer start (hd [] scs) w)
      as (Hc & Hnew & Hold);
    destruct (promise_of _ _) as [|v|[error|]]; simpl;
    try (split; [eauto|split; [by repeat constructor|done]]).
  set (w2 := (run_attempt ip buffer start (hd [] scs) w).1) in *.
  destruct (IH (errors ++ [error]) (S n)
              (now w2 + timer_delay (inject_Z d))%Z (tl scs) w2)
    as (_ & Hall & Hkeep).
  split; [eauto|]. split; [|by auto]. constructor; [|done].
  simpl. by apply Hkeep.
Qed.

(** The loop always ends with a promise: it never throws. *)
Lemma attempt_loop_returns ip buffer timeouts :
  forall errors n start scs w,
  exists p,
    s_outcome (attempt_loop ip buffer timeouts errors n start scs w)
    = Return p.
Proof.
  induction timeouts as [|d rest IH]; intros errors n start scs w;
    rewrite attempt_loop_unfold; cbv zeta;
    destruct (promise_of _ _) as [|v|[error|]]; simpl; eauto.
Qed.

#[local] Transparent run_attempt start_attempt.

End Carries.

(** C3, as the code has it: a call of [_send] without an address
    ([undefined]) throws the TypeError "Device missing IP address." at
    once: no attempt, no wait, and the world, its sockets included, is as
    it was. Any string, the empty one too, is an address: the call returns
    a promise and opens a socket to that address, port 6668, for the
    frame. *)
Theorem send_without_address `{L : Libraries} (buffer : Buffer)
    (scs : list scenario) (w : world) :
  (let r := _send None buffer scs w in
   s_outcome r = Throw (TypeError "Device missing IP address.")
   /\ s_attempts r = [] /\ s_waits r = [] /\ s_world r = w)
  /\ forall ip : string,
       let r := _send (Some ip) buffer scs w in
       (exists p, s_outcome r = Return p)
       /\ (exists a rest, s_attempts r = a :: rest
                          /\ a_client a = length (clients w))
       /\ carries (length (clients w)) (Some ip) buffer (s_world r).
Proof.
  split; [done|]. intros ip r. unfold r, _send.
  destruct (carries_attempt_loop (Some ip) buffer
              (retry.timeouts send_retry_options) [] 1 (now w) scs w)
    as ((a & rest & Ha & Hc) & Hall & _).
  split; [|split; [eauto|]].
  - apply attempt_loop_returns.
  - rewrite Ha in Hall. apply Forall_cons in Hall as [Hall _].
    by rewrite Hc in Hall.
Qed.

(** C3, as stated, fails: with the empty string as address the call
    reports no missing address; it opens five sockets and ends in the
    error of a failed connection. *)
Lemma send_empty_address_opens_sockets :
  let r := @_send demo_libraries (Some EmptyString) [] [] demo_world in
  s_outcome r <> Throw (TypeError "Device missing IP address.")
  /\ length (clients (s_world r)) = 5%nat
  /\ map c_host (clients (s_world r)) = replicate 5 (Some EmptyString)
  /\ s_outcome r
     = Return (Rejected (Some (with_message COMMUNICATION_MESSAGE
                                 (Error "connection timed out")))).
Proof. vm_compute. repeat split; discriminate. Qed.

(** ** The state of the session *)

Section SessionState.
Context `{L : Libraries}.
Implicit Types (w : world) (c k : nat).

Lemma same_session_refl w : same_session w w.
Proof. by repeat split. Qed.

Lemma same_session_trans w1 w2 w3 :
  same_session w1 w2 -> same_session w2 w3 -> same_session w1 w3.
Proof.
  intros (Hd & Hr & Hs) (Hd' & Hr' & Hs'). repeat split; [congruence..|auto].
Qed.

Lemma same_session_this w w' : this w' = this w -> same_session w w'.
Proof. intros E. unfold same_session. by rewrite E. Qed.

Lemma same_session_drive stop w (evs : list (Z * event)) :
  same_session w (drive stop w evs).
Proof.
  apply (drive_ind (same_session w) (fun _ => True));
    [| |by apply Forall_forall|apply same_session_refl].
  - intros w' df Hw'. apply (same_session_trans _ w'); [done|].
    apply same_session_this, this_fire.
  - intros w' t ev _ Hw'. apply (same_session_trans _ w'); [done|].
    apply this_handle.
Qed.

Lemma same_session_run_attempt ip buffer start (sc : scenario) w :
  same_session w (run_attempt ip buffer start sc w).1.
Proof.
  rewrite run_attempt_eq. cbn [fst].
  eapply same_session_trans; [|apply same_session_drive].
  apply same_session_this. unfold start_attempt. simpl.
  unfold fire_due. apply this_foldl_fire.
Qed.

#[local] Opaque run_attempt start_attempt.

Lemma same_session_attempt_loop ip buffer timeouts :
  forall errors n start scs w,
  same_session w
    (s_world (attempt_loop ip buffer timeouts errors n start scs w)).
Proof.
  induction timeouts as [|d rest IH]; intros errors n start scs w;
    rewrite attempt_loop_unfold; cbv zeta;
    pose proof (same_session_run_attempt ip buffer start (hd [] scs) w);
    destruct (promise_of _ _) as [|v|[error|]]; simpl; try done.
  eapply same_session_trans; [eassumption|apply IH].
Qed.

#[local] Transparent run_attempt start_attempt.

Lemma same_session_send ip buffer scs w :
  same_session w (s_world (_send ip buffer scs w)).
Proof.
  destruct ip as [ip|]; unfold _send;
    [apply same_session_attempt_loop|apply same_session_refl].
Qed.

(** The worlds that a session at rest can reach are well formed. *)
Lemma well_formed_idle_world dev t : well_formed (idle_world dev t).
Proof. constructor. Qed.

Lemma well_formed_handle w t ev :
  well_formed w -> well_formed (handle ev (advance t w)).
Proof.
  unfold well_formed. rewrite !Forall_forall. intros Hw.
  change (timers w) with (timers (advance t w)) in Hw.
  change (next_timer w) with (next_timer (advance t w)) in Hw.
  change (clients w) with (clients (advance t w)) in Hw.
  revert Hw. generalize (advance t w). clear w. intros w Hw.
  destruct ev as [ip b|c e]; simpl.
  - intros tm Hin. rewrite length_app. simpl. destruct (Hw tm Hin). lia.
  - unfold dispatch. destruct (clients w !! c) as [cl|] eqn:Hcl; [|done].
    apply lookup_lt_Some in Hcl.
    destruct (c_destroyed cl); [done|].
    destruct e as [|bytes|e].
    + destruct (c_connected cl); [done|]. simpl.
      intros tm [Hin| ->%list_elem_of_singleton]%elem_of_app;
        rewrite !length_alter; [destruct (Hw tm Hin); lia|simpl; lia].
    + destruct (c_connected cl); [|done]. unfold on_data, clearTimeout.
      intros tm. repeat case_match; simpl; rewrite ?length_alter;
        rewrite ?list_elem_of_filter; intros Hin; apply Hw; tauto.
    + simpl. intros tm Hin. rewrite !length_alter. by apply Hw.
Qed.

Lemma well_formed_drive stop w (evs : list (Z * event)) :
  well_formed w -> well_formed (drive stop w evs).
Proof.
  intros Hw. apply (drive_ind well_formed (fun _ => True));
    [| |by apply Forall_forall|done].
  - intros w' df. apply well_formed_fire.
  - intros w' t ev _. apply well_formed_handle.
Qed.

Lemma well_formed_run_attempt ip buffer start (sc : scenario) w :
  well_formed w -> well_formed (run_attempt ip buffer start sc w).1.
Proof.
  intros Hw. rewrite run_attempt_eq. cbn [fst]. apply well_formed_drive.
  apply (well_formed_handle _ start (Call ip buffer)).
  unfold fire_due.
  apply (foldl_fire_ind well_formed (fun _ => True));
    [|by apply Forall_forall|done].
  intros w' df _. apply well_formed_fire.
Qed.

#[local] Opaque run_attempt start_attempt.

Lemma well_formed_attempt_loop ip buffer timeouts :
  forall errors n start scs w,
  well_formed w ->
  well_formed (s_world (attempt_loop ip buffer timeouts errors n start scs w)).
Proof.
  induction timeouts as [|d rest IH]; intros errors n start scs w Hw;
    rewrite attempt_loop_unfold; cbv zeta;
    pose proof (well_formed_run_attempt ip buffer start (hd [] scs) w Hw);
    destruct (promise_of _ _) as [|v|[error|]]; simpl; try done.
  by apply IH.
Qed.

#[local] Transparent run_attempt start_attempt.

Lemma well_formed_send ip buffer scs w :
  well_formed w -> well_formed (s_world (_send ip buffer scs w)).
Proof.
  intros Hw. destruct ip as [ip|]; unfold _send; [|done].
  by apply well_formed_attempt_loop.
Qed.

(** Every socket that a call of [_send] opens is for the frame of the
    call, and nothing else is written to it. *)
Lemma send_carries ip buffer scs w :
  Forall (fun a => carries (a_client a) ip buffer
                     (s_world (_send ip buffer scs w)))
         (s_attempts (_send ip buffer scs w)).
Proof.
  destruct ip as [ip|]; unfold _send; [|constructor].
  apply carries_attempt_loop.
Qed.

End SessionState.

(** C6, as the code has it: the payload, the frame and the envelope are
    values of the call, and no event, timer or call changes the device or
    the response timeout of the session; but the session has one field that
    calls write, [_sendTimeout]: an attempt that connects stores the handle
    of its response timer there, the handle is never removed again, so it
    survives the call, and every call on the session reads and writes the
    same field. *)
Theorem session_state `{L : Libraries} (w : world) :
  (forall evs, same_session w (run w evs))
  /\ (forall ip buffer scs, same_session w (s_world (_send ip buffer scs w)))
  /\ (forall c D t,
        connecting c D w ->
        _sendTimeout (this (handle (Net c NetConnect) (advance t w)))
        = Some (next_timer w)).
Proof.
  split; [|split].
  - intros evs. apply same_session_drive.
  - intros ip buffer scs. apply same_session_send.
  - intros c D t Hc. by destruct (awaiting_connect w c D t Hc) as (_ & -> & _).
Qed.

Lemma session_state_witness :
  let w := (@_sendUnwrapped (Some "192.168.1.20") [] demo_world).1 in
  _sendTimeout (this (@handle demo_libraries (Net 0 NetConnect)
                        (advance 1700000000005 w)))
  = Some 0%nat.
Proof.
  intros w.
  refine (proj2 (proj2 (session_state (L := demo_libraries) w)) 0%nat
            1700000001000%Z _ _).
  split.
  - eexists. split; [reflexivity|]. by repeat split.
  - intros tm Hin. by apply elem_of_nil in Hin.
Defined.

(** C6, as stated, fails. A call that has completed leaves the handle of
    its response timer on the session. And two calls that run at the same
    time share the field: the reply to the first (socket 0) clears the
    response timer of the second (socket 1), which connected later, so the
    second, whose device stays silent, is never settled, while the same
    call alone is rejected when its response timer fires. *)
Lemma response_timer_handle_is_shared :
  let q := @get demo_libraries VUndefined [replied (reply Byte.x31)]
             demo_world in
  let ip := Some "192.168.1.20" in
  let t := 1700000000000%Z in
  let both := @run demo_libraries demo_world
                [(t, Call ip []); (t, Call ip []);
                 (t + 5, Net 0 NetConnect); (t + 6, Net 1 NetConnect);
                 (t + 8, Net 0 (NetData (reply Byte.x31)))]%Z in
  let alone := @run demo_libraries demo_world
                 [(t, Call ip []); (t + 6, Net 0 NetConnect)]%Z in
  (q.1 = Resolved (VBool true)
   /\ _sendTimeout (this demo_world) = None
   /\ _sendTimeout (this (s_world q.2)) = Some 0%nat
   /\ this (s_world q.2) <> this demo_world)
  /\ (promise_of 0 both = Resolved (VObj [("dps", VObj [("1", VBool true)])])
      /\ promise_of 1 both = Pending
      /\ timers both = []
      /\ promise_of 0 alone
         = Rejected (Some (Error "Timeout waiting for response"))).
Proof. vm_compute. repeat split; discriminate. Qed.

(** * More of the code *)

(** ** The order that the handlers keep *)

Section Orderly.
Context `{L : Libraries}.
Implicit Types (w : world) (c k : nat) (stop : world -> bool).

Lemma client_ok_timeout e cl :
  client_ok cl -> client_ok (destroy (reject e (client_setTimeout None cl))).
Proof. intros (H1 & H2 & H3 & H4 & H5). by repeat split. Qed.

Lemma client_ok_sendTimeout e cl :
  client_ok cl -> client_ok (reject e (destroy cl)).
Proof. intros (H1 & H2 & H3 & H4 & H5). by repeat split. Qed.

Lemma client_ok_error e cl : client_ok cl -> client_ok (destroy (reject e cl)).
Proof. intros (H1 & H2 & H3 & H4 & H5). by repeat split. Qed.

Lemma client_ok_destroy cl : client_ok cl -> client_ok (destroy cl).
Proof. intros (H1 & H2 & H3 & H4 & H5). by repeat split. Qed.

Lemma client_ok_resolve v cl :
  client_ok cl -> client_ok (resolve v (destroy cl)).
Proof. intros (H1 & H2 & H3 & H4 & H5). by repeat split. Qed.

Lemma client_ok_connect cl :
  c_connected cl = false -> client_ok cl ->
  client_ok (client_write (client_setTimeout None (mark_connected cl))).
Proof.
  intros Hc (H1 & H2 & H3 & H4 & H5). rewrite Hc in H2.
  repeat split; try done. simpl. by rewrite H2.
Qed.

Lemma keeps_connected_compose f g :
  keeps_connected f -> keeps_connected g -> keeps_connected (f ∘ g).
Proof. intros Hf Hg cl H. by apply Hf, Hg. Qed.

Lemma keeps_settle p : keeps_connected (settle p).
Proof. by intros cl. Qed.

Lemma keeps_destroy : keeps_connected destroy.
Proof. by intros cl. Qed.

Lemma keeps_setTimeout d : keeps_connected (client_setTimeout d).
Proof. by intros cl. Qed.

Lemma keeps_write : keeps_connected client_write.
Proof. by intros cl. Qed.

Lemma keeps_mark : keeps_connected mark_connected.
Proof. by intros cl. Qed.

(** Timers whose sockets are connected stay so under a step of a socket
    that keeps it connected. *)
Lemma timers_alter (ts : list timer) (cs : list client) f c :
  keeps_connected f ->
  Forall (fun tm => exists cl, cs !! tm_client tm = Some cl
                               /\ c_connected cl = true) ts ->
  Forall (fun tm => exists cl, alter f c cs !! tm_client tm = Some cl
                               /\ c_connected cl = true) ts.
Proof.
  intros Hf Hts. eapply Forall_impl; [exact Hts|].
  intros tm (cl & Hcl & Hconn). simpl.
  rewrite list_lookup_alter. case_decide as E.
  - subst c. rewrite Hcl. simpl. eauto.
  - eauto.
Qed.

Lemma NoDup_clients_filter (P : timer -> Prop) `{forall x, Decision (P x)}
    (ts : list timer) :
  NoDup (tm_client <$> ts) -> NoDup (tm_client <$> filter P ts).
Proof.
  intros Hn. eapply sublist_NoDup; [exact Hn|].
  apply fmap_sublist, sublist_filter.
Qed.

(** A step of one socket, with the timers untouched or thinned out. *)
Lemma orderly_step w w' c f :
  orderly w ->
  clients w' = alter f c (clients w) ->
  (forall tm, tm ∈ timers w' -> tm ∈ timers w) ->
  NoDup (tm_client <$> timers w') ->
  keeps_connected f ->
  (forall cl, clients w !! c = Some cl -> client_ok cl -> client_ok (f cl)) ->
  orderly w'.
Proof.
  intros (Hc & Ht & Hn) Hcl Hsub Hn' Hk Hok. split; [|split; [|done]].
  - rewrite Hcl. by apply Forall_alter.
  - rewrite Hcl. apply timers_alter; [done|].
    rewrite Forall_forall in Ht. apply Forall_forall.
    intros tm Hin. by apply Ht, Hsub.
Qed.

Lemma orderly_advance t w : orderly w -> orderly (advance t w).
Proof. done. Qed.

Lemma orderly_fire stop w df : orderly w -> orderly (fire stop w df).
Proof.
  intros Ho. destruct df as [d f]. apply fire_elim; [done|..].
  - intros c cl _ _ Hcl _.
    apply (orderly_step w _ c
             (destroy ∘ reject (with_message COMMUNICATION_MESSAGE
                                  (Error "connection timed out"))
              ∘ client_setTimeout None)); try done.
    + simpl. by rewrite !list_alter_alter_eq.
    + by destruct Ho as (_ & _ & Hn).
    + repeat apply keeps_connected_compose;
        auto using keeps_destroy, keeps_settle, keeps_setTimeout.
    + intros cl' _. apply client_ok_timeout.
  - intros tm _ _ Hin _.
    apply (orderly_step w _ (tm_client tm)
             (reject (Error "Timeout waiting for response") ∘ destroy));
      try done.
    + simpl. by rewrite !list_alter_alter_eq.
    + simpl. intros tm'. rewrite list_elem_of_filter. tauto.
    + simpl. apply NoDup_clients_filter. by destruct Ho as (_ & _ & Hn).
    + repeat apply keeps_connected_compose;
        auto using keeps_destroy, keeps_settle.
    + intros cl' _. apply client_ok_sendTimeout.
Qed.

Lemma orderly_sendUnwrapped ip buffer w :
  orderly w -> orderly (_sendUnwrapped ip buffer w).1.
Proof.
  intros (Hc & Ht & Hn). split; [|split; [|done]]; simpl.
  - apply Forall_app. split; [done|]. constructor; [|done].
    by repeat split.
  - eapply Forall_impl; [exact Ht|]. intros tm (cl & Hcl & Hconn).
    exists cl. split; [|done]. by apply lookup_app_l_Some.
Qed.

Lemma orderly_connect w c cl :
  orderly w -> clients w !! c = Some cl -> c_connected cl = false ->
  orderly (on_connect c (on_client c mark_connected w)).
Proof.
  intros (Hc & Ht & Hn) Hcl Hconn.
  assert (Hfresh : c ∉ tm_client <$> timers w).
  { intros (tm & -> & Hin)%list_elem_of_fmap.
    rewrite Forall_forall in Ht. destruct (Ht tm Hin) as (cl' & Hcl' & Hc').
    congruence. }
  unfold on_connect. split; [|split]; simpl.
  - rewrite !list_alter_alter_eq. apply Forall_alter; [done|].
    intros cl' Hcl' Hok. apply client_ok_connect; [congruence|done].
  - rewrite !list_alter_alter_eq. apply Forall_app. split.
    + apply timers_alter; [|done].
      repeat apply keeps_connected_compose;
        auto using keeps_write, keeps_setTimeout, keeps_mark.
    + constructor; [|done]. simpl.
      rewrite list_lookup_alter_eq, Hcl. simpl. eauto.
  - rewrite fmap_app. apply NoDup_app. split; [done|]. split.
    + intros x Hx. simpl. rewrite list_elem_of_singleton. by intros ->.
    + simpl. apply NoDup_singleton.
Qed.

Lemma orderly_data w c bytes : orderly w -> orderly (on_data c bytes w).
Proof.
  intros Ho.
  assert (Hd : orderly (on_client c destroy
                          (clearTimeout (_sendTimeout (this w)) w))).
  { apply (orderly_step w _ c destroy); try done.
    - by destruct (_sendTimeout (this w)).
    - destruct (_sendTimeout (this w)); simpl; [|done].
      intros tm. rewrite list_elem_of_filter. tauto.
    - destruct Ho as (_ & _ & Hn).
      destruct (_sendTimeout (this w)); simpl; [|done].
      by apply NoDup_clients_filter.
    - apply keeps_destroy.
    - intros cl _. apply client_ok_destroy. }
  assert (Hr : forall v, orderly (on_client c (resolve v)
                 (on_client c destroy
                    (clearTimeout (_sendTimeout (this w)) w)))).
  { intros v. apply (orderly_step w _ c (resolve v ∘ destroy)); try done.
    - destruct (_sendTimeout (this w)); simpl;
        by rewrite list_alter_alter_eq.
    - destruct (_sendTimeout (this w)); simpl; [|done].
      intros tm. rewrite list_elem_of_filter. tauto.
    - destruct Ho as (_ & _ & Hn).
      destruct (_sendTimeout (this w)); simpl; [|done].
      by apply NoDup_clients_filter.
    - apply keeps_connected_compose; auto using keeps_destroy, keeps_settle.
    - intros cl _. apply client_ok_resolve. }
  unfold on_data. destruct (Parser_parse bytes) as [data|e]; [|done].
  destruct (_ || _); [apply Hr|].
  destruct (decrypt _ data) as [plain|e]; [apply Hr|done].
Qed.

Lemma orderly_handle w t ev : orderly w -> orderly (handle ev (advance t w)).
Proof.
  intros Ho. apply (orderly_advance t) in Ho.
  revert Ho. generalize (advance t w). clear w. intros w Ho.
  destruct ev as [ip b|c e]; simpl; [by apply orderly_sendUnwrapped|].
  unfold dispatch. destruct (clients w !! c) as [cl|] eqn:Hcl; [|done].
  destruct (c_destroyed cl); [done|].
  destruct e as [|bytes|e].
  - destruct (c_connected cl) eqn:Hconn; [done|].
    by apply (orderly_connect w c cl).
  - destruct (c_connected cl); [|done]. by apply orderly_data.
  - apply (orderly_step w _ c
             (destroy ∘ reject (with_message COMMUNICATION_MESSAGE e)));
      try done.
    + simpl. by rewrite list_alter_alter_eq.
    + by destruct Ho as (_ & _ & Hn).
    + apply keeps_connected_compose; auto using keeps_destroy, keeps_settle.
    + intros cl' _. apply client_ok_error.
Qed.

Lemma orderly_drive stop w (evs : list (Z * event)) :
  orderly w -> orderly (drive stop w evs).
Proof.
  intros Ho. apply (drive_ind orderly (fun _ => True));
    [| |by apply Forall_forall|done].
  - intros w' df. apply orderly_fire.
  - intros w' t ev _. apply orderly_handle.
Qed.

Lemma orderly_run_attempt ip buffer start (sc : scenario) w :
  orderly w -> orderly (run_attempt ip buffer start sc w).1.
Proof.
  intros Ho. rewrite run_attempt_eq. cbn [fst]. apply orderly_drive.
  apply (orderly_handle _ start (Call ip buffer)).
  unfold fire_due.
  apply (foldl_fire_ind orderly (fun _ => True));
    [|by apply Forall_forall|done].
  intros w' df _. apply orderly_fire.
Qed.

#[local] Opaque run_attempt start_attempt.

Lemma orderly_attempt_loop ip buffer timeouts :
  forall errors n start scs w,
  orderly w ->
  orderly (s_world (attempt_loop ip buffer timeouts errors n start scs w)).
Proof.
  induction timeouts as [|d rest IH]; intros errors n start scs w Ho;
    rewrite attempt_loop_unfold; cbv zeta;
    pose proof (orderly_run_attempt ip buffer start (hd [] scs) w Ho);
    destruct (promise_of _ _) as [|v|[error|]]; simpl; try done.
  by apply IH.
Qed.

#[local] Transparent run_attempt start_attempt.

Lemma orderly_send ip buffer scs w :
  orderly w -> orderly (s_world (_send ip buffer scs w)).
Proof.
  intros Ho. destruct ip as [ip|]; unfold _send; [|done].
  by apply orderly_attempt_loop.
Qed.

Lemma orderly_idle_world dev t : orderly (idle_world dev t).
Proof. repeat split; simpl; constructor. Qed.

End Orderly.

(** ** The frames on the wire *)

Section FirstSocket.
Context `{L : Libraries}.
Implicit Types (w : world) (c k : nat).

Lemma connected_on_client c c' f w :
  keeps_connected f -> connected c w -> connected c (on_client c' f w).
Proof.
  intros Hf (cl & Hcl & Hconn). destruct (decide (c' = c)) as [->|Hne].
  - exists (f cl). rewrite lookup_on_client_eq, Hcl. split; [done|].
    by apply Hf.
  - exists cl. by rewrite lookup_on_client.
Qed.

Lemma connected_clients c w w' :
  clients w' = clients w -> connected c w -> connected c w'.
Proof. unfold connected. by intros ->. Qed.

Lemma connected_fire stop c w df :
  connected c w -> connected c (fire stop w df).
Proof.
  intros Hc. destruct df as [d f]. apply fire_elim; [done|..]; intros.
  - unfold on_timeout, on_error.
    repeat apply connected_on_client;
      auto using keeps_settle, keeps_destroy, keeps_setTimeout.
  - unfold on_sendTimeout.
    repeat apply connected_on_client;
      auto using keeps_settle, keeps_destroy, keeps_setTimeout.
Qed.

Lemma connected_handle c w t ev :
  connected c w -> connected c (handle ev (advance t w)).
Proof.
  intros Hc. change (connected c (advance t w)) in Hc.
  revert Hc. generalize (advance t w). clear w. intros w Hc.
  destruct ev as [ip' b|c' e]; simpl.
  - destruct Hc as (cl & Hcl & H). exists cl. split; [|done].
    simpl. by apply lookup_app_l_Some.
  - unfold dispatch. destruct (clients w !! c') as [cl'|]; [|done].
    destruct (c_destroyed cl'); [done|].
    destruct e as [|bytes|e].
    + destruct (c_connected cl'); [done|]. unfold on_connect.
      eapply connected_clients; [reflexivity|].
      repeat apply connected_on_client;
        auto using keeps_mark, keeps_write, keeps_setTimeout.
    + destruct (c_connected cl'); [|done]. unfold on_data, clearTimeout.
      repeat case_match;
        (eapply connected_clients; [reflexivity|]);
        repeat apply connected_on_client;
        auto using keeps_settle, keeps_destroy.
    + unfold on_error. repeat apply connected_on_client;
        auto using keeps_settle, keeps_destroy.
Qed.

Lemma connected_fire_due stop t c w :
  connected c w -> connected c (fire_due stop t w).
Proof.
  intros Hc. unfold fire_due.
  apply (foldl_fire_ind (connected c) (fun _ => True));
    [|by apply Forall_forall|done].
  intros w' df _. apply connected_fire.
Qed.

Lemma connected_drive stop c w (evs : list (Z * event)) :
  connected c w -> connected c (drive stop w evs).
Proof.
  intros Hc.
  apply (drive_ind (connected c) (fun _ => True));
    [| |by apply Forall_forall|done].
  - intros w' df. apply connected_fire.
  - intros w' t ev _. apply connected_handle.
Qed.

Lemma connected_run_attempt ip buffer start (sc : scenario) c w :
  connected c w -> connected c (run_attempt ip buffer start sc w).1.
Proof.
  intros Hc. rewrite run_attempt_eq. cbn [fst]. apply connected_drive.
  apply (connected_fire_due nostop start) in Hc.
  destruct Hc as (cl & Hcl & H). exists cl. split; [|done].
  unfold start_attempt. simpl. by apply lookup_app_l_Some.
Qed.

(** An attempt whose socket connects within the connect timeout leaves
    it connected. *)
Lemma run_attempt_connects ip buffer start w tc (rest : scenario) :
  well_formed w -> (0 <= tc < 1000)%Z ->
  connected (length (clients w))
    (run_attempt ip buffer start ((tc, NetConnect) :: rest) w).1.
Proof.
  intros Hw Htc.
  destruct (run_attempt_connected ip buffer start w tc rest Hw Htc)
    as (k & wB & HB & _ & _ & _ & Hr1 & Hr2).
  destruct (carries_run_attempt ip buffer start
              ((tc, NetConnect) :: rest) w) as (Hc & _).
  cbv zeta in Hc. rewrite Hr1. apply connected_drive.
  destruct HB as ((cl & Hcl & Hconn & _) & _).
  exists cl. split; [|done]. by rewrite <- Hc, Hr2.
Qed.

#[local] Opaque run_attempt start_attempt.

Lemma connected_attempt_loop ip buffer timeouts c :
  forall errors n start scs w,
  connected c w ->
  connected c (s_world (attempt_loop ip buffer timeouts errors n start scs w)).
Proof.
  induction timeouts as [|d rest IH]; intros errors n start scs w Hc;
    rewrite attempt_loop_unfold; cbv zeta;
    pose proof (connected_run_attempt ip buffer start (hd [] scs) c w Hc);
    destruct (promise_of _ _) as [|v|[error|]]; simpl; try done.
  by apply IH.
Qed.

Lemma attempt_loop_connects ip buffer timeouts errors n start scs w tc
    (rest : scenario) :
  well_formed w -> head scs = Some ((tc, NetConnect) :: rest) ->
  (0 <= tc < 1000)%Z ->
  connected (length (clients w))
    (s_world (attempt_loop ip buffer timeouts errors n start scs w)).
Proof.
  intros Hw Hhd Htc.
  pose proof (run_attempt_connects ip buffer start w tc rest Hw Htc) as Hconn.
  destruct scs as [|sc scs]; [done|]. injection Hhd as ->.
  destruct timeouts as [|d ds]; rewrite attempt_loop_unfold; cbv zeta;
    change (hd [] (((tc, NetConnect) :: rest) :: scs))
      with ((tc, NetConnect) :: rest);
    destruct (promise_of _ _) as [|v|[error|]]; simpl; try done.
  by apply connected_attempt_loop.
Qed.

#[local] Transparent run_attempt start_attempt.

(** A call of [_send] with an address hands its frame to the transport:
    its first attempt opens a socket to the address, port 6668, for the
    frame; the frame, and nothing else, is written to the socket once it
    has connected, which it has when the network connects it within the
    connect timeout. *)
Lemma send_first_socket (ip : string) buffer scs w :
  well_formed w -> orderly w ->
  let r := _send (Some ip) buffer scs w in
  exists a cl,
    head (s_attempts r) = Some a
    /\ a_client a = length (clients w)
    /\ clients (s_world r) !! a_client a = Some cl
    /\ c_host cl = Some ip /\ c_port cl = 6668%Z /\ c_buffer cl = buffer
    /\ c_written cl = (if c_connected cl then [buffer] else [])
    /\ forall tc rest, head scs = Some ((tc, NetConnect) :: rest) ->
         (0 <= tc < 1000)%Z -> c_written cl = [buffer].
Proof.
  intros Hw Ho r.
  pose proof (orderly_send (Some ip) buffer scs w Ho) as (Hok & _).
  fold r in Hok. unfold r, _send in *.
  destruct (carries_attempt_loop (Some ip) buffer
              (retry.timeouts send_retry_options) [] 1 (now w) scs w)
    as ((a & rest & Ha & Hc) & Hall & _).
  set (r' := attempt_loop (Some ip) buffer
               (retry.timeouts send_retry_options) [] 1 (now w) scs w) in *.
  rewrite Ha in Hall. apply Forall_cons in Hall as [Hcar _].
  destruct Hcar as (cl & Hcl & Hh & Hp & Hb & _).
  exists a, cl. rewrite Ha.
  assert (Hwr : c_written cl = if c_connected cl then [buffer] else []).
  { rewrite Forall_lookup in Hok.
    destruct (Hok _ _ Hcl) as (_ & H2 & _). by rewrite H2, Hb. }
  split; [done|]. split; [done|]. split; [done|]. split; [done|].
  split; [done|]. split; [done|]. split; [exact Hwr|].
  intros tc rest' Hhd Htc.
  destruct (attempt_loop_connects (Some ip) buffer
              (retry.timeouts send_retry_options) [] 1 (now w) scs w tc rest'
              Hw Hhd Htc) as (cl' & Hcl' & Hconn).
  fold r' in Hcl'. rewrite <- Hc, Hcl in Hcl'. injection Hcl' as <-.
  by rewrite Hconn in Hwr.
Qed.

End FirstSocket.

(** C5: the frame of an update is [Parser.encode] at command byte "07" of
    the bytes of protocolVersion, signature and ciphertext in this order,
    where the ciphertext encrypts the JSON of [{devId, uid, t, dps}] with
    [uid] the empty string and [t] the decimal string of the clock in whole
    seconds, and the signature is the digest of
    ["data=" + ciphertext + "||lpv=" + protocolVersion + "||" + key]; the
    update hands this frame to the transport: every socket that it opens
    is opened for this frame, with an address its first attempt opens one,
    and the frame, and nothing else, is written to that socket when it
    connects. *)
Theorem update_frame `{L : Libraries} (options dps : value) (w : world) :
  (0 <= now w)%Z ->
  set_dps options = Return dps ->
  let dev := device (this w) in
  exists (ciphertext signature t : string) (frame : Buffer),
    t = Z_toString (now w / 1000)
    /\ ciphertext =
         encrypt (device_cipher dev)
           (JSON_stringify
              (VObj [("devId", device_id dev); ("uid", VStr EmptyString);
                     ("t", VStr t); ("dps", dps)]))
    /\ signature =
         md5 (device_cipher dev)
           ("data=" +:+ ciphertext +:+ "||lpv=" +:+ device_version dev
            +:+ "||" +:+ device_key dev)
    /\ frame =
         Parser_encode
           {| data := DataBuffer
                (Buffer_from (device_version dev) ++ Buffer_from signature
                 ++ Buffer_from ciphertext);
              commandByte := "07" |}
    /\ set_request options w = Return frame
    /\ (forall scs, exists q,
         set options scs w = Return q
         /\ Forall (fun a => carries (a_client a) (device_ip dev) frame
                               (s_world q.2))
                   (s_attempts q.2))
    /\ forall scs ip,
         device_ip dev = Some ip -> well_formed w -> orderly w ->
         exists q a cl,
           set options scs w = Return q
           /\ head (s_attempts q.2) = Some a
           /\ a_client a = length (clients w)
           /\ clients (s_world q.2) !! a_client a = Some cl
           /\ c_host cl = Some ip /\ c_port cl = 6668%Z
           /\ c_buffer cl = frame
           /\ c_written cl = (if c_connected cl then [frame] else [])
           /\ forall tc rest, head scs = Some ((tc, NetConnect) :: rest) ->
                (0 <= tc < 1000)%Z -> c_written cl = [frame].
Proof.
  intros Hnow Hdps dev. eexists _, _, _, _.
  split; [reflexivity|]. split; [reflexivity|]. split; [reflexivity|].
  split; [reflexivity|].
  assert (Hreq : set_request options w
    = Return (Parser_encode
        {| data := DataBuffer
             (Buffer_from (device_version dev)
              ++ Buffer_from
                   (md5 (device_cipher dev)
                      ("data=" +:+
                       encrypt (device_cipher dev)
                         (JSON_stringify
                            (VObj [("devId", device_id dev);
                                   ("uid", VStr EmptyString);
                                   ("t", VStr (Z_toString (now w / 1000)));
                                   ("dps", dps)]))
                       +:+ "||lpv=" +:+ device_version dev
                       +:+ "||" +:+ device_key dev))
              ++ Buffer_from
                   (encrypt (device_cipher dev)
                      (JSON_stringify
                         (VObj [("devId", device_id dev);
                                ("uid", VStr EmptyString);
                                ("t", VStr (Z_toString (now w / 1000)));
                                ("dps", dps)]))));
           commandByte := "07" |})).
  { rewrite (set_request_dps _ _ _ Hdps). unfold set_buffer, set_payload.
    rewrite !Buffer_from_app. unfold timeStamp.
    by rewrite Z.quot_div_nonneg by lia. }
  split; [exact Hreq|]. split.
  - intros scs. unfold set. rewrite Hreq. eexists. split; [reflexivity|].
    cbn [snd]. apply send_carries.
  - intros scs ip Hip Hw Ho.
    match type of Hreq with
    | _ = Return ?f =>
        destruct (send_first_socket ip f scs w Hw Ho) as (a & cl & H)
    end.
    unfold set. rewrite Hreq. fold dev. rewrite Hip.
    eexists _, a, cl. split; [reflexivity|]. exact H.
Qed.

Lemma update_frame_witness :
  exists (ciphertext signature t : string) (q : promise * send_run)
         (cl : client),
    t = "1700000000"
    /\ ciphertext =
         "enc({" +:+ quote +:+ "devId" +:+ quote +:+ ":" +:+ quote
         +:+ "01200885" +:+ quote +:+ "," +:+ quote +:+ "uid" +:+ quote
         +:+ ":" +:+ quote +:+ quote +:+ "," +:+ quote +:+ "t" +:+ quote
         +:+ ":" +:+ quote +:+ t +:+ quote +:+ "," +:+ quote +:+ "dps"
         +:+ quote +:+ ":{" +:+ quote +:+ "1" +:+ quote +:+ ":true}})"
    /\ signature =
         "md5(data=" +:+ ciphertext +:+ "||lpv=3.1||0123456789abcdef)"
    /\ @set_request demo_libraries (VObj [("set", VBool true)]) demo_world
       = Return (Buffer_from ("07" +:+ "3.1" +:+ signature +:+ ciphertext))
    /\ @set demo_libraries (VObj [("set", VBool true)])
         [replied (reply Byte.x31)] demo_world = Return q
    /\ clients (s_world q.2) !! 0%nat = Some cl
    /\ c_written cl
       = [Buffer_from ("07" +:+ "3.1" +:+ signature +:+ ciphertext)].
Proof.
  destruct (update_frame (L := demo_libraries) (VObj [("set", VBool true)])
              (VObj [("1", VBool true)]) demo_world)
    as (c & s & t & frame & Ht & Hc & Hs & Hf & Hreq & _ & Hsock);
    [vm_compute; discriminate|reflexivity|].
  destruct (Hsock [replied (reply Byte.x31)] "192.168.1.20" eq_refl
              (well_formed_idle_world _ _) (orderly_idle_world _ _))
    as (q & a & cl & Hq & Ha & Hclient & Hcl & _ & _ & _ & _ & Hwrite).
  specialize (Hwrite 5%Z [(9%Z, NetData (reply Byte.x31))] eq_refl).
  exists c, s, t, q, cl. subst t c s.
  assert (Hframe : frame
    = Buffer_from ("07" +:+ "3.1" +:+
        "md5(data=" +:+
          ("enc({" +:+ quote +:+ "devId" +:+ quote +:+ ":" +:+ quote
           +:+ "01200885" +:+ quote +:+ "," +:+ quote +:+ "uid" +:+ quote
           +:+ ":" +:+ quote +:+ quote +:+ "," +:+ quote +:+ "t" +:+ quote
           +:+ ":" +:+ quote +:+ "1700000000" +:+ quote +:+ "," +:+ quote
           +:+ "dps" +:+ quote +:+ ":{" +:+ quote +:+ "1" +:+ quote
           +:+ ":true}})")
          +:+ "||lpv=3.1||0123456789abcdef)" +:+
        ("enc({" +:+ quote +:+ "devId" +:+ quote +:+ ":" +:+ quote
         +:+ "01200885" +:+ quote +:+ "," +:+ quote +:+ "uid" +:+ quote
         +:+ ":" +:+ quote +:+ quote +:+ "," +:+ quote +:+ "t" +:+ quote
         +:+ ":" +:+ quote +:+ "1700000000" +:+ quote +:+ "," +:+ quote
         +:+ "dps" +:+ quote +:+ ":{" +:+ quote +:+ "1" +:+ quote
         +:+ ":true}})"))).
  { subst frame. vm_compute. reflexivity. }
  split; [vm_compute; reflexivity|]. split; [reflexivity|].
  split; [reflexivity|].
  split; [rewrite Hreq, Hframe; vm_compute; reflexivity|].
  split; [exact Hq|]. rewrite Hclient in Hcl. split; [exact Hcl|].
  rewrite Hwrite by lia. rewrite Hframe. vm_compute. reflexivity.
Defined.

(** C8: the frame of a query is [Parser.encode] at command byte "0a" of the
    object [{gwId, devId}], both the device id, handed over as it is: the
    frame is the same whatever the cipher, the key and the protocol version
    of the session, which take no part in it; the query hands this frame
    to the transport: every socket that it opens is opened for this
    frame, with an address its first attempt opens one, and the frame,
    and nothing else, is written to that socket when it connects. *)
Theorem query_frame `{L : Libraries} (dev : TuyaDevice) :
  get_buffer dev =
    Parser_encode
      {| data := DataObject (VObj [("gwId", device_id (device dev));
                                   ("devId", device_id (device dev))]);
         commandByte := "0a" |}
  /\ (forall (key version : string) (cipher : TuyaCipher),
        get_buffer
          {| device := {| device_id := device_id (device dev);
                          device_key := key;
                          device_ip := device_ip (device dev);
                          device_version := version;
                          device_cipher := cipher |};
             _responseTimeout := _responseTimeout dev;
             _sendTimeout := _sendTimeout dev |}
        = get_buffer dev)
  /\ (forall options scs w,
       this w = dev ->
       Forall (fun a => carries (a_client a) (device_ip (device dev))
                          (get_buffer dev) (s_world (get options scs w).2))
              (s_attempts (get options scs w).2))
  /\ forall options scs w ip,
       this w = dev -> device_ip (device dev) = Some ip ->
       well_formed w -> orderly w ->
       exists a cl,
         head (s_attempts (get options scs w).2) = Some a
         /\ a_client a = length (clients w)
         /\ clients (s_world (get options scs w).2) !! a_client a = Some cl
         /\ c_host cl = Some ip /\ c_port cl = 6668%Z
         /\ c_buffer cl = get_buffer dev
         /\ c_written cl = (if c_connected cl then [get_buffer dev] else [])
         /\ forall tc rest, head scs = Some ((tc, NetConnect) :: rest) ->
              (0 <= tc < 1000)%Z -> c_written cl = [get_buffer dev].
Proof.
  split; [done|]. split; [done|]. split.
  - intros options scs w <-. unfold get. cbn [snd]. apply send_carries.
  - intros options scs w ip <- Hip Hw Ho. unfold get. cbn [snd].
    rewrite Hip. apply (send_first_socket ip _ scs w Hw Ho).
Qed.

Lemma query_frame_witness :
  exists cl,
    clients (s_world (@get demo_libraries VUndefined
                        [replied (reply Byte.x31)] demo_world).2) !! 0%nat
    = Some cl
    /\ c_host cl = Some "192.168.1.20" /\ c_port cl = 6668%Z
    /\ c_written cl
       = [Buffer_from ("0a{" +:+ quote +:+ "gwId" +:+ quote +:+ ":"
            +:+ quote +:+ "01200885" +:+ quote +:+ "," +:+ quote
            +:+ "devId" +:+ quote +:+ ":" +:+ quote +:+ "01200885"
            +:+ quote +:+ "}")].
Proof.
  destruct (proj2 (proj2 (proj2 (query_frame (L := demo_libraries)
              (this demo_world))))
              VUndefined [replied (reply Byte.x31)] demo_world
              "192.168.1.20" eq_refl eq_refl
              (well_formed_idle_world _ _) (orderly_idle_world _ _))
    as (a & cl & Ha & Hc & Hcl & Hh & Hp & _ & _ & Hwrite).
  exists cl. rewrite Hc in Hcl. split; [exact Hcl|].
  split; [exact Hh|]. split; [exact Hp|].
  rewrite (Hwrite 5%Z [(9%Z, NetData (reply Byte.x31))] eq_refl);
    [vm_compute; reflexivity|lia].
Defined.

(** X1: in every world that events, timers and calls of [_send] lead to
    from an orderly one, a socket whose promise is settled (resolved or
    rejected) is destroyed and its idle timer is gone. *)
Theorem settled_socket_is_destroyed `{L : Libraries} (w : world) :
  orderly w ->
  (forall evs c cl,
     clients (run w evs) !! c = Some cl -> c_promise cl <> Pending ->
     c_destroyed cl = true /\ c_idle cl = None)
  /\ (forall ip buffer scs c cl,
        clients (s_world (_send ip buffer scs w)) !! c = Some cl ->
        c_promise cl <> Pending ->
        c_destroyed cl = true /\ c_idle cl = None).
Proof.
  intros Ho.
  assert (H : forall w', orderly w' -> forall c cl,
            clients w' !! c = Some cl -> c_promise cl <> Pending ->
            c_destroyed cl = true /\ c_idle cl = None).
  { intros w' (Hc & _) c cl Hcl Hp. rewrite Forall_lookup in Hc.
    destruct (Hc c cl Hcl) as (H1 & _ & _ & H4 & _). auto. }
  split.
  - intros evs. by apply H, orderly_drive.
  - intros ip buffer scs. by apply H, orderly_send.
Qed.

Lemma settled_socket_is_destroyed_witness :
  exists cl,
    clients (s_world (@_send demo_libraries (Some "192.168.1.20") []
                        [replied (reply Byte.x31)] demo_world)) !! 0%nat
    = Some cl
    /\ c_promise cl <> Pending
    /\ c_destroyed cl = true /\ c_idle cl = None.
Proof.
  assert (H : exists cl,
            clients (s_world (@_send demo_libraries (Some "192.168.1.20") []
                                [replied (reply Byte.x31)] demo_world))
              !! 0%nat = Some cl
            /\ c_promise cl <> Pending).
  { eexists. split; [vm_compute; reflexivity|discriminate]. }
  destruct H as (cl & Hcl & Hp). exists cl.
  split; [exact Hcl|]. split; [exact Hp|].
  exact (proj2 (settled_socket_is_destroyed (L := demo_libraries) demo_world
                  (orderly_idle_world _ _))
           (Some "192.168.1.20") [] [replied (reply Byte.x31)] 0%nat cl
           Hcl Hp).
Defined.

(** X2: in every such world the frame has been written exactly once to a
    socket that has connected, and nothing to a socket that has not. *)
Theorem frame_written_once `{L : Libraries} (w : world) :
  orderly w ->
  (forall evs c cl,
     clients (run w evs) !! c = Some cl ->
     c_written cl = if c_connected cl then [c_buffer cl] else [])
  /\ (forall ip buffer scs c cl,
        clients (s_world (_send ip buffer scs w)) !! c = Some cl ->
        c_written cl = if c_connected cl then [c_buffer cl] else []).
Proof.
  intros Ho.
  assert (H : forall w', orderly w' -> forall c cl,
            clients w' !! c = Some cl ->
            c_written cl = if c_connected cl then [c_buffer cl] else []).
  { intros w' (Hc & _) c cl Hcl. rewrite Forall_lookup in Hc.
    by destruct (Hc c cl Hcl) as (_ & H2 & _). }
  split.
  - intros evs. by apply H, orderly_drive.
  - intros ip buffer scs. by apply H, orderly_send.
Qed.

Lemma frame_written_once_witness :
  exists cl,
    clients (s_world (@_send demo_libraries (Some "192.168.1.20")
                        (Buffer_from "frame")
                        [[]; replied (reply Byte.x31)] demo_world)) !! 1%nat
    = Some cl
    /\ c_written cl = if c_connected cl then [c_buffer cl] else [].
Proof.
  assert (H : exists cl,
            clients (s_world (@_send demo_libraries (Some "192.168.1.20")
                                (Buffer_from "frame")
                                [[]; replied (reply Byte.x31)] demo_world))
              !! 1%nat = Some cl).
  { eexists. vm_compute. reflexivity. }
  destruct H as (cl & Hcl). exists cl. split; [exact Hcl|].
  exact (proj2 (frame_written_once (L := demo_libraries) demo_world
                  (orderly_idle_world _ _))
           (Some "192.168.1.20") (Buffer_from "frame")
           [[]; replied (reply Byte.x31)] 1%nat cl Hcl).
Defined.

(** X3: in every such world a response timer belongs to a socket that has
    connected and whose idle timer is gone, so the two timers of a socket
    are never armed together; and no socket has two response timers. *)
Theorem one_timer_per_socket `{L : Libraries} (w : world) :
  orderly w ->
  (forall evs,
     NoDup (tm_client <$> timers (run w evs))
     /\ forall tm, tm ∈ timers (run w evs) ->
          exists cl, clients (run w evs) !! tm_client tm = Some cl
                     /\ c_connected cl = true /\ c_idle cl = None)
  /\ (forall ip buffer scs,
        let w' := s_world (_send ip buffer scs w) in
        NoDup (tm_client <$> timers w')
        /\ forall tm, tm ∈ timers w' ->
             exists cl, clients w' !! tm_client tm = Some cl
                        /\ c_connected cl = true /\ c_idle cl = None).
Proof.
  intros Ho.
  assert (H : forall w', orderly w' ->
            NoDup (tm_client <$> timers w')
            /\ forall tm, tm ∈ timers w' ->
                 exists cl, clients w' !! tm_client tm = Some cl
                            /\ c_connected cl = true /\ c_idle cl = None).
  { intros w' (Hc & Ht & Hn). split; [done|]. intros tm Hin.
    rewrite Forall_forall in Ht. destruct (Ht tm Hin) as (cl & Hcl & Hconn).
    exists cl. repeat split; try done. rewrite Forall_lookup in Hc.
    destruct (Hc _ cl Hcl) as (_ & _ & H3 & _). auto. }
  split.
  - intros evs. by apply H, orderly_drive.
  - intros ip buffer scs. by apply H, orderly_send.
Qed.

Lemma one_timer_per_socket_witness :
  let w := s_world (@_send demo_libraries (Some "192.168.1.20") []
                      (replicate 5 [(5, NetConnect);
                                    (7, NetError ECONNREFUSED)]%Z)
                      demo_world) in
  NoDup (tm_client <$> timers w)
  /\ forall tm, tm ∈ timers w ->
       exists cl, clients w !! tm_client tm = Some cl
                  /\ c_connected cl = true /\ c_idle cl = None.
Proof.
  exact (proj2 (one_timer_per_socket (L := demo_libraries) demo_world
                  (orderly_idle_world _ _)) _ _ _).
Defined.

(** ** Replies and socket errors *)

Section Replies.
Context `{L : Libraries}.
Implicit Types (w : world) (c k : nat).

Lemma decodes_device (dev dev' : TuyaDevice) bytes data :
  device dev = device dev' -> decodes dev bytes data ->
  decodes dev' bytes data.
Proof. unfold decodes. by intros ->. Qed.

Lemma settled_resolved c w v :
  promise_of c w = Resolved v -> settled c w = true.
Proof. unfold settled. by intros ->. Qed.

(** The data handler on a socket that awaits the reply. *)
Lemma awaiting_data w c k D t bytes data :
  awaiting c k D w -> decodes (this w) bytes data ->
  let w' := handle (Net c (NetData bytes)) (advance t w) in
  promise_of c w' = Resolved data
  /\ uncaught w' = uncaught w
  /\ (forall tm, tm ∈ timers w' -> tm_client tm <> c)
  /\ client_state c w' true true None (Resolved data).
Proof.
  intros ((cl & Hcl & Hconn & Hdes & Hidle & Hp) & Hthis & _ & Htm) Hdec.
  simpl. unfold dispatch. simpl. rewrite Hcl, Hdes, Hconn.
  unfold on_data. simpl. rewrite Hthis. simpl.
  assert (Hres : forall v,
    let w' := on_client c (resolve v)
                (on_client c destroy
                   (set_timers (filter (fun tm => tm_id tm ≠ k) (timers w))
                      (advance t w))) in
    promise_of c w' = Resolved v /\ uncaught w' = uncaught w
    /\ (forall tm, tm ∈ timers w' -> tm_client tm <> c)
    /\ client_state c w' true true None (Resolved v)).
  { intros v w'.
    assert (Hl : clients w' !! c = Some (resolve v (destroy cl))).
    { unfold w'. rewrite !lookup_on_client_eq. simpl. by rewrite Hcl. }
    split; [|split; [done|split]].
    - unfold promise_of. rewrite Hl. simpl. by rewrite Hp.
    - unfold w'. simpl. intros tm [Hid Hin]%list_elem_of_filter.
      specialize (Htm tm Hin). by rewrite decide_False in Htm by done.
    - eexists. split; [exact Hl|]. simpl. by rewrite Hp. }
  destruct Hdec as [[-> Hty]|(raw & -> & Ho & Hu & Hd)].
  - assert (String.eqb (typeof data) "object"
            || String.eqb (typeof data) "undefined" = true) as ->.
    { destruct Hty as [-> | ->]; reflexivity. }
    apply Hres.
  - apply String.eqb_neq in Ho, Hu. rewrite Ho, Hu. simpl.
    rewrite Hd. apply Hres.
Qed.

(** The error handler on a live socket. *)
Lemma live_error w c cl t e :
  clients w !! c = Some cl -> c_destroyed cl = false ->
  c_promise cl = Pending ->
  let w' := handle (Net c (NetError e)) (advance t w) in
  promise_of c w' = Rejected (Some (with_message COMMUNICATION_MESSAGE e))
  /\ timers w' = timers w.
Proof.
  intros Hcl Hdes Hp. simpl. unfold dispatch. simpl. rewrite Hcl, Hdes.
  unfold promise_of, on_error. simpl.
  rewrite !list_lookup_alter_eq, Hcl. simpl. by rewrite Hp.
Qed.

Lemma run_attempt_resolves ip buffer start w tc td bytes data
    (rest : scenario) :
  well_formed w -> (0 <= tc < 1000)%Z ->
  (tc <= td < tc + timer_delay (_responseTimeout (this w) * 1000)%Q)%Z ->
  decodes (this w) bytes data ->
  let r := run_attempt ip buffer start
             ((tc, NetConnect) :: (td, NetData bytes) :: rest) w in
  promise_of r.2 r.1 = Resolved data
  /\ uncaught r.1 = uncaught w
  /\ (forall tm, tm ∈ timers r.1 -> tm_client tm <> r.2)
  /\ client_state r.2 r.1 true true None (Resolved data).
Proof.
  intros Hw Htc Htd Hdec r.
  destruct (run_attempt_connected ip buffer start w tc
              ((td, NetData bytes) :: rest) Hw Htc)
    as (k & wB & HB & Hun & Hnow & Hdev & Hr1 & Hr2).
  unfold r. rewrite Hr1, Hr2. clear r Hr1 Hr2.
  set (c := (start_attempt ip buffer start w).2) in *.
  set (w1 := (start_attempt ip buffer start w).1) in *.
  change (attempt_events c (now w1) ((td, NetData bytes) :: rest))
    with (((now w1 + td)%Z, Net c (NetData bytes))
          :: attempt_events c (now w1) rest).
  rewrite drive_cons.
  assert (HB' : awaiting c k
            (now w1 + tc + timer_delay (_responseTimeout (this w) * 1000)%Q)
            (fire_due (settled c) (now w1 + td) wB))
    by (apply awaiting_fire_due; [lia|done]).
  rewrite (awaiting_pending _ _ _ _ HB').
  assert (Hdev' : device (this w)
                  = device (this (fire_due (settled c) (now w1 + td) wB))).
  { unfold fire_due. by rewrite this_foldl_fire. }
  destruct (awaiting_data _ c k _ (now w1 + td) bytes data HB'
              (decodes_device _ _ _ _ Hdev' Hdec))
    as (Hp & Hun' & Htm & Hst).
  rewrite drive_stopped by (by apply (settled_resolved _ _ _ Hp)).
  repeat split; try done. rewrite Hun'. unfold fire_due.
  by rewrite uncaught_foldl_fire.
Qed.

End Replies.

(** A response timeout of whole seconds: the delay of the response
    timer is the number of milliseconds. *)
Lemma timer_delay_seconds (n : Z) :
  (1 <= n * 1000 <= 2147483647)%Z ->
  timer_delay (inject_Z n * 1000)%Q = (n * 1000)%Z.
Proof.
  intros Hn. unfold timer_delay.
  assert (E : (inject_Z n * 1000 == inject_Z (n * 1000))%Q)
    by (unfold Qeq; simpl; lia).
  assert (H1 : Qle_bool 1 (inject_Z n * 1000) = true).
  { apply Qle_bool_iff. rewrite E. unfold Qle. simpl. lia. }
  assert (H2 : Qle_bool (inject_Z n * 1000) 2147483647 = true).
  { apply Qle_bool_iff. rewrite E. unfold Qle. simpl. lia. }
  rewrite H1, H2. simpl andb. cbv iota.
  rewrite (Qfloor_comp _ _ E). apply Qfloor_Z.
Qed.

(** X4: for a call that is alone on the session (while it runs, only the
    events of its own sockets arrive) and a response timeout of whole
    seconds: when the socket of the first attempt connects within the
    connect timeout and, before the response timer is due, receives bytes
    that decode (an object or undefined from [Parser.parse], or what
    [decrypt] returns for anything else), [_send] resolves with the
    decoded value after this one attempt, with no wait; the socket is
    destroyed, no response timer of it is left, and nothing is thrown. *)
Theorem reply_resolves `{L : Libraries} (ip : string) (buffer : Buffer)
    (w : world) (seconds tc td : Z) (bytes : Buffer) (data : value)
    (rest : scenario) (scs : list scenario) :
  well_formed w ->
  _responseTimeout (this w) = inject_Z seconds ->
  (1 <= seconds * 1000 <= 2147483647)%Z ->
  (0 <= tc < 1000)%Z ->
  (tc <= td < tc + seconds * 1000)%Z ->
  decodes (this w) bytes data ->
  let r := _send (Some ip) buffer
             (((tc, NetConnect) :: (td, NetData bytes) :: rest) :: scs) w in
  s_outcome r = Return (Resolved data)
  /\ length (s_attempts r) = 1%nat
  /\ s_waits r = []
  /\ uncaught (s_world r) = uncaught w
  /\ client_state (length (clients w)) (s_world r) true true None
       (Resolved data)
  /\ forall tm, tm ∈ timers (s_world r) -> tm_client tm <> length (clients w).
Proof.
  intros Hw Hs Hrange Htc Htd' Hdec r.
  assert (Htd : (tc <= td
                 < tc + timer_delay (_responseTimeout (this w) * 1000)%Q)%Z)
    by (by rewrite Hs, timer_delay_seconds).
  destruct (run_attempt_resolves (Some ip) buffer (now w) w tc td bytes data
              rest Hw Htc Htd Hdec) as (Hp & Hun & Htm & Hst).
  destruct (carries_run_attempt (Some ip) buffer (now w)
              ((tc, NetConnect) :: (td, NetData bytes) :: rest) w)
    as (Hc & _).
  set (sc := (tc, NetConnect) :: (td, NetData bytes) :: rest) in *.
  unfold r, _send. rewrite attempt_loop_unfold.
  change (hd [] (sc :: scs)) with sc. cbv zeta.
  rewrite Hp. cbv beta iota. cbn [s_outcome s_attempts s_waits s_world length].
  rewrite <- Hc. by repeat split.
Qed.

Lemma reply_resolves_witness :
  s_outcome (@_send demo_libraries (Some "192.168.1.20") []
               [replied (reply Byte.x33)] demo_world)
  = Return (Resolved (VObj [("dps", VObj [("2", VNum 5)])])).
Proof.
  refine (proj1 (reply_resolves (L := demo_libraries) "192.168.1.20" []
            demo_world 5 5 9 (reply Byte.x33)
            (VObj [("dps", VObj [("2", VNum 5)])]) [] [] _ _ _ _ _ _)).
  - constructor.
  - reflexivity.
  - lia.
  - lia.
  - lia.
  - left. split; [reflexivity|by left].
Defined.

Section SocketErrors.
Context `{L : Libraries}.
Implicit Types (w : world) (c k : nat).

Lemma run_attempt_error_connecting ip buffer start w te e (rest : scenario) :
  well_formed w -> (0 <= te < 1000)%Z ->
  let r := run_attempt ip buffer start ((te, NetError e) :: rest) w in
  promise_of r.2 r.1 = Rejected (Some (with_message COMMUNICATION_MESSAGE e)).
Proof.
  intros Hw Hte r.
  destruct (start_attempt_connecting ip buffer start w Hw) as (Hc & _ & _).
  unfold r. rewrite run_attempt_eq. cbn [fst snd].
  set (c := (start_attempt ip buffer start w).2) in *.
  set (w1 := (start_attempt ip buffer start w).1) in *.
  change (attempt_events c (now w1) ((te, NetError e) :: rest))
    with (((now w1 + te)%Z, Net c (NetError e))
          :: attempt_events c (now w1) rest).
  rewrite drive_cons.
  assert (HA : connecting c (now w1 + 1000)
                 (fire_due (settled c) (now w1 + te) w1))
    by (apply connecting_fire_due; [lia|done]).
  rewrite (connecting_pending _ _ _ HA).
  destruct HA as [(cl & Hcl & _ & Hdes & _ & Hp) _].
  destruct (live_error _ c cl (now w1 + te) e Hcl Hdes Hp) as [Hrej _].
  by rewrite drive_stopped by (by apply (settled_rejected _ _ _ Hrej)).
Qed.

Lemma run_attempt_error_awaiting ip buffer start w tc te e
    (rest : scenario) :
  well_formed w -> (0 <= tc < 1000)%Z ->
  (tc <= te < tc + timer_delay (_responseTimeout (this w) * 1000)%Q)%Z ->
  let r := run_attempt ip buffer start
             ((tc, NetConnect) :: (te, NetError e) :: rest) w in
  promise_of r.2 r.1 = Rejected (Some (with_message COMMUNICATION_MESSAGE e))
  /\ exists tm, tm ∈ timers r.1 /\ tm_client tm = r.2
       /\ tm_deadline tm
          = (now (start_attempt ip buffer start w).1 + tc
             + timer_delay (_responseTimeout (this w) * 1000)%Q)%Z.
Proof.
  intros Hw Htc Hte r.
  destruct (run_attempt_connected ip buffer start w tc
              ((te, NetError e) :: rest) Hw Htc)
    as (k & wB & HB & Hun & Hnow & Hdev & Hr1 & Hr2).
  unfold r. rewrite Hr1, Hr2. clear r Hr1 Hr2.
  set (c := (start_attempt ip buffer start w).2) in *.
  set (w1 := (start_attempt ip buffer start w).1) in *.
  change (attempt_events c (now w1) ((te, NetError e) :: rest))
    with (((now w1 + te)%Z, Net c (NetError e))
          :: attempt_events c (now w1) rest).
  rewrite drive_cons.
  assert (HB' : awaiting c k
            (now w1 + tc + timer_delay (_responseTimeout (this w) * 1000)%Q)
            (fire_due (settled c) (now w1 + te) wB))
    by (apply awaiting_fire_due; [lia|done]).
  rewrite (awaiting_pending _ _ _ _ HB').
  destruct HB' as ((cl & Hcl & _ & Hdes & _ & Hp) & _ & (tm & Hin & Hk) & Htm).
  destruct (live_error _ c cl (now w1 + te) e Hcl Hdes Hp) as [Hrej Hts].
  rewrite drive_stopped by (by apply (settled_rejected _ _ _ Hrej)).
  split; [done|]. exists tm. rewrite Hts. split; [done|].
  specialize (Htm tm Hin). rewrite decide_True in Htm by done.
  by destruct Htm.
Qed.

End SocketErrors.

(** X5: for an attempt that is alone on the session (while it runs, only
    the events of its own socket arrive): an error of the socket, while
    it connects or after it has connected and before the response timer
    is due, rejects the attempt with the socket's own error object under
    the communication message: its name and its code are kept. In the
    second case, with a response timeout of whole seconds, the response
    timer is not cleared: it is still armed, with its deadline, when the
    attempt is rejected. *)
Theorem socket_error_rejects `{L : Libraries} (ip : option string)
    (buffer : Buffer) (start : Z) (w : world) (seconds tc te : Z)
    (e : js_error) (rest : scenario) :
  well_formed w ->
  let failure := with_message COMMUNICATION_MESSAGE e in
  e_name failure = e_name e /\ e_code failure = e_code e
  /\ ((0 <= te < 1000)%Z ->
      let r := run_attempt ip buffer start ((te, NetError e) :: rest) w in
      promise_of r.2 r.1 = Rejected (Some failure))
  /\ (_responseTimeout (this w) = inject_Z seconds ->
      (1 <= seconds * 1000 <= 2147483647)%Z ->
      (0 <= tc < 1000)%Z ->
      (tc <= te < tc + seconds * 1000)%Z ->
      let r := run_attempt ip buffer start
                 ((tc, NetConnect) :: (te, NetError e) :: rest) w in
      promise_of r.2 r.1 = Rejected (Some failure)
      /\ exists tm, tm ∈ timers r.1 /\ tm_client tm = r.2
           /\ tm_deadline tm
              = (now (start_attempt ip buffer start w).1 + tc
                 + seconds * 1000)%Z).
Proof.
  intros Hw failure. split; [done|]. split; [done|]. split.
  - intros Hte. by apply run_attempt_error_connecting.
  - intros Hs Hrange Htc Hte.
    rewrite <- (timer_delay_seconds seconds Hrange), <- Hs in Hte |- *.
    by apply run_attempt_error_awaiting.
Qed.

Lemma socket_error_rejects_witness :
  (let r := @run_attempt demo_libraries (Some "192.168.1.20") []
              1700000000000 [(3, NetError ECONNREFUSED)]%Z demo_world in
   promise_of r.2 r.1
   = Rejected (Some (mkError "Error" COMMUNICATION_MESSAGE "ECONNREFUSED")))
  /\ (let r := @run_attempt demo_libraries (Some "192.168.1.20") []
                 1700000000000
                 [(5, NetConnect); (70, NetError ECONNREFUSED)]%Z
                 demo_world in
      exists tm, tm ∈ timers r.1 /\ tm_client tm = r.2
                 /\ tm_deadline tm = 1700000005005%Z).
Proof.
  split.
  - refine (proj1 (proj2 (proj2 (socket_error_rejects (L := demo_libraries)
              _ _ _ demo_world 0 0 3 ECONNREFUSED [] _))) _);
      [constructor|lia].
  - refine (proj2 (proj2 (proj2 (proj2 (socket_error_rejects
              (L := demo_libraries) (Some "192.168.1.20") []
              1700000000000 demo_world 5 5 70 ECONNREFUSED [] _))) _ _ _ _));
      [constructor|reflexivity|lia|lia|lia].
Defined.

(** ** The budget of [_send] *)

Section Budget.
Context `{L : Libraries}.
Implicit Types (w : world) (c k : nat).

Lemma length_clients_handle_net w t c e :
  length (clients (handle (Net c e) (advance t w))) = length (clients w).
Proof.
  simpl. unfold dispatch. simpl.
  destruct (clients w !! c) as [cl|]; [|done].
  destruct (c_destroyed cl); [done|].
  destruct e as [|bytes|e]; simpl.
  - destruct (c_connected cl); [done|]. simpl. by rewrite !length_alter.
  - destruct (c_connected cl); [|done]. unfold on_data, clearTimeout.
    repeat case_match; simpl; by rewrite ?length_alter.
  - by rewrite !length_alter.
Qed.

(** An attempt opens one socket. *)
Lemma length_clients_run_attempt ip buffer start (sc : scenario) w :
  length (clients (run_attempt ip buffer start sc w).1)
  = S (length (clients w)).
Proof.
  rewrite run_attempt_eq. cbn [fst].
  set (c := (start_attempt ip buffer start w).2).
  assert (Hstart : length (clients (start_attempt ip buffer start w).1)
                   = S (length (clients w))).
  { unfold start_attempt. simpl. rewrite length_app. simpl.
    unfold fire_due. rewrite length_clients_foldl_fire. lia. }
  rewrite <- Hstart.
  apply (drive_ind
           (fun w' => length (clients w')
                      = length (clients (start_attempt ip buffer start w).1))
           (fun ev => exists c e, ev = Net c e)); [| | |done].
  - intros w' df Hw'. by rewrite length_clients_fire.
  - intros w' t ev (c' & e & ->) Hw'. by rewrite length_clients_handle_net.
  - unfold attempt_events. apply Forall_forall.
    intros [t ev] Hin. apply list_elem_of_In, in_map_iff in Hin.
    destruct Hin as ([dt e] & [= _ <-] & _). simpl. eauto.
Qed.

#[local] Opaque run_attempt start_attempt.

(** The shape of every run of the loop: how many attempts, their numbers
    and sockets, the waits, and what the promise is. *)
Lemma attempt_loop_shape ip buffer timeouts :
  forall errors n start scs w,
  let r := attempt_loop ip buffer timeouts errors n start scs w in
  (1 <= length (s_attempts r) <= S (length timeouts))%nat
  /\ map a_number (s_attempts r) = seq n (length (s_attempts r))
  /\ map a_client (s_attempts r)
     = seq (length (clients w)) (length (s_attempts r))
  /\ length (clients (s_world r))
     = (length (clients w) + length (s_attempts r))%nat
  /\ s_waits r = take (length (s_attempts r) - 1) timeouts
  /\ (forall i a, s_attempts r !! i = Some a ->
        (S i < length (s_attempts r))%nat ->
        exists e, a_result a = Rejected (Some e))
  /\ exists a, last (s_attempts r) = Some a
       /\ match a_result a with
          | Pending => s_outcome r = Return Pending
          | Resolved v => s_outcome r = Return (Resolved v)
          | Rejected None => exists reason, s_outcome r = Return (Rejected reason)
          | Rejected (Some e) =>
              length (s_attempts r) = S (length timeouts)
              /\ exists reason, s_outcome r = Return (Rejected reason)
          end.
Proof.
  induction timeouts as [|d rest IH]; intros errors n start scs w r;
    unfold r; rewrite attempt_loop_unfold; cbv zeta;
    pose proof (carries_run_attempt ip buffer start (hd [] scs) w)
      as (Hc & _);
    pose proof (length_clients_run_attempt ip buffer start (hd [] scs) w)
      as Hlen;
    destruct (promise_of _ _) as [|v|[error|]] eqn:Hp; simpl;
    try (rewrite Hc, Hlen;
         split; [lia|]; split; [done|]; split; [done|]; split; [lia|];
         split; [done|];
         split; [intros [|i] a Hi Hlt; simpl in *; lia
                |eexists; split; [reflexivity|]; simpl; by eauto]).
  set (w2 := (run_attempt ip buffer start (hd [] scs) w).1) in *.
  destruct (IH (errors ++ [error]) (S n)
              (now w2 + timer_delay (inject_Z d))%Z (tl scs) w2)
    as (Hcount & Hnum & Hcl & Hsock & Hwaits & Hrej & (a & Hlast & Hout)).
  set (r' := attempt_loop ip buffer rest (errors ++ [error]) (S n)
               (now w2 + timer_delay (inject_Z d))%Z (tl scs) w2) in *.
  rewrite Hnum, Hcl, Hsock, Hwaits, Hlen, Hc.
  destruct (s_attempts r') as [|a' l'] eqn:Ha; [simpl in Hcount; lia|].
  split; [simpl in *; lia|]. split; [done|]. split; [done|].
  split; [simpl; lia|]. split; [simpl; by rewrite Nat.sub_0_r|]. split.
  - intros [|i] a0 Hi Hlt; simpl in Hi.
    + injection Hi as <-. simpl. eauto.
    + apply (Hrej i a0 Hi). simpl in *. lia.
  - exists a. split; [by rewrite last_cons, Hlast|].
    destruct (a_result a) as [|v|[e|]]; try done.
    destruct Hout as [Hfull Hreason]. split; [|done]. simpl in *. lia.
Qed.

#[local] Transparent run_attempt start_attempt.

End Budget.


(** X7: every attempt opens one new socket, and no socket is used twice:
    after a call of [_send] there are as many more sockets as attempts,
    the attempts use them in the order they were opened, and each is
    opened to the address of the call, port 6668, for its frame. *)
Theorem send_socket_per_attempt `{L : Libraries} (ip : option string)
    (buffer : Buffer) (scs : list scenario) (w : world) :
  let r := _send ip buffer scs w in
  length (clients (s_world r))
  = (length (clients w) + length (s_attempts r))%nat
  /\ map a_client (s_attempts r)
     = seq (length (clients w)) (length (s_attempts r))
  /\ Forall (fun a => carries (a_client a) ip buffer (s_world r))
            (s_attempts r).
Proof.
  intros r. unfold r, _send. destruct ip as [ip|].
  - destruct (attempt_loop_shape (Some ip) buffer
                (retry.timeouts send_retry_options) [] 1 (now w) scs w)
      as (_ & _ & Hcl & Hsock & _).
    split; [exact Hsock|]. split; [exact Hcl|]. apply carries_attempt_loop.
  - cbn [s_attempts s_world length map seq].
    split; [lia|]. split; [reflexivity|constructor].
Qed.

(** ** More on [get] and [set] *)

Lemma wrap_query_ext `{L : Libraries} (r : send_run) (o1 o2 : value) :
  (forall data, shape o1 data = shape o2 data) ->
  wrap_query r o1 = wrap_query r o2.
Proof.
  intros Hs. unfold wrap_query.
  destruct (s_outcome r) as [[|data|]|]; try done. by rewrite Hs.
Qed.

(** X8: with [schema: true] in the options, a query resolves to the whole
    decoded reply, whatever the reply's [dps] is and whatever [dps] the
    options name; the reply must only be something a property can be read
    of (anything but undefined and null). *)
Theorem query_schema `{L : Libraries} (options : value) (scs : list scenario)
    (w : world) (data : value) :
  s_outcome (get options scs w).2 = Return (Resolved data) ->
  requests_schema options = true ->
  ne_undefined data = true ->
  (get options scs w).1 = Resolved data.
Proof.
  intros Hsend Hschema Hdata. rewrite (get_resolved _ _ _ _ Hsend).
  unfold shape, requests_schema in *.
  destruct (get_prop_defined data "dps" Hdata) as [dps ->]. simpl.
  destruct (get_prop (default_options options) "schema") as [schema|];
    [|done].
  simpl. by rewrite Hschema.
Qed.

Lemma query_schema_witness :
  (@get demo_libraries (VObj [("schema", VBool true); ("dps", VStr "2")])
     [replied (reply Byte.x32)] demo_world).1
  = Resolved (VObj [("dps", VObj [("1", VBool true); ("2", VNum 5)])]).
Proof.
  refine (query_schema (L := demo_libraries) _ _ _ _ _ _ _);
    vm_compute; reflexivity.
Defined.

(** X9: when the reply decodes to undefined (or null), the query is
    rejected with a TypeError, whatever the options are, the schema
    included, since the handler reads [data.dps] first; an update resolves
    to [true] whatever the reply decodes to. *)
Theorem reply_without_body `{L : Libraries} (options : value)
    (scs : list scenario) (w : world) (data : value) :
  (s_outcome (get options scs w).2 = Return (Resolved data) ->
   ne_undefined data = false ->
   exists e, (get options scs w).1 = Rejected (Some e)
             /\ e_name e = "TypeError")
  /\ (forall q, set options scs w = Return q ->
        s_outcome q.2 = Return (Resolved data) ->
        q.1 = Resolved (VBool true)).
Proof.
  split.
  - intros Hsend Hdata. rewrite (get_resolved _ _ _ _ Hsend).
    destruct data; try discriminate; simpl; eauto.
  - intros q Hset Hsend. unfold set in Hset.
    destruct (set_request options w) as [frame|e]; [|done].
    simpl in Hset. injection Hset as <-. simpl in *. unfold wrap.
    by rewrite Hsend.
Qed.

Lemma reply_without_body_witness :
  (exists e, (@get (reply_libraries VUndefined) (VObj [("schema", VBool true)])
                [replied (reply Byte.x31)] demo_world).1
             = Rejected (Some e)
             /\ e_name e = "TypeError")
  /\ (forall q, @set (reply_libraries VUndefined) (VObj [("set", VBool true)])
                  [replied (reply Byte.x31)] demo_world = Return q ->
        q.1 = Resolved (VBool true)).
Proof.
  pose proof (reply_without_body (L := reply_libraries VUndefined)
                (VObj [("schema", VBool true)]) [replied (reply Byte.x31)]
                demo_world VUndefined) as [Hget _].
  pose proof (reply_without_body (L := reply_libraries VUndefined)
                (VObj [("set", VBool true)]) [replied (reply Byte.x31)]
                demo_world VUndefined) as [_ Hset].
  split.
  - apply Hget; vm_compute; reflexivity.
  - intros q Hq. apply (Hset q Hq). vm_compute in Hq. injection Hq as <-.
    vm_compute. reflexivity.
Defined.

(** X10: when the reply is an object without [dps] (the property reads as
    undefined, or is null) and the schema is not asked for, a query
    without a key resolves to that [dps] as it is, and a query for a key
    is rejected with a TypeError. *)
Theorem reply_without_dps `{L : Libraries} (options : value)
    (scs : list scenario) (w : world) (data dps : value) :
  s_outcome (get options scs w).2 = Return (Resolved data) ->
  get_prop data "dps" = Return dps ->
  ne_undefined dps = false ->
  requests_schema options = false ->
  (requested_key options = None -> (get options scs w).1 = Resolved dps)
  /\ (forall k, requested_key options = Some k ->
        exists e, (get options scs w).1 = Rejected (Some e)
                  /\ e_name e = "TypeError").
Proof.
  intros Hsend Hdps Hno Hschema. rewrite (get_resolved _ _ _ _ Hsend).
  unfold shape, requests_schema, requested_key in *. rewrite Hdps. simpl.
  destruct (get_prop_defined (default_options options) "schema"
              (default_options_defined options)) as [schema Es].
  destruct (get_prop_defined (default_options options) "dps"
              (default_options_defined options)) as [wanted Ew].
  rewrite Es, Ew in *. simpl. rewrite Hschema.
  split.
  - intros Hk. destruct (truthy wanted); [done|]. by rewrite Hno.
  - intros k Hk. destruct (truthy wanted); [|done].
    destruct dps; try discriminate; simpl; eauto.
Qed.

Lemma reply_without_dps_witness :
  let L := reply_libraries (VObj [("devId", VStr "01200885")]) in
  (@get L VUndefined [replied (reply Byte.x31)] demo_world).1
  = Resolved VUndefined
  /\ exists e,
       (@get L (VObj [("dps", VStr "1")])
          [replied (reply Byte.x31)] demo_world).1 = Rejected (Some e)
       /\ e_name e = "TypeError".
Proof.
  intros L. split.
  - refine (proj1 (reply_without_dps (L := L) VUndefined _ _
              (VObj [("devId", VStr "01200885")]) VUndefined _ _ _ _) _);
      vm_compute; reflexivity.
  - refine (proj2 (reply_without_dps (L := L)
              (VObj [("dps", VStr "1")]) _ _
              (VObj [("devId", VStr "01200885")]) VUndefined _ _ _ _) "1" _);
      vm_compute; reflexivity.
Defined.

(** X11: options that neither ask for the schema nor name a truthy [dps]
    (so [dps: 0], [dps: ''], [schema: 1] and the like) are as good as no
    options: the query is the same in every respect. *)
Theorem query_asking_nothing `{L : Libraries} (options : value)
    (scs : list scenario) (w : world) :
  requests_schema options = false ->
  requested_key options = None ->
  get options scs w = get VUndefined scs w.
Proof.
  intros Hschema Hkey. unfold get. cbv zeta. f_equal.
  apply wrap_query_ext. intros data.
  unfold shape, requests_schema, requested_key in *.
  destruct (get_prop data "dps") as [dps|e]; [|done]. simpl.
  destruct (get_prop_defined (default_options options) "schema"
              (default_options_defined options)) as [schema Es].
  destruct (get_prop_defined (default_options options) "dps"
              (default_options_defined options)) as [wanted Ew].
  rewrite Es, Ew in *. simpl. rewrite Hschema.
  by destruct (truthy wanted).
Qed.

Lemma query_asking_nothing_witness :
  @get demo_libraries (VObj [("dps", VNum 0); ("schema", VNum 1)])
    [replied (reply Byte.x32)] demo_world
  = @get demo_libraries VUndefined [replied (reply Byte.x32)] demo_world.
Proof.
  by apply (query_asking_nothing (L := demo_libraries)).
Defined.

(** X12: without an address on the device, a query returns a promise that
    is rejected with the TypeError of [_send], which is not thrown to the
    caller; so does an update, once its options have given a property map;
    no attempt is made and the world is as it was. *)
Theorem missing_address_rejects `{L : Libraries} (options : value)
    (scs : list scenario) (w : world) :
  device_ip (device (this w)) = None ->
  let missing := TypeError "Device missing IP address." in
  let nothing := {| s_outcome := Throw missing; s_attempts := [];
                    s_waits := []; s_world := w |} in
  get options scs w = (Settles (Rejected (Some missing)), nothing)
  /\ (forall dps, set_dps options = Return dps ->
        set options scs w = Return (Rejected (Some missing), nothing))
  /\ (forall e, set_dps options = Throw e -> set options scs w = Throw e).
Proof.
  intros Hip missing nothing. split; [|split].
  - unfold get. by rewrite Hip.
  - intros dps Hdps. unfold set.
    rewrite (set_request_dps _ _ _ Hdps). simpl. by rewrite Hip.
  - intros e He. unfold set, set_request. by rewrite He.
Qed.

Lemma missing_address_rejects_witness :
  let w := idle_world (demo_device None 5) 1700000000000 in
  (@get demo_libraries VUndefined [] w).1
  = Rejected (Some (TypeError "Device missing IP address."))
  /\ @set demo_libraries VUndefined [] w
     = Throw (TypeError "Cannot convert undefined or null to object").
Proof.
  intros w.
  destruct (missing_address_rejects (L := demo_libraries) VUndefined [] w
              eq_refl) as (Hget & _ & _).
  destruct (missing_address_rejects (L := demo_libraries) VUndefined [] w
              eq_refl) as (_ & _ & Hset).
  split; [by rewrite Hget|]. by apply Hset.
Defined.

(** X13: an update throws to its caller, before anything is built or
    sent, exactly when the options are undefined or null, or [dps] is null
    while [set] is defined, or [dps] is an object with a property
    [toString] of its own; in every other case it returns a promise. *)
Theorem update_throws_exactly `{L : Libraries} (options : value)
    (scs : list scenario) (w : world) :
  let d := match get_prop options "dps" with Return d => d | _ => VUndefined end in
  let s := match get_prop options "set" with Return s => s | _ => VUndefined end in
  ((exists e, set options scs w = Throw e) <->
   ne_undefined options = false
   \/ (d = VNull /\ ne_undefined s = true)
   \/ (exists props, d = VObj props /\ is_Some (lookup_prop "toString" props)))
  /\ ((exists q, set options scs w = Return q) <->
      ~ exists e, set options scs w = Throw e).
Proof.
  intros d s.
  assert (Hset : forall e, set options scs w = Throw e <->
                           set_dps options = Throw e).
  { intros e. unfold set, set_request.
    destruct (set_dps options); simpl; split; congruence. }
  split.
  - split.
    + intros [e He]. apply Hset in He.
      destruct (ne_undefined options) eqn:Ho; [|by left]. right.
      destruct (get_prop_defined options "dps" Ho) as [d' Ed].
      destruct (get_prop_defined options "set" Ho) as [s' Es].
      rewrite (set_dps_defined _ _ _ Ho Ed Es) in He.
      subst d s. rewrite Ed, Es.
      destruct d' as [| |b|n|str|props]; simpl in He;
        try (by destruct (ne_undefined s')).
      * left. split; [done|]. by destruct (ne_undefined s').
      * right. exists props. split; [done|].
        by destruct (lookup_prop "toString" props).
    + intros [Ho|[[Hd Hs]|(props & Hd & [x Hx])]].
      * destruct options; try discriminate; eexists; apply Hset; reflexivity.
      * destruct (ne_undefined options) eqn:Ho;
          [|destruct options; try discriminate; eexists; apply Hset;
            reflexivity].
        destruct (get_prop_defined options "dps" Ho) as [d' Ed].
        destruct (get_prop_defined options "set" Ho) as [s' Es].
        subst d s. rewrite Ed in Hd. rewrite Es in Hs. subst d'.
        eexists. apply Hset.
        rewrite (set_dps_defined _ _ _ Ho Ed Es). simpl. by rewrite Hs.
      * destruct (ne_undefined options) eqn:Ho;
          [|destruct options; try discriminate; eexists; apply Hset;
            reflexivity].
        destruct (get_prop_defined options "dps" Ho) as [d' Ed].
        destruct (get_prop_defined options "set" Ho) as [s' Es].
        subst d s. rewrite Ed in Hd. subst d'.
        eexists. apply Hset.
        rewrite (set_dps_defined _ _ _ Ho Ed Es). simpl. by rewrite Hx.
  - destruct (set options scs w) as [q|e]; split.
    + intros _ [e He]. done.
    + eauto.
    + intros [q Hq]. done.
    + intros H. destruct H. eauto.
Qed.

Lemma update_throws_exactly_witness :
  (exists e, @set demo_libraries (VObj [("dps", VNull); ("set", VNum 1)])
               [] demo_world = Throw e)
  /\ exists q, @set demo_libraries (VObj [("dps", VNull)]) [] demo_world
               = Return q.
Proof.
  split.
  - apply (proj1 (update_throws_exactly (L := demo_libraries)
                    (VObj [("dps", VNull); ("set", VNum 1)]) [] demo_world)).
    right. left. by split.
  - apply (proj2 (update_throws_exactly (L := demo_libraries)
                    (VObj [("dps", VNull)]) [] demo_world)).
    intros H.
    apply (proj1 (update_throws_exactly (L := demo_libraries)
                    (VObj [("dps", VNull)]) [] demo_world)) in H.
    destruct H as [H|[[_ H]|(props & H & _)]]; discriminate H.
Defined.

(** ** The compound verbs *)

#[local] Opaque _send.

Section VerbsProperties.
Context `{L : Libraries} `{C : Collaborators}.

Lemma get_promise scs w :
  (get VUndefined scs w).1 = wrap_query (get VUndefined scs w).2 (VObj []).
Proof. reflexivity. Qed.

(** A query without options is never resolved with an inherited member. *)
Lemma wrap_query_plain (r : send_run) :
  exists p : promise, wrap_query r (VObj []) = Settles p.
Proof.
  unfold wrap_query. destruct (s_outcome r) as [[|data|reason]|e]; eauto.
  unfold shape. destruct (get_prop data "dps") as [dps|e]; simpl; eauto.
  destruct (ne_undefined dps); simpl; eauto.
  destruct (get_prop dps "1") as [one|e]; simpl; eauto.
  destruct (ne_undefined one); eauto.
Qed.

Lemma then_get_settles scs w k (p : promise) :
  wrap_query (get VUndefined scs w).2 (VObj []) = Settles p ->
  then_get scs w k
  = after_send (get_buffer (this w)) (get VUndefined scs w).2
      match p with
      | Resolved status => k status (s_world (get VUndefined scs w).2)
      | Rejected reason => unhandled reason (s_world (get VUndefined scs w).2)
      | Pending => quiet (s_world (get VUndefined scs w).2)
      end.
Proof.
  intros Hp. unfold then_get. cbv zeta. rewrite get_promise, Hp.
  by destruct p.
Qed.









End VerbsProperties.



Section Switches.
Context `{L : Libraries} `{C : Collaborators}.

Lemma set_request_switch (x : bool) w :
  set_request (VObj [("set", VBool x)]) w
  = Return (set_buffer (this w) (now w) (VObj [("1", VBool x)])).
Proof. reflexivity. Qed.

Lemma switches_switch cb scs1 scs2 scs3 w (b : value -> bool) :
  switches b
    (then_resolveId w (fun w1 =>
       then_get scs1 w1 (fun status w2 =>
         in_then w2
           (setStatus (VObj [("set", VBool (b status))]) cb scs2 scs3 w2)))).
Proof.
  unfold switches, then_resolveId. intros f1 r1 f2 r2.
  destruct (resolveId (this w)) as [[dt [dev|e]]|]; [|done..].
  set (w1 := set_device dev _).
  destruct (wrap_query_plain (get VUndefined scs1 w1).2) as [p Hw].
  rewrite (then_get_settles _ _ _ _ Hw).
  set (r := (get VUndefined scs1 w1).2) in *.
  destruct p as [|status|reason]; [done| |done].
  unfold setStatus, set. rewrite set_request_switch. simpl.
  intros [= <- <-] [= <- _]. by exists status.
Qed.

End Switches.

(** X15: when [on], [off] or [toggle] sends an update, the query before
    it has resolved, and the update sets data point 1, and nothing else,
    to true for [on], to false for [off], and for [toggle] to the
    negation of the status that the query resolved with; its time stamp is
    the time at which the query ended. *)
Theorem switch_update `{L : Libraries} `{C : Collaborators}
    (callback : bool) (scs1 scs2 scs3 : list scenario) (w : world) :
  switches (fun _ => true) (on callback scs1 scs2 scs3 w)
  /\ switches (fun _ => false) (off callback scs1 scs2 scs3 w)
  /\ switches (fun status => negb (truthy status))
       (toggle callback scs1 scs2 scs3 w).
Proof.
  split; [apply (switches_switch _ _ _ _ _ (fun _ => true))|].
  split; [apply (switches_switch _ _ _ _ _ (fun _ => false))|].
  apply (switches_switch _ _ _ _ _ (fun status => negb (truthy status))).
Qed.

Lemma switch_update_witness :
  let scs := [replied (reply Byte.x33)] in
  let v := @toggle demo_libraries demo_collaborators true scs scs scs
             demo_world in
  exists f1 r1 f2 r2 status,
    v_sends v !! 0%nat = Some (f1, r1)
    /\ v_sends v !! 1%nat = Some (f2, r2)
    /\ @wrap_query demo_libraries r1 (VObj []) = Resolved status
    /\ f2 = @set_buffer demo_libraries (this (s_world r1)) (now (s_world r1))
              (VObj [("1", VBool (negb (truthy status)))]).
Proof.
  intros scs v.
  destruct (switch_update (L := demo_libraries) (C := demo_collaborators)
              true scs scs scs demo_world) as (_ & _ & Htoggle).
  assert (H0 : exists f1 r1, v_sends v !! 0%nat = Some (f1, r1))
    by (eexists _, _; by vm_compute).
  assert (H1 : exists f2 r2, v_sends v !! 1%nat = Some (f2, r2))
    by (eexists _, _; by vm_compute).
  destruct H0 as (f1 & r1 & H0). destruct H1 as (f2 & r2 & H1).
  destruct (Htoggle f1 r1 f2 r2 H0 H1) as (status & Hstatus & Hframe).
  exists f1, r1, f2, r2, status.
  split; [exact H0|]. split; [exact H1|]. split; [exact Hstatus|exact Hframe].
Defined.

(** X16: [toggle] does as [off] when the status that its query resolves
    with is truthy, which every property map and every non-empty string
    is, and as [on] when it is falsy. *)
Theorem toggle_by_status `{L : Libraries} `{C : Collaborators}
    (callback : bool) (scs1 scs2 scs3 : list scenario) (w : world)
    (dt : Z) (dev : Device) (status : value) :
  resolveId (this w) = Some (dt, Return dev) ->
  (get VUndefined scs1 (set_device dev (advance (now w + dt) w))).1
  = Resolved status ->
  toggle callback scs1 scs2 scs3 w
  = if truthy status then off callback scs1 scs2 scs3 w
    else on callback scs1 scs2 scs3 w.
Proof.
  intros Hid Hget. unfold toggle, on, off, then_resolveId. rewrite Hid.
  unfold then_get. cbv zeta. rewrite !Hget. by destruct (truthy status).
Qed.

Lemma toggle_by_status_witness :
  let scs := [replied (reply Byte.x33)] in
  @toggle demo_libraries demo_collaborators true scs scs scs demo_world
  = @off demo_libraries demo_collaborators true scs scs scs demo_world.
Proof.
  intros scs.
  apply (toggle_by_status (L := demo_libraries) (C := demo_collaborators)
           true scs scs scs demo_world 0 (device (this demo_world))
           (VObj [("2", VNum 5)])); by vm_compute.
Defined.

(** ** The words of [onoff] *)

Section Words.
Import Stdlib.Strings.Ascii.

Lemma lower_o (a : Ascii.ascii) :
  Ascii.eqb (ascii_toLowerCase a) "o"%char
  = Ascii.eqb a "o"%char || Ascii.eqb a "O"%char.
Proof. by destruct a as [[] [] [] [] [] [] [] []]. Qed.

Lemma lower_n (a : Ascii.ascii) :
  Ascii.eqb (ascii_toLowerCase a) "n"%char
  = Ascii.eqb a "n"%char || Ascii.eqb a "N"%char.
Proof. by destruct a as [[] [] [] [] [] [] [] []]. Qed.

Lemma lower_f (a : Ascii.ascii) :
  Ascii.eqb (ascii_toLowerCase a) "f"%char
  = Ascii.eqb a "f"%char || Ascii.eqb a "F"%char.
Proof. by destruct a as [[] [] [] [] [] [] [] []]. Qed.

Lemma toLowerCase_on (s : string) :
  String.eqb (toLowerCase s) "on" = spelt s spellings_on.
Proof.
  destruct s as [|a [|b [|c s]]]; try reflexivity;
    unfold spelt, spellings_on;
    cbn [toLowerCase String.eqb existsb];
    rewrite ?lower_o, ?lower_n;
    repeat match goal with
           | |- context [Ascii.eqb ?x ?y] => destruct (Ascii.eqb x y)
           end; reflexivity.
Qed.

Lemma toLowerCase_off (s : string) :
  String.eqb (toLowerCase s) "off" = spelt s spellings_off.
Proof.
  destruct s as [|a [|b [|c [|d s]]]]; try reflexivity;
    unfold spelt, spellings_off;
    cbn [toLowerCase String.eqb existsb];
    rewrite ?lower_o, ?lower_f;
    repeat match goal with
           | |- context [Ascii.eqb ?x ?y] => destruct (Ascii.eqb x y)
           end; reflexivity.
Qed.

End Words.

(** X17: [onoff] takes its word in any mix of upper and lower case: the
    four spellings of "on" do as [on], the eight of "off" as [off], every
    other string does nothing at all (no socket, no callback, no error),
    and anything that is not a string throws a TypeError to the caller. *)
Theorem onoff_words `{L : Libraries} `{C : Collaborators}
    (newStatus : value) (callback : bool) (scs1 scs2 scs3 : list scenario)
    (w : world) :
  match newStatus with
  | VStr s =>
      onoff newStatus callback scs1 scs2 scs3 w
      = Return (if spelt s spellings_on then on callback scs1 scs2 scs3 w
                else if spelt s spellings_off
                     then off callback scs1 scs2 scs3 w
                     else quiet w)
  | _ =>
      exists e, onoff newStatus callback scs1 scs2 scs3 w = Throw e
                /\ e_name e = "TypeError"
  end.
Proof.
  destruct newStatus as [| |b|n|s|props]; try (by eexists).
  unfold onoff, call_toLowerCase.
  rewrite <- toLowerCase_on, <- toLowerCase_off. simpl.
  destruct (String.eqb (toLowerCase s) "on"); [done|].
  by destruct (String.eqb (toLowerCase s) "off").
Qed.

(** ** The sockets of the verbs *)

#[local] Transparent _send.

Lemma send_frugal `{L : Libraries} ip buffer scs w :
  let r := _send ip buffer scs w in
  length (clients (s_world r))
  = (length (clients w) + length (s_attempts r))%nat
  /\ (length (s_attempts r) <= 5)%nat.
Proof.
  intros r. unfold r, _send. destruct ip as [ip|].
  - rewrite send_timeouts.
    destruct (attempt_loop_shape (Some ip) buffer
                [10000; 15000; 22500; 33750]%Z [] 1 (now w) scs w)
      as (Hcount & _ & _ & Hsock & _).
    split; [exact Hsock|]. cbn [length] in Hcount. lia.
  - cbn [s_attempts s_world length]. lia.
Qed.

#[local] Opaque _send.

Section VerbsSockets.
Context `{L : Libraries} `{C : Collaborators}.

Lemma frugal_stop n w v :
  v_sends v = [] -> clients (v_world v) = clients w -> frugal n w v.
Proof.
  intros Hs Hc. unfold frugal, attempts_of. rewrite Hs, Hc. simpl. lia.
Qed.

Lemma attempts_after_send frame r v :
  attempts_of (after_send frame r v)
  = (length (s_attempts r) + attempts_of v)%nat.
Proof. reflexivity. Qed.

Lemma frugal_after_send n frame ip buffer scs w v :
  frugal n (s_world (_send ip buffer scs w)) v ->
  frugal (S n) w (after_send frame (_send ip buffer scs w) v).
Proof.
  intros [Hc Hn]. destruct (send_frugal ip buffer scs w) as [Hs Hf].
  cbv zeta in Hs, Hf. unfold frugal.
  rewrite attempts_after_send.
  change (v_world (after_send frame (_send ip buffer scs w) v))
    with (v_world v).
  split; lia.
Qed.

Lemma frugal_then_get n scs w k :
  (forall status w', frugal n w' (k status w')) ->
  frugal (S n) w (then_get scs w k).
Proof.
  intros Hk. unfold then_get, get. cbv zeta. cbn [fst snd].
  apply frugal_after_send.
  destruct (wrap_query _ _) as [[|status|reason]|base key];
    [by apply frugal_stop|apply Hk|by apply frugal_stop..].
Qed.

Lemma frugal_debug n (text : string) status w' v :
  frugal n w' v ->
  frugal n w' (in_then w' (_ ← concat text status; Return v)).
Proof.
  intros Hv. unfold concat.
  destruct (ToPrimitive status) as [p|e]; simpl; [done|by apply frugal_stop].
Qed.

Lemma frugal_setStatus options cb scs2 scs3 w v :
  setStatus options cb scs2 scs3 w = Return v -> frugal 2 w v.
Proof.
  unfold setStatus, set.
  destruct (set_request options w) as [frame|e]; [|done].
  simpl. intros [= <-]. apply frugal_after_send.
  destruct (wrap _ _) as [|result|reason];
    [by apply frugal_stop| |by apply frugal_stop].
  apply frugal_then_get. intros status w'. apply frugal_debug.
  by destruct cb; apply frugal_stop.
Qed.

Lemma frugal_switch cb scs1 scs2 scs3 w (opts : value -> value) :
  frugal 3 w
    (then_resolveId w (fun w1 =>
       then_get scs1 w1 (fun status w2 =>
         in_then w2 (setStatus (opts status) cb scs2 scs3 w2)))).
Proof.
  unfold then_resolveId.
  destruct (resolveId (this w)) as [[dt [dev|e]]|];
    [|by apply frugal_stop..].
  set (w1 := set_device dev _).
  assert (Hw1 : frugal 3 w1
            (then_get scs1 w1 (fun status w2 =>
               in_then w2 (setStatus (opts status) cb scs2 scs3 w2)))).
  { apply frugal_then_get. intros status w'.
    destruct (setStatus (opts status) cb scs2 scs3 w') as [v|e] eqn:Hv;
      simpl; [by apply (frugal_setStatus _ _ _ _ _ _ Hv)|by apply frugal_stop]. }
  exact Hw1.
Qed.

Lemma keeps_then_get (P : world -> Prop) scs w k :
  (forall ip buffer scs w, P w -> P (s_world (_send ip buffer scs w))) ->
  P w -> (forall status w', P w' -> P (v_world (k status w'))) ->
  P (v_world (then_get scs w k)).
Proof.
  intros Hsend Hw Hk. unfold then_get, get. cbv zeta. cbn [fst snd].
  unfold after_send. cbn [v_world].
  destruct (wrap_query _ _) as [[|status|reason]|base key];
    [by apply Hsend| |by apply Hsend..].
  apply Hk. by apply Hsend.
Qed.

Lemma keeps_debug (P : world -> Prop) (text : string) status w' v :
  P w' -> P (v_world v) ->
  P (v_world (in_then w' (_ ← concat text status; Return v))).
Proof.
  intros Hw Hv. unfold concat. by destruct (ToPrimitive status) as [p|e].
Qed.

Lemma keeps_setStatus (P : world -> Prop) options cb scs2 scs3 w v :
  (forall ip buffer scs w, P w -> P (s_world (_send ip buffer scs w))) ->
  P w -> setStatus options cb scs2 scs3 w = Return v -> P (v_world v).
Proof.
  intros Hsend Hw. unfold setStatus, set.
  destruct (set_request options w) as [frame|e]; [|done].
  simpl. intros [= <-]. unfold after_send. cbn [v_world].
  destruct (wrap _ _) as [|result|reason]; [by apply Hsend| |by apply Hsend].
  apply keeps_then_get; [done|by apply Hsend|].
  intros status w' Hw'. apply keeps_debug; [done|]. by destruct cb.
Qed.

Lemma keeps_switch (P : world -> Prop) cb scs1 scs2 scs3 w
    (opts : value -> value) :
  (forall ip buffer scs w, P w -> P (s_world (_send ip buffer scs w))) ->
  (forall t w, P w -> P (advance t w)) ->
  (forall dev w, P w -> P (set_device dev w)) ->
  P w ->
  P (v_world
       (then_resolveId w (fun w1 =>
          then_get scs1 w1 (fun status w2 =>
            in_then w2 (setStatus (opts status) cb scs2 scs3 w2))))).
Proof.
  intros Hsend Hadv Hdev Hw. unfold then_resolveId.
  destruct (resolveId (this w)) as [[dt [dev|e]]|]; [|by apply Hadv|done].
  apply keeps_then_get; [done|by apply Hdev, Hadv|].
  intros status w' Hw'.
  destruct (setStatus (opts status) cb scs2 scs3 w') as [v|e] eqn:Hv;
    simpl; [|done].
  by apply (keeps_setStatus P _ _ _ _ _ _ Hsend Hw' Hv).
Qed.

Lemma orderly_set_device dev w : orderly w -> orderly (set_device dev w).
Proof. done. Qed.

End VerbsSockets.

(** X18: a verb opens exactly one socket for each attempt of its sends,
    and at most five for each send: at most 5 for [getStatus], 10 for
    [setStatus] and 15 for [toggle], [on], [off] and [setColor]. *)
Theorem verb_sockets `{L : Libraries} `{C : Collaborators}
    (options hexColor : value) (callback : bool)
    (scs1 scs2 scs3 : list scenario) (w : world) :
  frugal 1 w (getStatus callback scs1 w)
  /\ (forall v, setStatus options callback scs1 scs2 w = Return v ->
        frugal 2 w v)
  /\ frugal 3 w (toggle callback scs1 scs2 scs3 w)
  /\ frugal 3 w (on callback scs1 scs2 scs3 w)
  /\ frugal 3 w (off callback scs1 scs2 scs3 w)
  /\ (forall v, setColor hexColor callback scs1 scs2 scs3 w = Return v ->
        frugal 3 w v).
Proof.
  split.
  { apply frugal_then_get. intros status w'. apply frugal_debug.
    unfold call_callback. by destruct callback; apply frugal_stop. }
  split; [intros v Hv; by apply (frugal_setStatus _ _ _ _ _ _ Hv)|].
  split; [apply (frugal_switch _ _ _ _ _
                   (fun status => VObj [("set", VBool (negb (truthy status)))]))|].
  split; [apply (frugal_switch _ _ _ _ _ (fun _ => VObj [("set", VBool true)]))|].
  split; [apply (frugal_switch _ _ _ _ _ (fun _ => VObj [("set", VBool false)]))|].
  intros v. unfold setColor.
  destruct (TuyaColor_setColor (this w) hexColor) as [dps|e]; [|done].
  simpl. intros [= <-]. apply (frugal_switch _ _ _ _ _ (fun _ => dps)).
Qed.

(** X19: the verbs keep the sockets in order: from an orderly world,
    whatever the network does, each of them ends in a world in which every
    settled socket is destroyed, every socket has written its frame at
    most once, and no socket has two response timers. *)
Theorem verbs_keep_order `{L : Libraries} `{C : Collaborators}
    (options hexColor : value) (callback : bool)
    (scs1 scs2 scs3 : list scenario) (w : world) :
  orderly w ->
  orderly (v_world (getStatus callback scs1 w))
  /\ (forall v, setStatus options callback scs1 scs2 w = Return v ->
        orderly (v_world v))
  /\ orderly (v_world (toggle callback scs1 scs2 scs3 w))
  /\ orderly (v_world (on callback scs1 scs2 scs3 w))
  /\ orderly (v_world (off callback scs1 scs2 scs3 w))
  /\ (forall v, setColor hexColor callback scs1 scs2 scs3 w = Return v ->
        orderly (v_world v)).
Proof.
  intros Hw.
  pose proof (fun ip buffer scs w => orderly_send ip buffer scs w) as Hsend.
  pose proof (fun t w => orderly_advance t w) as Hadv.
  pose proof orderly_set_device as Hdev.
  split.
  { unfold getStatus. apply (keeps_then_get orderly); [done..|].
    intros status w' Hw'. apply keeps_debug; [done|].
    unfold call_callback. by destruct callback. }
  split; [intros v Hv; by apply (keeps_setStatus orderly _ _ _ _ _ _ Hsend Hw Hv)|].
  split; [by apply (keeps_switch orderly _ _ _ _ _
                      (fun status => VObj [("set", VBool (negb (truthy status)))]))|].
  split; [by apply (keeps_switch orderly _ _ _ _ _
                      (fun _ => VObj [("set", VBool true)]))|].
  split; [by apply (keeps_switch orderly _ _ _ _ _
                      (fun _ => VObj [("set", VBool false)]))|].
  intros v. unfold setColor.
  destruct (TuyaColor_setColor (this w) hexColor) as [dps|e]; [|done].
  simpl. intros [= <-]. by apply (keeps_switch orderly _ _ _ _ _ (fun _ => dps)).
Qed.

Lemma verbs_keep_order_witness :
  let scs := [replied (reply Byte.x31)] in
  orderly (v_world (@on demo_libraries demo_collaborators true scs scs scs
                      demo_world)).
Proof.
  intros scs.
  destruct (verbs_keep_order (L := demo_libraries) (C := demo_collaborators)
              VUndefined VUndefined true scs scs scs demo_world
              (orderly_idle_world _ _)) as (_ & _ & _ & Hon & _).
  exact Hon.
Defined.

(** ** The device of the verbs *)

Section VerbsDevice.
Context `{L : Libraries} `{C : Collaborators}.

Lemma getDevice_send (dev : Device) ip buffer scs w :
  getDevice w = dev -> getDevice (s_world (_send ip buffer scs w)) = dev.
Proof.
  intros <-. by destruct (same_session_send ip buffer scs w) as (Hd & _).
Qed.

Lemma getDevice_switch cb scs1 scs2 scs3 w (opts : value -> value) :
  getDevice
    (v_world
       (then_resolveId w (fun w1 =>
          then_get scs1 w1 (fun status w2 =>
            in_then w2 (setStatus (opts status) cb scs2 scs3 w2)))))
  = match resolveId (this w) with
    | Some (_, Return dev) => dev
    | _ => getDevice w
    end.
Proof.
  unfold then_resolveId.
  destruct (resolveId (this w)) as [[dt [dev|e]]|]; [|done..].
  apply (keeps_then_get (fun w' => getDevice w' = dev));
    [apply getDevice_send|done|].
  intros status w' Hw'.
  destruct (setStatus (opts status) cb scs2 scs3 w') as [v|e] eqn:Hv;
    simpl; [|done].
  by apply (keeps_setStatus (fun w' => getDevice w' = dev) _ _ _ _ _ _
              (getDevice_send dev) Hw' Hv).
Qed.

End VerbsDevice.

(** X20: what [getDevice] returns changes only when [resolveId] resolves:
    after [getStatus] and [setStatus] it is the device of before, and
    after [toggle], [on], [off] and [setColor] it is the device that
    [resolveId] resolved with, or the device of before when [resolveId]
    was rejected or never settled; no query, update, retry or timer
    touches it. *)
Theorem verbs_device `{L : Libraries} `{C : Collaborators}
    (options hexColor : value) (callback : bool)
    (scs1 scs2 scs3 : list scenario) (w : world) :
  let resolved := match resolveId (this w) with
                  | Some (_, Return dev) => dev
                  | _ => getDevice w
                  end in
  getDevice (v_world (getStatus callback scs1 w)) = getDevice w
  /\ (forall v, setStatus options callback scs1 scs2 w = Return v ->
        getDevice (v_world v) = getDevice w)
  /\ getDevice (v_world (toggle callback scs1 scs2 scs3 w)) = resolved
  /\ getDevice (v_world (on callback scs1 scs2 scs3 w)) = resolved
  /\ getDevice (v_world (off callback scs1 scs2 scs3 w)) = resolved
  /\ (forall v, setColor hexColor callback scs1 scs2 scs3 w = Return v ->
        getDevice (v_world v) = resolved).
Proof.
  intros resolved. split.
  { unfold getStatus.
    apply (keeps_then_get (fun w' => getDevice w' = getDevice w));
      [apply getDevice_send|done|].
    intros status w' Hw'.
    apply (keeps_debug (fun w' => getDevice w' = getDevice w)); [done|].
    unfold call_callback. by destruct callback. }
  split.
  { intros v Hv.
    by apply (keeps_setStatus (fun w' => getDevice w' = getDevice w)
                _ _ _ _ _ _ (getDevice_send (getDevice w)) eq_refl Hv). }
  split; [apply (getDevice_switch _ _ _ _ _
                   (fun status => VObj [("set", VBool (negb (truthy status)))]))|].
  split; [apply (getDevice_switch _ _ _ _ _ (fun _ => VObj [("set", VBool true)]))|].
  split; [apply (getDevice_switch _ _ _ _ _ (fun _ => VObj [("set", VBool false)]))|].
  intros v. unfold setColor.
  destruct (TuyaColor_setColor (this w) hexColor) as [dps|e]; [|done].
  simpl. intros [= <-]. apply (getDevice_switch _ _ _ _ _ (fun _ => dps)).
Qed.
